(** * Bulls**t History: event-resolution and game-state engine

    A shallow embedding of the TypeScript sources

      - [types/game.ts]        (data model, [DEFAULT_BUFFER_RULES])
      - [utils/gameLogic.ts]   ([calculateBuffer], [isEventWithinBuffer],
                                [getAnchorEvent], [processBullshitCall], ...)
      - [context/GameContext.tsx] ([startGame], [submitEvent], [callBullshit])
      - [services/eventCache.ts]  (the localStorage result cache)
      - [services/wikipedia.ts]   (the Wikipedia fact classifier)

    Conventions of the embedding.

      - A JavaScript [number] that the program only ever uses as an integer
        (years, indices, counters, timestamps) is a [Z].
      - A JavaScript string is a [string] of 8-bit code units, a character
        outside ASCII being the bytes of its UTF-8 form; only the ASCII
        letters have a case, and only the ASCII white space characters are
        white space.
      - [a[i]] on an array is [arr_get a i]: [None] stands for [undefined].
      - A function that can throw returns a [completion].
      - React state is passed explicitly: every operation of the context
        takes the current [option GameState] ([None] is [null]) and returns
        the state after it.
      - What the environment decides is an argument: the clock
        ([Date.now()]), the offset of local time from UTC, the seed event
        that [fetchStartingEvent] found, and the answers of Wikipedia.
        [localStorage] always accepts a write.
      - The built-ins that the program relies on ([Date], regular
        expressions, ordinary objects used as maps, [trim], ...) are
        written out as far as the program uses them. *)

From Stdlib Require Import ZArith Lia Bool Ascii String.
From stdpp Require Import base tactics option list strings pretty.

Local Open Scope string_scope.
Local Open Scope list_scope.
Local Open Scope Z_scope.

(** ** Completions *)

Inductive completion (A : Type) : Type :=
| Normal (a : A)
| Throw.
Arguments Normal {A} a.
Arguments Throw {A}.

Definition cbind {A B} (c : completion A) (k : A -> completion B) : completion B :=
  match c with
  | Normal a => k a
  | Throw => Throw
  end.

(** [a[i]] for a JavaScript array and an integer index. *)
Definition arr_get {A} (a : list A) (i : Z) : option A :=
  if i <? 0 then None else a !! Z.to_nat i.

(** [a.length] *)
Definition arr_length {A} (a : list A) : Z := Z.of_nat (length a).

(** ** types/game.ts *)

Inductive GamePhase := lobby | playing | results.

(** A [Date] object: its time value in milliseconds since the epoch, or
    the Invalid Date. *)
Inductive Date :=
| InvalidDate
| TimeValue (t : Z).

Record Player := {
  id : string;
  name : string;
  isAlive : bool;
  isHost : option bool
}.

Record HistoricalEvent := {
  title : string;
  date : Date;
  year : Z;
  month : Z;
  day : Z;
  wikipediaUrl : option string;
  description : option string
}.

Record GameEvent := {
  playerId : string;
  playerName : string;
  event : HistoricalEvent;
  wasChecked : bool;
  wasCorrect : option bool;
  timestamp : Z
}.

Record BufferRule := {
  fromYear : Z;
  toYear : Z;
  bufferYears : Z
}.

Record GameSettings := {
  startingCentury : Z;
  bufferRules : list BufferRule;
  maxPlayers : Z;
  requireDayPrecision : bool
}.

Record GameState := {
  gameId : string;
  phase : GamePhase;
  players : list Player;
  currentPlayerIndex : Z;
  eventChain : list GameEvent;
  settings : GameSettings;
  currentBuffer : Z;
  lastCheckedEventIndex : Z
}.

Definition DEFAULT_BUFFER_RULES : list BufferRule :=
  [ {| fromYear := 0;    toYear := 999;  bufferYears := 50 |};
    {| fromYear := 1000; toYear := 1499; bufferYears := 25 |};
    {| fromYear := 1500; toYear := 1799; bufferYears := 10 |};
    {| fromYear := 1800; toYear := 1899; bufferYears := 5 |};
    {| fromYear := 1900; toYear := 1949; bufferYears := 3 |};
    {| fromYear := 1950; toYear := 1999; bufferYears := 2 |};
    {| fromYear := 2000; toYear := 9999; bufferYears := 1 |} ].

Definition DEFAULT_SETTINGS : GameSettings :=
  {| startingCentury := 12;
     bufferRules := DEFAULT_BUFFER_RULES;
     maxPlayers := 8;
     requireDayPrecision := false |}.

(** ** utils/gameLogic.ts *)

(** [year >= rule.fromYear && year <= rule.toYear] *)
Definition ruleCovers (y : Z) (rule : BufferRule) : bool :=
  (fromYear rule <=? y) && (y <=? toYear rule).

Fixpoint calculateBuffer (y : Z) (rules : list BufferRule) : Z :=
  match rules with
  | [] => 1
  | rule :: rest =>
      if ruleCovers y rule then bufferYears rule else calculateBuffer y rest
  end.

Record BufferCheck := {
  isValid : bool;
  yearDifference : Z
}.

Definition isEventWithinBuffer
    (anchorEvent newEvent : HistoricalEvent) (bufferYears : Z) : BufferCheck :=
  let yearDifference := year newEvent - year anchorEvent in
  if yearDifference <? 0 then
    {| isValid := false; yearDifference := yearDifference |}
  else
    let isValid := yearDifference <=? bufferYears in
    {| isValid := isValid; yearDifference := yearDifference |}.

Definition getAnchorEvent (gameState : GameState) : option GameEvent :=
  if arr_length (eventChain gameState) =? 0 then None
  else arr_get (eventChain gameState) (lastCheckedEventIndex gameState).

Definition getCurrentYear (gameState : GameState) : Z :=
  match getAnchorEvent gameState with
  | Some anchorEvent => year (event anchorEvent)
  | None => startingCentury (settings gameState) * 100
  end.

Record BullshitResult := {
  success : bool;
  eliminatedPlayerId : string;
  wasEventCorrect : bool;
  details : string
}.

(** The guard [eventChain.length === 0] and the read of
    [eventChain[eventChain.length - 1]] are one [match]: the read is
    [undefined] exactly when the chain is empty ([arr_get_last_None]). *)
Definition processBullshitCall
    (gameState : GameState) (callingPlayerId : string) : BullshitResult :=
  match arr_get (eventChain gameState) (arr_length (eventChain gameState) - 1) with
  | None =>
      {| success := false; eliminatedPlayerId := "";
         wasEventCorrect := true; details := "No events to check" |}
  | Some lastEvent =>
      match getAnchorEvent gameState with
      | None =>
          {| success := false; eliminatedPlayerId := callingPlayerId;
             wasEventCorrect := true;
             details := "Cannot call BS on the first event" |}
      | Some anchorEvent =>
          let buffer :=
            calculateBuffer (year (event anchorEvent))
                            (bufferRules (settings gameState)) in
          let chk := isEventWithinBuffer (event anchorEvent) (event lastEvent) buffer in
          if isValid chk then
            {| success := false; eliminatedPlayerId := callingPlayerId;
               wasEventCorrect := true;
               details := "Event was correct! Year difference: "
                            +:+ pretty (yearDifference chk)
                            +:+ ", Buffer: " +:+ pretty buffer |}
          else
            {| success := true; eliminatedPlayerId := playerId lastEvent;
               wasEventCorrect := false;
               details := "Event was incorrect! Year difference: "
                            +:+ pretty (yearDifference chk)
                            +:+ ", Buffer: " +:+ pretty buffer |}
      end
  end.

Definition alivePlayers (ps : list Player) : list Player :=
  List.filter isAlive ps.

Definition isGameOver (gameState : GameState) : bool :=
  arr_length (alivePlayers (players gameState)) <=? 1.

Definition getWinner (gameState : GameState) : option string :=
  match alivePlayers (players gameState) with
  | [p] => Some (id p)
  | _ => None
  end.

(** ** context/GameContext.tsx *)

(** The [while] loop of [getNextPlayerIndex]; [fuel] is
    [players.length - attempts], so [attempts < players.length] is
    [fuel <> 0].  Reading [.isAlive] of [undefined] throws. *)
Fixpoint nextAliveFrom (ps : list Player) (fuel : nat) (nextIndex : Z)
  : completion Z :=
  match arr_get ps nextIndex with
  | None => Throw
  | Some p =>
      if isAlive p then Normal nextIndex
      else match fuel with
           | O => Normal nextIndex
           | S fuel' =>
               nextAliveFrom ps fuel' (Z.rem (nextIndex + 1) (arr_length ps))
           end
  end.

(** [x % 0] is [NaN], and [players[NaN]] is [undefined]. *)
Definition getNextPlayerIndex (gameState : GameState) : completion Z :=
  let ps := players gameState in
  if arr_length ps =? 0 then Throw
  else nextAliveFrom ps (length ps)
         (Z.rem (currentPlayerIndex gameState + 1) (arr_length ps)).

(** [startGame]: [gamePlayers] are the players passed in, or else the ones
    of the state; [startingEvent] is what [fetchStartingEvent] returned
    ([None] is [null]) and [now] what [Date.now()] returned.  Every early
    [return] leaves the state as it is. *)
Definition startGame (gameState : option GameState)
    (newPlayers : option (list Player))
    (startingEvent : option HistoricalEvent) (now : Z) : option GameState :=
  match gameState with
  | None => None
  | Some gs =>
      let gamePlayers := default (players gs) newPlayers in
      if arr_length gamePlayers <? 2 then Some gs
      else
        match startingEvent with
        | None => Some gs
        | Some startingEvent =>
            let initialGameEvent :=
              {| playerId := "system"; playerName := "Game";
                 event := startingEvent;
                 wasChecked := true; wasCorrect := Some true;
                 timestamp := now |} in
            let initialBuffer :=
              calculateBuffer (year startingEvent) (bufferRules (settings gs)) in
            Some {| gameId := gameId gs;
                    phase := playing;
                    players := gamePlayers;
                    currentPlayerIndex := currentPlayerIndex gs;
                    eventChain := [initialGameEvent];
                    settings := settings gs;
                    currentBuffer := initialBuffer;
                    lastCheckedEventIndex := 0 |}
        end
  end.

(** [String.prototype.toLowerCase] on 8-bit code units: the letters A to Z
    are lowered.  A letter outside the 7-bit range, which the code lowers
    too, is left as it is: two strings that are equal in lower case here
    are so for the code, and a result that needs two strings to differ in
    lower case is stated for strings of 7-bit characters. *)
Definition lower_char (c : ascii) : ascii :=
  let n := N_of_ascii c in
  if ((65 <=? n) && (n <=? 90))%N then ascii_of_N (n + 32) else c.

Fixpoint toLowerCase (s : string) : string :=
  match s with
  | EmptyString => EmptyString
  | String c s' => String (lower_char c) (toLowerCase s')
  end.

Record SubmitResult := {
  submit_success : bool;
  message : string
}.

(** [eventChain.some(gameEvent => gameEvent.event.title.toLowerCase()
                                   === validatedEvent.title.toLowerCase())] *)
Definition isDuplicate (chain : list GameEvent) (validatedEvent : HistoricalEvent)
  : bool :=
  existsb (fun gameEvent =>
             bool_decide (toLowerCase (title (event gameEvent))
                          = toLowerCase (title validatedEvent)))
          chain.

(** [submitEvent] returns its result and the state after the call.  It
    throws (the promise is rejected, [setGameState] is never reached) when
    [players[currentPlayerIndex]] is [undefined]. *)
Definition submitEvent (gameState : option GameState)
    (validatedEvent : HistoricalEvent) (now : Z)
  : completion (SubmitResult * option GameState) :=
  match gameState with
  | None =>
      Normal ({| submit_success := false; message := "No active game" |}, None)
  | Some gs =>
      if isDuplicate (eventChain gs) validatedEvent then
        Normal ({| submit_success := false;
                   message := "This event has already been submitted! Try a different one." |},
                Some gs)
      else
        match arr_get (players gs) (currentPlayerIndex gs) with
        | None => Throw
        | Some currentPlayer =>
            let newGameEvent :=
              {| playerId := id currentPlayer;
                 playerName := name currentPlayer;
                 event := validatedEvent;
                 wasChecked := false; wasCorrect := None;
                 timestamp := now |} in
            let newEventChain := eventChain gs ++ [newGameEvent] in
            let newLastCheckedIndex :=
              if lastCheckedEventIndex gs =? -1 then 0
              else lastCheckedEventIndex gs in
            let newBuffer :=
              calculateBuffer (year validatedEvent) (bufferRules (settings gs)) in
            cbind (getNextPlayerIndex gs) (fun nextPlayerIndex =>
              Normal ({| submit_success := true; message := "Event submitted!" |},
                      Some {| gameId := gameId gs;
                              phase := phase gs;
                              players := players gs;
                              currentPlayerIndex := nextPlayerIndex;
                              eventChain := newEventChain;
                              settings := settings gs;
                              currentBuffer := newBuffer;
                              lastCheckedEventIndex := newLastCheckedIndex |}))
        end
  end.

(** [{ ...e, wasChecked: true, wasCorrect }] *)
Definition markChecked (wasCorrect : bool) (e : GameEvent) : GameEvent :=
  {| playerId := playerId e; playerName := playerName e; event := event e;
     wasChecked := true; wasCorrect := Some wasCorrect;
     timestamp := timestamp e |}.

(** [{ ...p, isAlive: false }] *)
Definition eliminate (p : Player) : Player :=
  {| id := id p; name := name p; isAlive := false; isHost := isHost p |}.

(** [{ ...gameState, players }] *)
Definition withPlayers (gs : GameState) (ps : list Player) : GameState :=
  {| gameId := gameId gs; phase := phase gs; players := ps;
     currentPlayerIndex := currentPlayerIndex gs;
     eventChain := eventChain gs; settings := settings gs;
     currentBuffer := currentBuffer gs;
     lastCheckedEventIndex := lastCheckedEventIndex gs |}.

(** [callBullshit] returns the state after the call and the text it
    alerts.  It throws, before [setGameState], when
    [updatedEventChain[newLastCheckedIndex]] is [undefined]. *)
Definition callBullshit (gameState : option GameState) (playerId : string)
  : completion (option GameState * option string) :=
  match gameState with
  | None => Normal (None, None)
  | Some gs =>
      let result := processBullshitCall gs playerId in
      let len := length (eventChain gs) in
      let updatedEventChain :=
        if (0 <? len)%nat then
          alter (markChecked (wasEventCorrect result)) (len - 1)%nat (eventChain gs)
        else eventChain gs in
      let updatedPlayers :=
        map (fun p => if bool_decide (id p = eliminatedPlayerId result)
                      then eliminate p else p)
            (players gs) in
      let newLastCheckedIndex :=
        if wasEventCorrect result
        then arr_length updatedEventChain - 1
        else Z.max 0 (arr_length updatedEventChain - 2) in
      let gameOver := isGameOver (withPlayers gs updatedPlayers) in
      match arr_get updatedEventChain newLastCheckedIndex with
      | None => Throw
      | Some anchor =>
          Normal (Some {| gameId := gameId gs;
                          phase := if gameOver then results else playing;
                          players := updatedPlayers;
                          currentPlayerIndex := currentPlayerIndex gs;
                          eventChain := updatedEventChain;
                          settings := settings gs;
                          currentBuffer :=
                            calculateBuffer (year (event anchor))
                                            (bufferRules (settings gs));
                          lastCheckedEventIndex := newLastCheckedIndex |},
                  Some (details result))
      end
  end.

(** [{ ...gameState, phase }] *)
Definition withPhase (gs : GameState) (p : GamePhase) : GameState :=
  {| gameId := gameId gs; phase := p; players := players gs;
     currentPlayerIndex := currentPlayerIndex gs;
     eventChain := eventChain gs; settings := settings gs;
     currentBuffer := currentBuffer gs;
     lastCheckedEventIndex := lastCheckedEventIndex gs |}.



(** ** JavaScript strings *)

(** White space of [String.prototype.trim] and of [\s] among the 7-bit
    characters: TAB, LF, VT, FF, CR and SPACE.  The spaces outside the
    7-bit range (U+00A0, U+FEFF and the other Unicode spaces), which the
    code also takes for white space, are not: what depends on them is
    stated for strings of 7-bit characters. *)
Definition isWhiteSpace (c : ascii) : bool :=
  let n := N_of_ascii c in
  (((9 <=? n) && (n <=? 13)) || (n =? 32))%N.

(** Strings of 7-bit characters, on which [toLowerCase], [trim] and [\s]
    are exactly as embedded. *)
Fixpoint asciiOnly (s : string) : bool :=
  match s with
  | EmptyString => true
  | String c s' => (N_of_ascii c <? 128)%N && asciiOnly s'
  end.

(** The titles of a chain and of a fact are of 7-bit characters: the
    comparison of [submitEvent] is then exactly as embedded. *)
Definition asciiTitles (chain : list GameEvent) (fact : HistoricalEvent) : Prop :=
  asciiOnly (title fact) = true /\
  Forall (fun e => asciiOnly (title (event e)) = true) chain.

Fixpoint trimStart (s : string) : string :=
  match s with
  | String c s' => if isWhiteSpace c then trimStart s' else s
  | EmptyString => EmptyString
  end.

(** [trimEnd]: a character is kept when something that is not white space
    follows it or it is not white space itself. *)
Fixpoint trimEnd (s : string) : string :=
  match s with
  | EmptyString => EmptyString
  | String c s' =>
      match trimEnd s' with
      | EmptyString => if isWhiteSpace c then EmptyString else String c EmptyString
      | t => String c t
      end
  end.

Definition trim (s : string) : string := trimEnd (trimStart s).

(** [s.replace(/\s+/g, ' ')]: every maximal run of white space becomes one
    space.  [inRun] tells that the previous character was white space. *)
Fixpoint collapseWhiteSpace (inRun : bool) (s : string) : string :=
  match s with
  | EmptyString => EmptyString
  | String c s' =>
      if isWhiteSpace c then
        if inRun then collapseWhiteSpace true s'
        else String " " (collapseWhiteSpace true s')
      else String c (collapseWhiteSpace false s')
  end.

(** [haystack.includes(needle)] *)
Fixpoint includes (haystack needle : string) : bool :=
  String.prefix needle haystack ||
  match haystack with
  | EmptyString => false
  | String _ rest => includes rest needle
  end.

(** ** JavaScript dates *)

(** Day number (days since 1970-01-01) of a proleptic Gregorian date, the
    month counted from 1. *)
Definition days_from_civil (y m d : Z) : Z :=
  let y' := if m <=? 2 then y - 1 else y in
  let era := y' / 400 in
  let yoe := y' - era * 400 in
  let mp := if m >? 2 then m - 3 else m + 9 in
  let doy := (153 * mp + 2) / 5 + d - 1 in
  let doe := yoe * 365 + yoe / 4 - yoe / 100 + doy in
  era * 146097 + doe - 719468.

(** Year, month (from 1) and day of the month of a day number. *)
Definition civil_from_days (z : Z) : Z * Z * Z :=
  let z' := z + 719468 in
  let era := z' / 146097 in
  let doe := z' - era * 146097 in
  let yoe := (doe - doe / 1460 + doe / 36524 - doe / 146096) / 365 in
  let doy := doe - (365 * yoe + yoe / 4 - yoe / 100) in
  let mp := (5 * doy + 2) / 153 in
  let d := doy - (153 * mp + 2) / 5 + 1 in
  let m := if mp <? 10 then mp + 3 else mp - 9 in
  ((if m <=? 2 then yoe + era * 400 + 1 else yoe + era * 400), m, d).

Definition msPerDay : Z := 86400000.

(** The largest time value of a [Date]: 100,000,000 days. *)
Definition maxTimeValue : Z := 8640000000000000.

(** [TimeClip] *)
Definition timeClip (t : Z) : Date :=
  if Z.abs t <=? maxTimeValue then TimeValue t else InvalidDate.

Section LocalTime.

(** The offset of local time from UTC in milliseconds, taken constant. *)
Variable LocalTZA : Z.

(** [new Date(year, month, day)]: local midnight of the day, the month
    counted from 0 and overflowing into the years, the day overflowing
    into the months; a year from 0 to 99 means 1900 + year. *)
Definition newDate (y m d : Z) : Date :=
  let yr := if (0 <=? y) && (y <=? 99) then 1900 + y else y in
  let ym := yr + m / 12 in
  let mn := m mod 12 in
  let dayNumber := days_from_civil ym (mn + 1) 1 + d - 1 in
  timeClip (dayNumber * msPerDay - LocalTZA).

(** [getFullYear()], [getMonth()] (from 0) and [getDate()]; [None] is
    [NaN]. *)
Definition localCivil (dt : Date) : option (Z * Z * Z) :=
  match dt with
  | InvalidDate => None
  | TimeValue t => Some (civil_from_days ((t + LocalTZA) / msPerDay))
  end.

Definition getFullYear (dt : Date) : option Z :=
  (fun '(y, _, _) => y) <$> localCivil dt.
Definition getMonth (dt : Date) : option Z :=
  (fun '(_, m, _) => m - 1) <$> localCivil dt.
Definition getDate (dt : Date) : option Z :=
  (fun '(_, _, d) => d) <$> localCivil dt.

End LocalTime.

(** Decimal digits of a natural number, padded with zeros to [width]. *)
Definition padStart (width : nat) (n : Z) : string :=
  let digits := pretty (Z.to_N n) in
  String.concat "" (replicate (width - String.length digits) "0") +:+ digits.

(** [Date.prototype.toISOString]: [YYYY-MM-DDTHH:mm:ss.sssZ] in UTC, the
    year with a sign and six digits outside 0..9999; a [RangeError] for
    the Invalid Date. *)
Definition toISOString (dt : Date) : completion string :=
  match dt with
  | InvalidDate => Throw
  | TimeValue t =>
      let '(y, m, d) := civil_from_days (t / msPerDay) in
      let ms := t mod msPerDay in
      let yearText :=
        if (0 <=? y) && (y <=? 9999) then padStart 4 y
        else (if y <? 0 then "-" else "+") +:+ padStart 6 (Z.abs y) in
      Normal (yearText +:+ "-" +:+ padStart 2 m +:+ "-" +:+ padStart 2 d
              +:+ "T" +:+ padStart 2 (ms / 3600000)
              +:+ ":" +:+ padStart 2 (ms / 60000 mod 60)
              +:+ ":" +:+ padStart 2 (ms / 1000 mod 60)
              +:+ "." +:+ padStart 3 (ms mod 1000) +:+ "Z")
  end.

Definition isDigit (c : ascii) : bool :=
  let n := N_of_ascii c in ((48 <=? n) && (n <=? 57))%N.

(** The number written by a string of decimal digits; [None] when a
    character is not a digit or the string is empty. *)
Fixpoint digitsValue (acc : Z) (s : string) : option Z :=
  match s with
  | EmptyString => Some acc
  | String c s' =>
      if isDigit c
      then digitsValue (10 * acc + Z.of_N (N_of_ascii c - 48)) s'
      else None
  end.

Definition numberOfDigits (s : string) : option Z :=
  match s with
  | EmptyString => None
  | _ => digitsValue 0 s
  end.

(** [new Date(text)] for a text in the format that [toISOString] writes:
    the fields are read at their fixed places and must name a real
    instant.  The other formats that [new Date] reads are not embedded (a
    text in one of them is the Invalid Date here), so what is proved of
    [dateOfString] is about texts that [toISOString] wrote. *)
Definition parseISOFields (sign : Z) (yearDigits : nat) (s : string) : Date :=
  let field (start len : nat) := numberOfDigits (String.substring start len s) in
  let sep (pos : nat) (c : string) :=
    bool_decide (String.substring pos 1 s = c) in
  let p := yearDigits in
  match field 0%nat p, field (p + 1)%nat 2%nat, field (p + 4)%nat 2%nat,
        field (p + 7)%nat 2%nat, field (p + 10)%nat 2%nat,
        field (p + 13)%nat 2%nat, field (p + 16)%nat 3%nat with
  | Some y, Some m, Some d, Some hh, Some mm, Some ss, Some ms =>
      let y := sign * y in
      let dayNumber := days_from_civil y m d in
      if sep p "-" && sep (p + 3)%nat "-" && sep (p + 6)%nat "T"
         && sep (p + 9)%nat ":" && sep (p + 12)%nat ":" && sep (p + 15)%nat "."
         && sep (p + 19)%nat "Z" && (String.length s =? p + 20)%nat
         && (1 <=? m) && (m <=? 12) && (1 <=? d)
         && bool_decide (civil_from_days dayNumber = (y, m, d))
         && (hh <=? 23) && (mm <=? 59) && (ss <=? 59)
      then timeClip (dayNumber * msPerDay
                     + hh * 3600000 + mm * 60000 + ss * 1000 + ms)
      else InvalidDate
  | _, _, _, _, _, _, _ => InvalidDate
  end.

Definition dateOfString (s : string) : Date :=
  match s with
  | String "+" s' => parseISOFields 1 6 s'
  | String "-" s' => parseISOFields (-1) 6 s'
  | _ => parseISOFields 1 4 s
  end.

(** ** JavaScript objects used as maps *)

(** The own enumerable properties of an ordinary object, in the order in
    which [Object.keys] and [JSON.stringify] enumerate them: the array
    indices in ascending order, then the other names in the order in which
    they were created.  The prototype is [Object.prototype]. *)
Definition JSObject (V : Type) : Type := list (string * V).

(** The names that every ordinary object inherits from [Object.prototype]. *)
Definition objectPrototypeNames : list string :=
  [ "constructor"; "__defineGetter__"; "__defineSetter__"; "hasOwnProperty";
    "__lookupGetter__"; "__lookupSetter__"; "isPrototypeOf";
    "propertyIsEnumerable"; "toString"; "valueOf"; "__proto__";
    "toLocaleString" ].

(** What [obj[key]] evaluates to. *)
Inductive PropertyValue (V : Type) : Type :=
| Undefined
| Own (v : V)
| Inherited.   (* a member of Object.prototype: a function, or for
                  __proto__ the prototype object itself *)
Arguments Undefined {V}.
Arguments Own {V} v.
Arguments Inherited {V}.

Fixpoint ownProperty {V} (obj : JSObject V) (key : string) : option V :=
  match obj with
  | [] => None
  | (k, v) :: rest => if bool_decide (k = key) then Some v else ownProperty rest key
  end.

(** [obj[key]] *)
Definition getProp {V} (obj : JSObject V) (key : string) : PropertyValue V :=
  match ownProperty obj key with
  | Some v => Own v
  | None =>
      if bool_decide (key ∈ objectPrototypeNames) then Inherited else Undefined
  end.

(** A canonical numeric string below 2^32 - 1 is an array index. *)
Definition arrayIndex (key : string) : option Z :=
  match numberOfDigits key with
  | Some n =>
      if (bool_decide (key = "0") || negb (String.prefix "0" key))
         && (n <=? 4294967294)
      then Some n else None
  | None => None
  end.

Fixpoint replaceOwn {V} (key : string) (v : V) (obj : JSObject V) : JSObject V :=
  match obj with
  | [] => []
  | (k, w) :: rest =>
      if bool_decide (k = key) then (k, v) :: rest
      else (k, w) :: replaceOwn key v rest
  end.

(** A new array index goes before the first property that is not a smaller
    array index. *)
Fixpoint insertIndex {V} (n : Z) (key : string) (v : V) (obj : JSObject V)
  : JSObject V :=
  match obj with
  | [] => [(key, v)]
  | (k, w) :: rest =>
      match arrayIndex k with
      | Some m => if m <? n then (k, w) :: insertIndex n key v rest
                  else (key, v) :: obj
      | None => (key, v) :: obj
      end
  end.

(** [obj[key] = v] for an object [v].  An own property is overwritten in
    place.  Otherwise the name [__proto__] reaches the setter inherited
    from [Object.prototype], which replaces the prototype of [obj] and
    makes no own property; any other name becomes a new own property. *)
Definition setProp {V} (key : string) (v : V) (obj : JSObject V) : JSObject V :=
  match ownProperty obj key with
  | Some _ => replaceOwn key v obj
  | None =>
      if bool_decide (key = "__proto__") then obj
      else match arrayIndex key with
           | Some n => insertIndex n key v obj
           | None => obj ++ [(key, v)]
           end
  end.

(** [delete obj[key]] *)
Definition deleteProp {V} (key : string) (obj : JSObject V) : JSObject V :=
  List.filter (fun kv => negb (bool_decide (fst kv = key))) obj.

(** [Object.keys(obj)] *)
Definition objectKeys {V} (obj : JSObject V) : list string := map fst obj.

(** ** services/eventCache.ts *)

Definition CACHE_VERSION : Z := 1.
Definition MAX_CACHE_SIZE : Z := 500.

(** A [CachedEvent] as it is written: the event with its date as an ISO
    string, and the time of writing. *)
Record CachedEvent := {
  cachedTitle : string;
  cachedDate : string;
  cachedYear : Z;
  cachedMonth : Z;
  cachedDay : Z;
  cachedWikipediaUrl : option string;
  cachedDescription : option string;
  cachedAt : Z
}.

Record EventCache := {
  version : Z;
  events : JSObject CachedEvent
}.

(** What [localStorage.getItem(CACHE_KEY)] holds: nothing, a text that
    [JSON.parse] rejects, or the JSON text of an [EventCache] (written and
    read back without loss: strings, integers and absent optional
    fields). *)
Inductive StoredItem :=
| ItemAbsent
| ItemUnparsable
| ItemCache (c : EventCache).

Definition emptyCache : EventCache :=
  {| version := CACHE_VERSION; events := [] |}.

Definition getCache (item : StoredItem) : EventCache :=
  match item with
  | ItemAbsent => emptyCache
  | ItemUnparsable => emptyCache
  | ItemCache parsed =>
      if version parsed =? CACHE_VERSION then parsed else emptyCache
  end.

(** [keys.sort((a, b) => cachedAt(a) - cachedAt(b))]: a stable sort, here
    by insertion, on the keys paired with their [cachedAt]. *)
Fixpoint insertByCachedAt (x : string * CachedEvent) (sorted : JSObject CachedEvent)
  : JSObject CachedEvent :=
  match sorted with
  | [] => [x]
  | y :: rest =>
      if cachedAt (snd x) <? cachedAt (snd y) then x :: sorted
      else y :: insertByCachedAt x rest
  end.

Definition sortByCachedAt (obj : JSObject CachedEvent) : JSObject CachedEvent :=
  fold_left (fun sorted x => insertByCachedAt x sorted) obj [].

(** [saveCache] returns the item that [localStorage] holds afterwards (the
    store is taken to accept the write). *)
Definition saveCache (cache : EventCache) : StoredItem :=
  let eventKeys := objectKeys (events cache) in
  let kept :=
    if arr_length eventKeys >? MAX_CACHE_SIZE then
      let sortedKeys := objectKeys (sortByCachedAt (events cache)) in
      let toRemove :=
        take (Z.to_nat (arr_length eventKeys - MAX_CACHE_SIZE)) sortedKeys in
      fold_left (fun evs key => deleteProp key evs) toRemove (events cache)
    else events cache in
  ItemCache {| version := version cache; events := kept |}.

Definition normalizeEventName (name : string) : string :=
  collapseWhiteSpace false (trim (toLowerCase name)).

(** What [getCachedEvent] returns: [null], an event, or, when the key
    names a member of [Object.prototype], an object whose only property is
    [date] (the spread of such a member has no property, and
    [new Date(undefined)] is the Invalid Date). *)
Inductive CacheLookup :=
| NotCached
| Cached (e : HistoricalEvent)
| DateOnly (d : Date).

Definition getCachedEvent (item : StoredItem) (eventName : string) : CacheLookup :=
  let cache := getCache item in
  let key := normalizeEventName eventName in
  match getProp (events cache) key with
  | Undefined => NotCached
  | Inherited => DateOnly InvalidDate
  | Own cached =>
      Cached {| title := cachedTitle cached;
                date := dateOfString (cachedDate cached);
                year := cachedYear cached;
                month := cachedMonth cached;
                day := cachedDay cached;
                wikipediaUrl := cachedWikipediaUrl cached;
                description := cachedDescription cached |}
  end.

(** [cacheEvent] returns the item that [localStorage] holds afterwards;
    [now] is what [Date.now()] returned.  [toISOString] throws for an
    invalid date, before anything is written. *)
Definition cacheEvent (item : StoredItem) (eventName : string)
    (event : HistoricalEvent) (now : Z) : completion StoredItem :=
  let cache := getCache item in
  let key := normalizeEventName eventName in
  cbind (toISOString (date event)) (fun iso =>
    let entry :=
      {| cachedTitle := title event; cachedDate := iso;
         cachedYear := year event; cachedMonth := month event;
         cachedDay := day event;
         cachedWikipediaUrl := wikipediaUrl event;
         cachedDescription := description event;
         cachedAt := now |} in
    Normal (saveCache {| version := version cache;
                         events := setProp key entry (events cache) |})).

Definition getCacheStats (item : StoredItem) : Z * Z :=
  (arr_length (objectKeys (events (getCache item))), MAX_CACHE_SIZE).

(** ** Regular expressions *)

(** The fragment of JavaScript regular expressions that the classifier
    uses, matched by backtracking in the order of ECMAScript: the left
    alternative first, a greedy quantifier first with as many iterations
    as possible, a lazy one first with as few.  Letters are compared
    without regard to case (the [i] flag, which every pattern with a
    letter carries). *)
Inductive regex :=
| Eps
| Chr (c : ascii)
| Class (p : ascii -> bool)
| Seq (r1 r2 : regex)
| Alt (r1 r2 : regex)
| Star (greedy : bool) (r : regex)
| Group (i : nat) (r : regex)      (* the i-th capturing parentheses *)
| Bol                              (* ^ *)
| Eol                              (* $ *)
| WordBoundary.                    (* \b *)

(** A position in the subject: the character before it, the text after
    it, and the captures made so far. *)
Record mstate := {
  before : option ascii;
  rest : string;
  captures : list (nat * string)
}.

Definition isWordChar (c : ascii) : bool :=
  let n := N_of_ascii c in
  (((48 <=? n) && (n <=? 57)) || ((65 <=? n) && (n <=? 90))
   || ((97 <=? n) && (n <=? 122)) || (n =? 95))%N.

Definition atWordBoundary (s : mstate) : bool :=
  let a := match before s with Some c => isWordChar c | None => false end in
  let b := match rest s with String c _ => isWordChar c | EmptyString => false end in
  xorb a b.

(** One character is consumed if it satisfies [p]. *)
Definition step (p : ascii -> bool) (k : mstate -> option (list (nat * string)))
    (s : mstate) : option (list (nat * string)) :=
  match rest s with
  | String c t =>
      if p c then k {| before := Some c; rest := t; captures := captures s |}
      else None
  | EmptyString => None
  end.

Definition orElse {A} (x : option A) (y : unit -> option A) : option A :=
  match x with
  | Some a => Some a
  | None => y tt
  end.

(** [rmatch r k s]: match [r] at [s] and continue with [k]; the first
    success in backtracking order.  An iteration of a star that consumes
    nothing is not taken, so a star at a position with n characters left
    iterates at most n times. *)
Fixpoint rmatch (r : regex) (k : mstate -> option (list (nat * string)))
    (s : mstate) {struct r} : option (list (nat * string)) :=
  match r with
  | Eps => k s
  | Chr c => step (fun c' => Ascii.eqb (lower_char c') (lower_char c)) k s
  | Class p => step p k s
  | Seq r1 r2 => rmatch r1 (rmatch r2 k) s
  | Alt r1 r2 => orElse (rmatch r1 k s) (fun _ => rmatch r2 k s)
  | Star greedy r1 =>
      (fix iterate (fuel : nat) (s : mstate) {struct fuel}
         : option (list (nat * string)) :=
         match fuel with
         | O => k s
         | S fuel' =>
             let again (_ : unit) :=
               rmatch r1
                 (fun s' =>
                    if (String.length (rest s') <? String.length (rest s))%nat
                    then iterate fuel' s' else None)
                 s in
             if greedy then orElse (again tt) (fun _ => k s)
             else orElse (k s) again
         end) (String.length (rest s)) s
  | Group i r1 =>
      rmatch r1
        (fun s' =>
           let matched :=
             String.substring 0
               (String.length (rest s) - String.length (rest s')) (rest s) in
           k {| before := before s'; rest := rest s';
                captures := (i, matched) :: captures s' |})
        s
  | Bol => match before s with None => k s | Some _ => None end
  | Eol => match rest s with EmptyString => k s | String _ _ => None end
  | WordBoundary => if atWordBoundary s then k s else None
  end.

(** The leftmost match: the positions of the subject are tried in turn. *)
Fixpoint searchFrom (r : regex) (prev : option ascii) (text : string)
  : option (list (nat * string)) :=
  orElse (rmatch r (fun s => Some (captures s))
            {| before := prev; rest := text; captures := [] |})
         (fun _ => match text with
                   | EmptyString => None
                   | String c text' => searchFrom r (Some c) text'
                   end).

(** [text.match(r)] for a pattern without the [g] flag: the captures of
    the leftmost match, or [None] for [null]. *)
Definition regexMatch (r : regex) (text : string) : option (list (nat * string)) :=
  searchFrom r None text.

(** [r.test(text)] *)
Definition regexTest (r : regex) (text : string) : bool :=
  bool_decide (is_Some (regexMatch r text)).

(** [m[i]] of a match, the latest capture of the group; the groups read by
    the classifier take part in every match of their pattern. *)
Fixpoint capture (i : nat) (m : list (nat * string)) : string :=
  match m with
  | [] => ""
  | (j, s) :: m' => if (j =? i)%nat then s else capture i m'
  end.

(** *** Pattern syntax *)

Fixpoint Lit (s : string) : regex :=
  match s with
  | EmptyString => Eps
  | String c EmptyString => Chr c
  | String c s' => Seq (Chr c) (Lit s')
  end.

Fixpoint seq (rs : list regex) : regex :=
  match rs with
  | [] => Eps
  | [r] => r
  | r :: rs' => Seq r (seq rs')
  end.

Fixpoint alt (rs : list regex) : regex :=
  match rs with
  | [] => Class (fun _ => false)
  | [r] => r
  | r :: rs' => Alt r (alt rs')
  end.

(** [a|b|c] over literal words *)
Definition words (ws : list string) : regex := alt (map Lit ws).

Definition Opt (r : regex) : regex := Alt r Eps.          (* r? *)
Definition Plus (r : regex) : regex := Seq r (Star true r). (* r+ *)
Definition Many (r : regex) : regex := Star true r.        (* r* *)
Definition Lazy (r : regex) : regex := Star false r.       (* r*? *)

Definition D : regex := Class isDigit.                     (* \d *)
Definition WS : regex := Class isWhiteSpace.               (* \s *)
Definition B : regex := WordBoundary.                      (* \b *)

(** [.]: any character but a line terminator (LF or CR; the two Unicode
    line separators are not told apart from other characters) *)
Definition Dot : regex :=
  Class (fun c => negb (Ascii.eqb c "010" || Ascii.eqb c "013")).

Definition D12 : regex := Seq D (Opt D).                   (* \d{1,2} *)
Definition D34 : regex := seq [D; D; D; Opt D].            (* \d{3,4} *)
Definition D4 : regex := seq [D; D; D; D].                 (* \d{4} *)

(** [[-–]]: a hyphen or an en dash (the three bytes of its UTF-8 form) *)
Definition DASH : regex := Alt (Chr "-") (Lit "–").

Definition MONTH : regex :=
  words [ "January"; "February"; "March"; "April"; "May"; "June"; "July";
          "August"; "September"; "October"; "November"; "December" ].

(** [parseInt] of a captured run of digits *)
Definition parseInt (s : string) : Z := default 0 (numberOfDigits s).

(** ** services/wikipedia.ts *)

Record WikipediaSearchResult := {
  resultTitle : string;
  pageid : Z;
  snippet : string
}.

(** The first page of the answer to a page query: [extract], [categories]
    (their titles) and [fullurl] may be absent. *)
Record WikipediaPage := {
  pageTitle : string;
  missing : bool;
  extract : option string;
  categories : option (list string);
  fullurl : option string
}.

(** A request sent to the Wikipedia API. *)
Inductive Request :=
| SearchRequest (srsearch : string) (srlimit : Z)
| PageRequest (titles : string).

(** The world outside the classifier: the requests sent so far, and the
    item of [localStorage] that holds the result cache. *)
Record World := {
  requests : list Request;
  localStorage : StoredItem
}.

Definition M (A : Type) : Type := World -> A * World.
Definition ret {A} (a : A) : M A := fun w => (a, w).
Definition bind {A B} (c : M A) (k : A -> M B) : M B :=
  fun w => let '(a, w') := c w in k a w'.
Notation "x <- c ;; k" := (bind c (fun x => k))
  (at level 100, c at next level, right associativity).

Definition send (r : Request) : M unit :=
  fun w => (tt, {| requests := requests w ++ [r];
                   localStorage := localStorage w |}).

Definition isTimePeriodOrMetaPage (title : string) : bool :=
  regexTest (seq [Bol; Group 1 (words ["List of"; "Timeline of"; "Category:"; "Index of"])]) title
  || regexTest (seq [Bol; Plus D; Group 1 (words ["st"; "nd"; "rd"; "th"]); Lit " century"; Eol]) title
  || regexTest (seq [Bol; D4; Opt (Chr "s"); Eol]) title
  || regexTest (seq [Bol; Plus D; Group 1 (words ["st"; "nd"; "rd"; "th"]); Lit " millennium"; Eol]) title
  || regexTest (seq [Bol; Group 1 MONTH; Chr " "; D4; Eol]) title
  || regexTest (seq [Bol; Group 1 MONTH; Chr " "; D12; Eol]) title
  || regexTest (seq [Bol; D4; Eol]) title
  || regexTest (seq [Bol; Lit "AD "; Plus D; Eol]) title
  || regexTest (seq [Bol; Lit "BC "; Plus D; Eol]) title.

(** [months[monthName.toLowerCase()] || 0] *)
Definition getMonthNumber (monthName : string) : Z :=
  let table : list (string * Z) :=
    [ ("january", 0); ("february", 1); ("march", 2); ("april", 3);
      ("may", 4); ("june", 5); ("july", 6); ("august", 7);
      ("september", 8); ("october", 9); ("november", 10); ("december", 11) ] in
  default 0 (ownProperty table (toLowerCase monthName)).

(** [!text]: the text is absent or empty. *)
Definition presentText (text : option string) : option string :=
  match text with
  | Some EmptyString => None
  | t => t
  end.

Definition biographicalPhrase : regex :=
  seq [B; Group 1 (words ["was"; "is"]); Lit " a ";
       Group 2 (words ["person"; "politician"; "writer"; "author"; "artist";
                       "musician"; "actor"; "scientist"; "philosopher";
                       "composer"; "director"; "inventor"; "explorer";
                       "emperor"; "king"; "queen"; "president"; "general"]);
       B].

(** The [isBiographical] test of [extractBiographicalDate]. *)
Definition isBiographical (text : string) : bool :=
  let lowerText := toLowerCase text in
  regexTest biographicalPhrase lowerText
  || regexTest (seq [B; Group 1 (words ["was born"; "born in"; "born on"]); B]) lowerText
  || regexTest (seq [B; Group 1 (words ["died"; "death"]); B]) lowerText.

Definition birthPattern1 : regex :=
  seq [B; Opt (Lit "was "); Lit "born"; Plus WS; Opt (seq [Lit "on"; Plus WS]);
       Group 1 D12; Plus WS; Group 2 MONTH; Plus WS; Group 3 D34; B].
Definition birthPattern2 : regex :=
  seq [B; Opt (Lit "was "); Lit "born"; Plus WS; Opt (seq [Lit "on"; Plus WS]);
       Group 1 MONTH; Plus WS; Group 2 D12; Opt (Chr ","); Plus WS; Group 3 D34; B].
Definition deathPattern1 : regex :=
  seq [B; words ["died"; "death"]; Plus WS; Opt (seq [Lit "on"; Plus WS]);
       Group 1 D12; Plus WS; Group 2 MONTH; Plus WS; Group 3 D34; B].
Definition deathPattern2 : regex :=
  seq [B; words ["died"; "death"]; Plus WS; Opt (seq [Lit "on"; Plus WS]);
       Group 1 MONTH; Plus WS; Group 2 D12; Opt (Chr ","); Plus WS; Group 3 D34; B].

Definition timePeriodsAndOverviews : list regex :=
  [ seq [B; Lit "is a "; Group 1 (words ["decade"; "century"; "millennium"; "era"; "period"; "age"]); B];
    seq [B; Lit "this article is about the "; Group 1 (words ["decade"; "century"; "year"]); B];
    seq [B; Lit "following ";
         Group 1 (alt [seq [Lit "decade"; Opt (Chr "s")]; Lit "centuries";
                       seq [Lit "year"; Opt (Chr "s")]]);
         Chr " "; Group 2 (words ["are"; "were"]); B];
    seq [B; Lit "year"; Opt (Chr "s"); Lit " in the "; Plus D;
         Group 1 (words ["st"; "nd"; "rd"; "th"]); Lit " century"; B];
    seq [B; Lit "events in the year "; D4; B] ].

Definition excludePatterns : list regex :=
  [ seq [B; Lit "is a "; Group 1 (words ["country"; "city"; "town"; "village"; "state"; "province"; "region"; "continent"]); B];
    seq [B; Lit "is a "; Group 1 (words ["language"; "religion"; "ideology"; "philosophy"; "theory"]); B];
    seq [B; Lit "is a "; Group 1 (words ["turboprop"; "engine"; "aircraft"; "airplane"; "helicopter"; "ship"; "boat"; "vessel"; "vehicle"; "car"; "automobile"; "tank"; "submarine"]); B];
    seq [B; Lit "is "; Group 1 (words ["a"; "an"]); Chr " ";
         Group 2 (words ["family"; "series"; "line"]); Lit " of ";
         Group 3 (alt [Lit "aircraft"; seq [Lit "engine"; Opt (Chr "s")];
                       seq [Lit "vehicle"; Opt (Chr "s")];
                       seq [Lit "product"; Opt (Chr "s")]]);
         B];
    seq [B; Group 1 (words ["developed"; "manufactured"; "produced"]); Lit " by"; B];
    seq [B; Lit "is a "; Group 1 (words ["software"; "hardware"; "device"; "product"; "brand"; "model"; "prototype"]); B];
    seq [B; Lit "is a "; Group 1 (words ["computer"; "processor"; "chip"; "component"]); B];
    seq [B; Lit "is a list of"; B];
    seq [B; Lit "list of"; B];
    seq [B; Lit "timeline of"; B];
    seq [B; Lit "category:"] ].

Definition excludeCategories : list string := ["countries"; "cities"].

Definition eventPatterns : list regex :=
  [ seq [B; Group 1 (words ["battle"; "war"; "conflict"; "siege"; "invasion"; "conquest"]); B];
    seq [B; Group 1 (words ["treaty"; "agreement"; "pact"; "accord"; "convention"]); B];
    seq [B; Group 1 (words ["revolution"; "uprising"; "rebellion"; "revolt"]); B];
    seq [B; Group 1 (words ["assassination"; "murder"; "execution"]); B];
    seq [B; Group 1 (words ["disaster"; "earthquake"; "flood"; "fire"; "explosion"]); B];
    seq [B; Group 1 (words ["discovery"; "invention"; "founded"; "established"]); B];
    seq [B; Group 1 (words ["occurred"; "took place"; "happened"]); B];
    seq [B; Lit "was a "; Group 1 (words ["military"; "major"; "significant"; "historical"]);
         Chr " "; Group 2 (words ["event"; "operation"; "campaign"]); B];
    seq [B; Group 1 (words ["coronation"; "abdication"; "election"]); B];
    seq [B; Group 1 (words ["declaration"; "proclamation"; "announcement"]); B];
    seq [B; Group 1 (words ["released"; "published"; "premiered"; "launched"]); B];
    seq [B; Lit "is a "; Group 1 D4; Chr " ";
         Group 2 (words ["book"; "novel"; "film"; "movie"; "album"; "video game"]); B];
    seq [B; Lit "was released "; Group 1 (words ["in"; "on"]); B];
    seq [B; Lit "was published "; Group 1 (words ["in"; "on"]); B] ].

Definition isHistoricalEvent (text : option string) (categories : option (list string))
  : bool :=
  match presentText text with
  | None => false
  | Some text =>
      let lowerText := toLowerCase text in
      if existsb (fun pattern => regexTest pattern lowerText) timePeriodsAndOverviews
      then false
      else if existsb (fun pattern => regexTest pattern lowerText) excludePatterns
      then false
      else
        let catTitles := map toLowerCase (default [] categories) in
        if existsb (fun excludeCat =>
                      existsb (fun cat => includes cat excludeCat) catTitles)
                   excludeCategories
        then false
        else existsb (fun pattern => regexTest pattern lowerText) eventPatterns
  end.

Definition RELEASED : regex :=
  words ["released"; "published"; "premiered"; "launched"].

Definition monthRangePattern : regex :=
  seq [B; Group 1 MONTH; Plus WS; Group 2 D12; Many WS; DASH; Many WS;
       Group 3 D12; Opt (Chr ","); Plus WS; Group 4 D34; B].
Definition dayRangePattern : regex :=
  seq [B; Group 1 D12; Many WS; DASH; Many WS; Group 2 D12; Plus WS;
       Group 3 MONTH; Plus WS; Group 4 D34; B].
Definition crossMonthRangePattern : regex :=
  seq [B; Group 1 MONTH; Plus WS; Group 2 D12; Plus WS;
       Alt (Lit "to") DASH; Plus WS;
       Group 3 MONTH; Plus WS; Group 4 D12; Opt (Chr ","); Plus WS;
       Group 5 D34; B].
Definition releaseDateRangePattern1 : regex :=
  seq [B; Group 1 RELEASED; Lazy Dot; B; words ["from"; "on"]; Plus WS;
       Group 2 MONTH; Plus WS; Group 3 D12; Many WS; DASH; Many WS;
       Group 4 D12; Opt (Chr ","); Plus WS; Group 5 D4; B].
Definition releaseDateRangePattern2 : regex :=
  seq [B; Group 1 RELEASED; Lazy Dot; B; words ["from"; "on"]; Plus WS;
       Group 2 D12; Many WS; DASH; Many WS; Group 3 D12; Plus WS;
       Group 4 MONTH; Plus WS; Group 5 D4; B].
Definition releaseDatePattern : regex :=
  seq [B; Group 1 RELEASED; Lazy Dot; B; Group 2 (words ["in"; "on"]); Plus WS;
       Group 3 MONTH; Plus WS; Group 4 D12; Opt (Chr ","); Plus WS;
       Group 5 D4; B].
Definition pattern1 : regex :=
  seq [B; Group 1 MONTH; Plus WS; Group 2 D12; Opt (Chr ","); Plus WS;
       Group 3 D34; B].
Definition pattern2 : regex :=
  seq [B; Group 1 D12; Plus WS; Group 2 MONTH; Plus WS; Group 3 D34; B].
Definition yearRangePattern : regex :=
  seq [B; Group 1 D4; Many WS; DASH; Many WS; Group 2 D4; B].
Definition yearContextPattern : regex :=
  seq [B; Group 1 (words ["began"; "started"; "commenced"; "fought"; "took place"; "occurred"]);
       Lazy Dot; Group 2 D4; B].

Record DateInfo := {
  di_date : Date;
  di_year : Z;
  di_month : Z;
  di_day : Z;
  titlePrefix : option string
}.

(** The patterns of [extractDateFromText] that yield a complete date, in
    the order in which they are tried: the pattern, the groups that hold
    the year, the month and the day, and the title prefix. *)
Definition completeDatePatterns : list (regex * (nat * nat * nat) * option string) :=
  [ (monthRangePattern, (4, 1, 2)%nat, Some "Start of");
    (dayRangePattern, (4, 3, 1)%nat, Some "Start of");
    (crossMonthRangePattern, (5, 1, 2)%nat, Some "Start of");
    (releaseDateRangePattern1, (5, 2, 3)%nat, Some "Start of");
    (releaseDateRangePattern2, (5, 4, 2)%nat, Some "Start of");
    (releaseDatePattern, (5, 3, 4)%nat, None);
    (pattern1, (3, 1, 2)%nat, None);
    (pattern2, (3, 2, 1)%nat, None) ].


Section Classifier.

Variable LocalTZA : Z.

Definition isValidCompleteDate (year month day : Z) : bool :=
  if (year <? 1) || (year >? 2100) then false
  else if (month <? 0) || (month >? 11) then false
  else if (day <? 1) || (day >? 31) then false
  else
    let testDate := newDate LocalTZA year month day in
    if negb (bool_decide (getMonth LocalTZA testDate = Some month))
       || negb (bool_decide (getDate LocalTZA testDate = Some day))
    then false
    else true.

(** The event that a matched birth or death pattern yields; [None] when
    the date is not valid. *)
Definition lifeEvent (prefix personName text : string) (year month day : Z)
  : option HistoricalEvent :=
  if negb (isValidCompleteDate year month day) then None
  else Some {| title := prefix +:+ personName;
               date := newDate LocalTZA year month day;
               year := year; month := month; day := day;
               wikipediaUrl := Some "";
               description := Some text |}.

Definition extractBiographicalDate (text : option string) (personName : string)
  : option HistoricalEvent :=
  match presentText text with
  | None => None
  | Some text =>
      if negb (isBiographical text) then None
      else
        match regexMatch birthPattern1 text with
        | Some birthMatch1 =>
            lifeEvent "Birth of " personName text
              (parseInt (capture 3 birthMatch1))
              (getMonthNumber (capture 2 birthMatch1))
              (parseInt (capture 1 birthMatch1))
        | None =>
        match regexMatch birthPattern2 text with
        | Some birthMatch2 =>
            lifeEvent "Birth of " personName text
              (parseInt (capture 3 birthMatch2))
              (getMonthNumber (capture 1 birthMatch2))
              (parseInt (capture 2 birthMatch2))
        | None =>
        match regexMatch deathPattern1 text with
        | Some deathMatch1 =>
            lifeEvent "Death of " personName text
              (parseInt (capture 3 deathMatch1))
              (getMonthNumber (capture 2 deathMatch1))
              (parseInt (capture 1 deathMatch1))
        | None =>
        match regexMatch deathPattern2 text with
        | Some deathMatch2 =>
            lifeEvent "Death of " personName text
              (parseInt (capture 3 deathMatch2))
              (getMonthNumber (capture 1 deathMatch2))
              (parseInt (capture 2 deathMatch2))
        | None => None
        end end end end
  end.

(** The two fallbacks on a bare year: January 1 of the year when it lies
    in 1..2100. *)
Definition yearOnly (prefix : option string) (year : Z) : option DateInfo :=
  if (1 <=? year) && (year <=? 2100) then
    Some {| di_date := newDate LocalTZA year 0 1;
            di_year := year; di_month := 0; di_day := 1;
            titlePrefix := prefix |}
  else None.

Definition yearFallbacks (text : string) : option DateInfo :=
  let contextFallback :=
    match regexMatch yearContextPattern text with
    | Some yearContextMatch => yearOnly None (parseInt (capture 2 yearContextMatch))
    | None => None
    end in
  match regexMatch yearRangePattern text with
  | Some yearRangeMatch =>
      match yearOnly (Some "Start of") (parseInt (capture 1 yearRangeMatch)) with
      | Some info => Some info
      | None => contextFallback
      end
  | None => contextFallback
  end.

(** The first pattern that matches decides: its date when valid, [null]
    when not; the year fallbacks when no pattern matches. *)
Fixpoint firstCompleteDate
    (patterns : list (regex * (nat * nat * nat) * option string))
    (text : string) : option DateInfo :=
  match patterns with
  | [] => yearFallbacks text
  | (pattern, (gy, gm, gd), prefix) :: others =>
      match regexMatch pattern text with
      | Some m =>
          let month := getMonthNumber (capture gm m) in
          let day := parseInt (capture gd m) in
          let year := parseInt (capture gy m) in
          if negb (isValidCompleteDate year month day) then None
          else Some {| di_date := newDate LocalTZA year month day;
                       di_year := year; di_month := month; di_day := day;
                       titlePrefix := prefix |}
      | None => firstCompleteDate others text
      end
  end.

Definition extractDateFromText (text : option string) : option DateInfo :=
  match presentText text with
  | None => None
  | Some text => firstCompleteDate completeDatePatterns text
  end.

(** The generic path of [getEventDetails]: the event gate, then the date
    extraction. *)
Definition genericEvent (page : WikipediaPage) : option HistoricalEvent :=
  if negb (isHistoricalEvent (extract page) (categories page)) then None
  else
    match extractDateFromText (extract page) with
    | None => None
    | Some dateInfo =>
        let eventTitle :=
          match titlePrefix dateInfo with
          | Some prefix => prefix +:+ " " +:+ pageTitle page
          | None => pageTitle page
          end in
        Some {| title := eventTitle;
                date := di_date dateInfo;
                year := di_year dateInfo;
                month := di_month dateInfo;
                day := di_day dateInfo;
                wikipediaUrl := fullurl page;
                description := extract page |}
    end.

(** [getEventDetails] from the answer to its request on: [None] when
    there is no page or the page is missing, the biographical event when
    there is one, and otherwise the generic path. *)
Definition eventOfPage (page : option WikipediaPage) : option HistoricalEvent :=
  match page with
  | None => None
  | Some page =>
      if missing page then None
      else
        match extractBiographicalDate (extract page) (pageTitle page) with
        | Some biographicalInfo => Some biographicalInfo
        | None => genericEvent page
        end
  end.

(** The Wikipedia API: the answer to a search ([None] when the request
    fails, and the code goes on with the empty list), and the first page
    of the answer to a page query ([None] when the request fails,
    [Some None] when the answer holds no page).  An answer to a search
    that holds a [query] without a result list, for which the code returns
    [undefined], is not embedded. *)
Variable wikipediaSearch : string -> Z -> option (list WikipediaSearchResult).
Variable wikipediaPages : string -> option (option WikipediaPage).

Definition searchWikipediaEvents (query : string) (limit : Z)
  : M (list WikipediaSearchResult) :=
  _ <- send (SearchRequest query limit) ;;
  ret (default [] (wikipediaSearch query limit)).

Definition getEventDetails (pageTitle : string) : M (option HistoricalEvent) :=
  if isTimePeriodOrMetaPage pageTitle then ret None
  else
    _ <- send (PageRequest pageTitle) ;;
    match wikipediaPages pageTitle with
    | None => ret None
    | Some page => ret (eventOfPage page)
    end.

(** The loop of [validateEvent] over the search results. *)
Fixpoint firstDetails (results : list WikipediaSearchResult)
  : M (option HistoricalEvent) :=
  match results with
  | [] => ret None
  | result :: others =>
      if isTimePeriodOrMetaPage (resultTitle result) then firstDetails others
      else
        details <- getEventDetails (resultTitle result) ;;
        match details with
        | Some details => ret (Some details)
        | None => firstDetails others
        end
  end.

Definition validateEvent (eventName : string) : M (option HistoricalEvent) :=
  results <- searchWikipediaEvents eventName 10 ;;
  if arr_length results =? 0 then ret None
  else firstDetails results.

End Classifier.

(** A computation that only sends requests: its result and the requests
    it adds do not depend on the world, and it leaves [localStorage]
    alone. *)
Definition onlySends {A} (c : M A) (a : A) (sent : list Request) : Prop :=
  forall w, c w = (a, {| requests := requests w ++ sent;
                         localStorage := localStorage w |}).

Definition searchRequests (rs : list Request) : list Request :=
  List.filter (fun r => match r with SearchRequest _ _ => true | _ => false end) rs.

(** [{ ...event, date }] with the date read back from its ISO text: what a
    cached event looks like after the round trip through the cache. *)
Definition withDateOfString (event : HistoricalEvent) (iso : string) : HistoricalEvent :=
  {| title := title event; date := dateOfString iso;
     year := year event; month := month event; day := day event;
     wikipediaUrl := wikipediaUrl event; description := description event |}.

(** ** Sample data *)

Definition event_in (y : Z) : HistoricalEvent :=
  {| title := "e"; date := InvalidDate; year := y; month := 0; day := 1;
     wikipediaUrl := None; description := None |}.

Definition alice : Player :=
  {| id := "p-alice"; name := "Alice"; isAlive := true; isHost := Some true |}.
Definition bob : Player :=
  {| id := "p-bob"; name := "Bob"; isAlive := true; isHost := None |}.

Definition named_event (t : string) (y : Z) : HistoricalEvent :=
  {| title := t; date := InvalidDate; year := y; month := 0; day := 1;
     wikipediaUrl := None; description := None |}.

(** The state [createGame] builds for a host, with a second player joined. *)
Definition lobby_state : GameState :=
  {| gameId := "ABC123"; phase := lobby; players := [alice; bob];
     currentPlayerIndex := 0; eventChain := [];
     settings := DEFAULT_SETTINGS;
     currentBuffer :=
       calculateBuffer ((startingCentury DEFAULT_SETTINGS - 1) * 100)
                       (bufferRules DEFAULT_SETTINGS);
     lastCheckedEventIndex := -1 |}.

(** After [startGame] with a seed event of 1150. *)
Definition started_state : option GameState :=
  startGame (Some lobby_state) None (Some (named_event "Siege of Lisbon" 1150)) 1000.

(** Scenario A: Alice submits a fact of 1170. *)
Definition after_alice_1170 : completion (SubmitResult * option GameState) :=
  submitEvent started_state (named_event "Founding of Leipzig" 1170) 2000.

(** Scenario B: Alice submits a fact of 1400. *)
Definition after_alice_1400 : completion (SubmitResult * option GameState) :=
  submitEvent started_state (named_event "Battle of Homildon Hill" 1400) 2000.

Definition state_of {A} (c : completion (A * option GameState)) : option GameState :=
  match c with
  | Normal (_, st) => st
  | Throw => None
  end.

(** A state whose only rule carries a negative tolerance, with the seed
    entry as the last entry and the anchor. *)
Definition negative_tolerance_state : GameState :=
  {| gameId := "ABC123"; phase := playing; players := [alice; bob];
     currentPlayerIndex := 0;
     eventChain :=
       [ {| playerId := "system"; playerName := "Game";
            event := named_event "Siege of Lisbon" 1150;
            wasChecked := true; wasCorrect := Some true; timestamp := 1000 |} ];
     settings :=
       {| startingCentury := 12;
          bufferRules := [ {| fromYear := 0; toYear := 9999; bufferYears := -1 |} ];
          maxPlayers := 8; requireDayPrecision := false |};
     currentBuffer := -1;
     lastCheckedEventIndex := 0 |}.


Definition hastings : HistoricalEvent :=
  {| title := "Battle of Hastings";
     date := newDate 0 1066 9 14;
     year := 1066; month := 9; day := 14;
     wikipediaUrl := Some "https://en.wikipedia.org/wiki/Battle_of_Hastings";
     description := None |}.

(** A Wikipedia that answers every search with the pages "1066",
    "Harold Godwinson" and "Battle of Hastings". *)
Definition sampleSearch (query : string) (limit : Z)
  : option (list WikipediaSearchResult) :=
  Some [ {| resultTitle := "1066"; pageid := 34638; snippet := "" |};
         {| resultTitle := "Battle of Hastings"; pageid := 4407; snippet := "" |};
         {| resultTitle := "Harold Godwinson"; pageid := 13908; snippet := "" |} ].

Definition harold_text : string :=
  "Harold Godwinson was a king of England. He died at the Battle of Hastings, which was fought in 1066.".

Definition harold_page : WikipediaPage :=
  {| pageTitle := "Harold Godwinson"; missing := false;
     extract := Some harold_text;
     categories := None;
     fullurl := Some "https://en.wikipedia.org/wiki/Harold_Godwinson" |}.

Definition hastings_text : string :=
  "The Battle of Hastings was fought on 14 October 1066 between the Norman-French army of William and an English army.".

Definition hastings_page : WikipediaPage :=
  {| pageTitle := "Battle of Hastings"; missing := false;
     extract := Some hastings_text;
     categories := Some ["Category:Battles involving England"];
     fullurl := Some "https://en.wikipedia.org/wiki/Battle_of_Hastings" |}.

Definition samplePages (titles : string) : option (option WikipediaPage) :=
  if bool_decide (titles = "Harold Godwinson") then Some (Some harold_page)
  else if bool_decide (titles = "Battle of Hastings") then Some (Some hastings_page)
  else Some None.

Definition hastings_classified : HistoricalEvent :=
  {| title := "Battle of Hastings";
     date := newDate 0 1066 9 14;
     year := 1066; month := 9; day := 14;
     wikipediaUrl := Some "https://en.wikipedia.org/wiki/Battle_of_Hastings";
     description := Some hastings_text |}.

Definition harold_classified : HistoricalEvent :=
  {| title := "Harold Godwinson";
     date := newDate 0 1066 0 1;
     year := 1066; month := 0; day := 1;
     wikipediaUrl := Some "https://en.wikipedia.org/wiki/Harold_Godwinson";
     description := Some harold_text |}.

Definition fresh_world : World :=
  {| requests := []; localStorage := ItemAbsent |}.

(** The page of an event whose text also mentions a death. *)
Definition hastings_death_page : WikipediaPage :=
  {| pageTitle := "Battle of Hastings"; missing := false;
     extract := Some "The Battle of Hastings was fought on 14 October 1066. Harold's death led to the retreat of his army.";
     categories := None; fullurl := None |}.

(** * The rest of the engine *)

(** ** utils/gameLogic.ts, continued *)

(** [players[nextIndex]?.id || null]: an empty id is falsy. *)
Definition idOrNull (p : option Player) : option string :=
  match p with
  | Some p => if bool_decide (id p = "") then None else Some (id p)
  | None => None
  end.

(** [getNextPlayer]: [null] when at most one player is alive; the loop is
    the one of [getNextPlayerIndex]. *)
Definition getNextPlayer (gameState : GameState) : completion (option string) :=
  let ps := players gameState in
  if arr_length (alivePlayers ps) <=? 1 then Normal None
  else
    cbind (nextAliveFrom ps (length ps)
             (Z.rem (currentPlayerIndex gameState + 1) (arr_length ps)))
          (fun nextIndex => Normal (idOrNull (arr_get ps nextIndex))).

(** ** context/GameContext.tsx, continued *)

(** [createGame]: [gameId] is the code passed in, if any and not empty,
    or else [generated], what [generateGameId()] returned; [hostId] is what
    [generatePlayerId()] returned. *)
Definition createGame (hostName : string) (gameId : option string)
    (generated hostId : string) : option GameState :=
  let newGameId :=
    match gameId with
    | Some g => if bool_decide (g = "") then generated else g
    | None => generated
    end in
  let hostPlayer :=
    {| id := hostId; name := hostName; isAlive := true; isHost := Some true |} in
  Some {| gameId := newGameId;
          phase := lobby;
          players := [hostPlayer];
          currentPlayerIndex := 0;
          eventChain := [];
          settings := DEFAULT_SETTINGS;
          currentBuffer :=
            calculateBuffer ((startingCentury DEFAULT_SETTINGS - 1) * 100)
                            (bufferRules DEFAULT_SETTINGS);
          lastCheckedEventIndex := -1 |}.

Definition joinGame (gameState : option GameState) (playerName newId : string)
  : option GameState :=
  match gameState with
  | None => None
  | Some gs =>
      let newPlayer :=
        {| id := newId; name := playerName; isAlive := true; isHost := None |} in
      Some (withPlayers gs (players gs ++ [newPlayer]))
  end.

Definition setPlayers (gameState : option GameState) (ps : list Player)
  : option GameState :=
  match gameState with
  | None => None
  | Some gs => Some (withPlayers gs ps)
  end.

(** A [Partial<GameSettings>]: the fields that are given. *)
Record PartialSettings := {
  newStartingCentury : option Z;
  newBufferRules : option (list BufferRule);
  newMaxPlayers : option Z;
  newRequireDayPrecision : option bool
}.

(** [{ ...gameState.settings, ...settings }] *)
Definition mergeSettings (old : GameSettings) (new : PartialSettings) : GameSettings :=
  {| startingCentury := default (startingCentury old) (newStartingCentury new);
     bufferRules := default (bufferRules old) (newBufferRules new);
     maxPlayers := default (maxPlayers old) (newMaxPlayers new);
     requireDayPrecision :=
       default (requireDayPrecision old) (newRequireDayPrecision new) |}.

Definition updateSettings (gameState : option GameState) (new : PartialSettings)
  : option GameState :=
  match gameState with
  | None => None
  | Some gs =>
      Some {| gameId := gameId gs; phase := phase gs; players := players gs;
              currentPlayerIndex := currentPlayerIndex gs;
              eventChain := eventChain gs;
              settings := mergeSettings (settings gs) new;
              currentBuffer := currentBuffer gs;
              lastCheckedEventIndex := lastCheckedEventIndex gs |}
  end.

Definition resetGame (gameState : option GameState) : option GameState := None.

(** The states that the operations of the context reach from [createGame],
    whatever the clock, the identifiers drawn and the events passed in. *)
Inductive engineReachable : GameState -> Prop :=
| er_create hostName gameId generated hostId gs :
    createGame hostName gameId generated hostId = Some gs ->
    engineReachable gs
| er_join gs playerName newId gs' :
    engineReachable gs ->
    joinGame (Some gs) playerName newId = Some gs' ->
    engineReachable gs'
| er_setPlayers gs ps gs' :
    engineReachable gs ->
    setPlayers (Some gs) ps = Some gs' ->
    engineReachable gs'
| er_settings gs new gs' :
    engineReachable gs ->
    updateSettings (Some gs) new = Some gs' ->
    engineReachable gs'
| er_start gs newPlayers startingEvent now gs' :
    engineReachable gs ->
    startGame (Some gs) newPlayers startingEvent now = Some gs' ->
    engineReachable gs'
| er_submit gs fact now r gs' :
    engineReachable gs ->
    submitEvent (Some gs) fact now = Normal (r, Some gs') ->
    engineReachable gs'
| er_challenge gs playerId gs' msg :
    engineReachable gs ->
    callBullshit (Some gs) playerId = Normal (Some gs', msg) ->
    engineReachable gs'.

(** The titles of a chain, in lower case. *)
Definition chainTitles (chain : list GameEvent) : list string :=
  map (fun e => toLowerCase (title (event e))) chain.

(** The players of the turn-skip scenario: the second and the third of
    four are eliminated. *)
Definition four_players : list Player :=
  [ {| id := "p1"; name := "Ann"; isAlive := true; isHost := Some true |};
    {| id := "p2"; name := "Ben"; isAlive := false; isHost := None |};
    {| id := "p3"; name := "Cat"; isAlive := false; isHost := None |};
    {| id := "p4"; name := "Dan"; isAlive := true; isHost := None |} ].

Definition four_player_state : GameState :=
  withPlayers (default lobby_state started_state) four_players.

(** The player at an index is there and alive. *)
Definition aliveAt (ps : list Player) (i : Z) : bool :=
  match arr_get ps i with
  | Some p => isAlive p
  | None => false
  end.

(** The anchor index is -1 with an empty chain, or names a chain entry. *)
Definition anchorInRange (gs : GameState) : Prop :=
  (eventChain gs = [] /\ lastCheckedEventIndex gs = -1) \/
  0 <= lastCheckedEventIndex gs < arr_length (eventChain gs).

(** A game of three: Alice submits 1170, Carol challenges and is out, Bob
    submits 1180. *)
Definition carol : Player :=
  {| id := "p-carol"; name := "Carol"; isAlive := true; isHost := None |}.

Definition three_started : option GameState :=
  startGame (Some lobby_state) (Some [alice; bob; carol])
            (Some (named_event "Siege of Lisbon" 1150)) 1000.

Definition three_after_alice : option GameState :=
  state_of (submitEvent three_started (named_event "Founding of Leipzig" 1170) 2000).

Definition three_after_challenge : option GameState :=
  match callBullshit three_after_alice "p-carol" with
  | Normal (st, _) => st
  | Throw => None
  end.

Definition three_after_bob : option GameState :=
  state_of (submitEvent three_after_challenge (named_event "Battle of Legnano" 1176) 3000).

(** ** The Gregorian calendar *)

Definition isLeapYear (y : Z) : bool :=
  (y mod 4 =? 0) && (negb (y mod 100 =? 0) || (y mod 400 =? 0)).

(** The number of days of a month, counted from 1. *)
Definition daysInMonth (y m : Z) : Z :=
  if m =? 2 then (if isLeapYear y then 29 else 28)
  else if (m =? 4) || (m =? 6) || (m =? 9) || (m =? 11) then 30
  else 31.

(** The year of the era (from March), the month and the day that
    [civil_from_days] computes from the day of a 400-year era. *)
Definition era_fields (doe : Z) : Z * Z * Z :=
  let yoe := (doe - doe / 1460 + doe / 36524 - doe / 146096) / 365 in
  let doy := doe - (365 * yoe + yoe / 4 - yoe / 100) in
  let mp := (5 * doy + 2) / 153 in
  let d := doy - (153 * mp + 2) / 5 + 1 in
  let m := if mp <? 10 then mp + 3 else mp - 9 in
  (yoe, m, d).

(** The day of the era that [days_from_civil] computes. *)
Definition day_of_era (yoe m d : Z) : Z :=
  let mp := if m >? 2 then m - 3 else m + 9 in
  yoe * 365 + yoe / 4 - yoe / 100 + ((153 * mp + 2) / 5 + d - 1).

(** [P] holds of 0, 1, ..., n-1. *)
Definition checkStep (P : Z -> bool) (st : Z * bool) : Z * bool :=
  (fst st + 1, snd st && P (fst st)).

Definition checkBelow (P : Z -> bool) (n : positive) : bool :=
  snd (Pos.iter (checkStep P) (0, true) n).

Definition eraDayOk (doe : Z) : bool :=
  let '(yoe, m, d) := era_fields doe in
  let y := if m <=? 2 then yoe + 1 else yoe in
  (0 <=? yoe) && (yoe <=? 399) && (1 <=? m) && (m <=? 12)
  && (1 <=? d) && (d <=? daysInMonth y m)
  && (day_of_era yoe m d =? doe).

(** The [i]-th triple of a year of the era, a month and a day 1..31. *)
Definition eraDateOk (i : Z) : bool :=
  let yoe := i / 372 in
  let m := (i mod 372) / 31 + 1 in
  let d := i mod 31 + 1 in
  let y := if m <=? 2 then yoe + 1 else yoe in
  if d <=? daysInMonth y m then
    let doe := day_of_era yoe m d in
    (0 <=? doe) && (doe <=? 146096)
    && bool_decide (era_fields doe = (yoe, m, d))
  else true.

(** ** What the classifier returns *)

(** The time of the day in local time, in milliseconds since midnight
    ([getHours()], [getMinutes()], [getSeconds()] and [getMilliseconds()]
    in one number); [None] is [NaN]. *)
Definition localTimeOfDay (tz : Z) (dt : Date) : option Z :=
  match dt with
  | InvalidDate => None
  | TimeValue t => Some ((t + tz) mod msPerDay)
  end.

(** The fields of an event name a date of the calendar in 1..2100, and its
    [date] is [new Date(year, month, day)]: the local midnight of that
    date when the year is 100 or later, and the local midnight of the same
    day and month of the year 1900 + year when the year is from 1 to 99. *)
Definition wellDated (tz : Z) (ev : HistoricalEvent) : Prop :=
  1 <= year ev <= 2100 /\ 0 <= month ev <= 11 /\
  1 <= day ev <= daysInMonth (year ev) (month ev + 1) /\
  date ev = newDate tz (year ev) (month ev) (day ev) /\
  localCivil tz (date ev)
  = Some (if year ev <=? 99 then 1900 + year ev else year ev,
          month ev + 1, day ev) /\
  localTimeOfDay tz (date ev) = Some 0.

(** A page of 7-bit text (title, extract and categories), and answers of
    Wikipedia for which the classifier is exactly as embedded: the pages
    are of 7-bit text, and a search is answered with a list of results
    whose titles are of 7-bit text. *)
Definition asciiPage (page : WikipediaPage) : bool :=
  asciiOnly (pageTitle page)
  && match extract page with Some text => asciiOnly text | None => true end
  && match categories page with Some cs => forallb asciiOnly cs | None => true end.

Definition plainPages (pages : string -> option (option WikipediaPage)) : Prop :=
  forall t page, pages t = Some (Some page) -> asciiPage page = true.

Definition plainResults (answer : option (list WikipediaSearchResult)) : Prop :=
  exists results,
    answer = Some results /\
    Forall (fun result => asciiOnly (resultTitle result) = true) results.

(** The titles that the classifier gives to the event of a page. *)
Definition titleOfPage (pageTitle title : string) : Prop :=
  title = pageTitle \/ title = "Start of " +:+ pageTitle \/
  title = "Birth of " +:+ pageTitle \/ title = "Death of " +:+ pageTitle.

(** The event of the first search result, in the order of the results,
    whose title is not a time period or meta page and whose page yields an
    event. *)
Fixpoint firstClassified (tz : Z) (pages : string -> option (option WikipediaPage))
    (results : list WikipediaSearchResult) : option HistoricalEvent :=
  match results with
  | [] => None
  | result :: others =>
      if isTimePeriodOrMetaPage (resultTitle result)
      then firstClassified tz pages others
      else
        match pages (resultTitle result) ≫= eventOfPage tz with
        | Some ev => Some ev
        | None => firstClassified tz pages others
        end
  end.

(** The page requests that go with it: one for every result that is not a
    time period or meta page, up to the first that yields an event. *)
Fixpoint pagesRequested (tz : Z) (pages : string -> option (option WikipediaPage))
    (results : list WikipediaSearchResult) : list Request :=
  match results with
  | [] => []
  | result :: others =>
      if isTimePeriodOrMetaPage (resultTitle result)
      then pagesRequested tz pages others
      else
        PageRequest (resultTitle result) ::
        match pages (resultTitle result) ≫= eventOfPage tz with
        | Some _ => []
        | None => pagesRequested tz pages others
        end
  end.

(** ** services/wikipedia.ts: the seed event *)

(** The search phrases of [fetchStartingEvent]; a number is written in
    decimal. *)
Definition searchTerms (century : Z) : list string :=
  let startYear := (century - 1) * 100 in
  let midYear := startYear + 50 in
  let endYear := startYear + 99 in
  [ pretty century +:+ "th century battle";
    pretty century +:+ "th century war";
    pretty startYear +:+ " treaty";
    pretty startYear +:+ " historical event";
    pretty midYear +:+ " battle";
    pretty century +:+ "th century revolution";
    pretty startYear +:+ "s war";
    pretty startYear +:+ "s battle";
    pretty century +:+ "th century disaster";
    pretty startYear +:+ " revolution";
    pretty midYear +:+ " treaty";
    pretty endYear +:+ " battle";
    pretty century +:+ "th century conflict";
    pretty startYear +:+ " war";
    pretty midYear +:+ " historical event" ].

Definition maxEventsToCollect : Z := 10.

Section StartingEvent.

Variable LocalTZA : Z.
Variable wikipediaSearch : string -> Z -> option (list WikipediaSearchResult).
Variable wikipediaPages : string -> option (option WikipediaPage).

(** The body of the inner loop: the event joins [validEvents] when its
    year is in the century and no collected event has its title. *)
Definition collectDetails (startYear endYear : Z)
    (details : option HistoricalEvent) (validEvents : list HistoricalEvent)
  : list HistoricalEvent :=
  match details with
  | Some details =>
      if (startYear <=? year details) && (year details <=? endYear) then
        if existsb (fun e => bool_decide (title e = title details)) validEvents
        then validEvents
        else validEvents ++ [details]
      else validEvents
  | None => validEvents
  end.

(** The inner loop, over the results of one search. *)
Fixpoint collectFromResults (startYear endYear : Z)
    (results : list WikipediaSearchResult) (validEvents : list HistoricalEvent)
  : M (list HistoricalEvent) :=
  match results with
  | [] => ret validEvents
  | result :: others =>
      if arr_length validEvents >=? maxEventsToCollect then ret validEvents
      else if isTimePeriodOrMetaPage (resultTitle result)
      then collectFromResults startYear endYear others validEvents
      else
        details <- getEventDetails LocalTZA wikipediaPages (resultTitle result) ;;
        collectFromResults startYear endYear others
          (collectDetails startYear endYear details validEvents)
  end.

(** The outer loop, over the search phrases. *)
Fixpoint collectFromTerms (startYear endYear : Z)
    (terms : list string) (validEvents : list HistoricalEvent)
  : M (list HistoricalEvent) :=
  match terms with
  | [] => ret validEvents
  | searchTerm :: others =>
      if arr_length validEvents >=? maxEventsToCollect then ret validEvents
      else
        results <- searchWikipediaEvents wikipediaSearch searchTerm 15 ;;
        validEvents' <- collectFromResults startYear endYear results validEvents ;;
        collectFromTerms startYear endYear others validEvents'
  end.

(** [fetchStartingEvent]; [randomIndex n] is what
    [Math.floor(Math.random() * n)] returned. *)
Definition fetchStartingEvent (randomIndex : Z -> Z) (century : Z)
  : M (option HistoricalEvent) :=
  let startYear := (century - 1) * 100 in
  let endYear := startYear + 99 in
  validEvents <- collectFromTerms startYear endYear (searchTerms century) [] ;;
  if arr_length validEvents >? 0
  then ret (arr_get validEvents (randomIndex (arr_length validEvents)))
  else ret None.

End StartingEvent.

(** The events that [fetchStartingEvent] has collected when its loops
    end. *)
Definition collectedEvents (tz : Z)
    (search : string -> Z -> option (list WikipediaSearchResult))
    (pages : string -> option (option WikipediaPage))
    (century : Z) (w : World) : list HistoricalEvent :=
  fst (collectFromTerms tz search pages ((century - 1) * 100)
         ((century - 1) * 100 + 99) (searchTerms century) [] w).

(** The events in the century, of pairwise distinct titles, at most
    ten. *)
Definition seedCandidates (century : Z) (validEvents : list HistoricalEvent) : Prop :=
  Forall (fun e => (century - 1) * 100 <= year e <= (century - 1) * 100 + 99) validEvents /\
  NoDup (map title validEvents) /\
  arr_length validEvents <= maxEventsToCollect.

(** The event of the page of a result of the search for one of the
    phrases, the result being no time period or meta page. *)
Definition fromSearch (tz : Z)
    (search : string -> Z -> option (list WikipediaSearchResult))
    (pages : string -> option (option WikipediaPage))
    (terms : list string) (e : HistoricalEvent) : Prop :=
  exists term results result page,
    term ∈ terms /\ search term 15 = Some results /\ result ∈ results /\
    isTimePeriodOrMetaPage (resultTitle result) = false /\
    pages (resultTitle result) = Some (Some page) /\
    eventOfPage tz (Some page) = Some e.

(** The title prefixes of the date patterns that are not biographical. *)
Definition okPrefix (prefix : option string) : Prop :=
  prefix = None \/ prefix = Some "Start of".


(** ** The size bound of the cache *)

(** The order of the comparator of [saveCache]. *)
Definition olderFirst (x y : string * CachedEvent) : Prop :=
  cachedAt (snd x) <= cachedAt (snd y).

(** The entry that [cacheEvent] writes for an event. *)
Definition entryOf (event : HistoricalEvent) (iso : string) (now : Z) : CachedEvent :=
  {| cachedTitle := title event; cachedDate := iso;
     cachedYear := year event; cachedMonth := month event;
     cachedDay := day event;
     cachedWikipediaUrl := wikipediaUrl event;
     cachedDescription := description event; cachedAt := now |}.

(** A list of entries in which no entry is newer than a later one. *)
Fixpoint oldestFirst (l : JSObject CachedEvent) : Prop :=
  match l with
  | [] => True
  | x :: rest => Forall (olderFirst x) rest /\ oldestFirst rest
  end.

(** ** [calculateTimeDifference] *)

(** Arithmetic and comparison of numbers that may be [NaN] ([None]). *)
Definition nanSub (a b : option Z) : option Z :=
  match a, b with Some x, Some y => Some (x - y) | _, _ => None end.
Definition nanAdd (a b : option Z) : option Z :=
  match a, b with Some x, Some y => Some (x + y) | _, _ => None end.
Definition nanLt (a : option Z) (b : Z) : bool :=
  match a with Some x => x <? b | None => false end.

Record TimeDifference := {
  td_years : option Z;
  td_months : option Z;
  td_days : option Z
}.

Section TimeDifference.

Variable LocalTZA : Z.

(** [new Date(year, month, 0)] for numbers that may be [NaN]. *)
Definition lastDayOfPreviousMonth (y m : option Z) : Date :=
  match y, m with
  | Some y, Some m => newDate LocalTZA y m 0
  | _, _ => InvalidDate
  end.

(** [new Date(date)] of a [Date] has the time value of [date]. *)
Definition calculateTimeDifference (date1 date2 : Date) : TimeDifference :=
  let d1 := date1 in
  let d2 := date2 in
  let years := nanSub (getFullYear LocalTZA d2) (getFullYear LocalTZA d1) in
  let months := nanSub (getMonth LocalTZA d2) (getMonth LocalTZA d1) in
  let days := nanSub (getDate LocalTZA d2) (getDate LocalTZA d1) in
  let '(months, days) :=
    if nanLt days 0 then
      let prevMonth :=
        lastDayOfPreviousMonth (getFullYear LocalTZA d2) (getMonth LocalTZA d2) in
      (nanSub months (Some 1), nanAdd days (getDate LocalTZA prevMonth))
    else (months, days) in
  let '(years, months) :=
    if nanLt months 0 then (nanSub years (Some 1), nanAdd months (Some 12))
    else (years, months) in
  {| td_years := years; td_months := months; td_days := days |}.

End TimeDifference.

(** The day number of the first day of the month with index
    [12 * year + month], the month counted from 0. *)
Definition monthStart (M : Z) : Z := days_from_civil (M / 12) (M mod 12 + 1) 1.

(** ** The keys of the cache *)

Definition isUpperCase (c : ascii) : bool :=
  let n := N_of_ascii c in ((65 <=? n) && (n <=? 90))%N.

(** After the first character: single spaces between characters that are
    neither white space nor upper case, and no space at the end. *)
Fixpoint normalTail (afterSpace : bool) (s : string) : bool :=
  match s with
  | EmptyString => negb afterSpace
  | String c s' =>
      if Ascii.eqb c " " then negb afterSpace && normalTail true s'
      else negb (isWhiteSpace c) && negb (isUpperCase c) && normalTail false s'
  end.

(** The form of a cache key: no upper-case letter, no white space but
    single spaces, and none of these at either end. *)
Definition normalForm (s : string) : bool :=
  match s with
  | EmptyString => true
  | String c _ => negb (Ascii.eqb c " ") && normalTail false s
  end.

Fixpoint noUpperCase (s : string) : bool :=
  match s with
  | EmptyString => true
  | String c s' => negb (isUpperCase c) && noUpperCase s'
  end.

(** ** components/Game.tsx: what the screen offers *)

Definition currentPlayer (gs : GameState) : option Player :=
  arr_get (players gs) (currentPlayerIndex gs).

(** [currentPlayer?.isAlive]: the input for a fact is shown. *)
Definition isCurrentPlayer (gs : GameState) : bool :=
  match currentPlayer gs with
  | Some p => isAlive p
  | None => false
  end.

Definition lastEvent (gs : GameState) : option GameEvent :=
  arr_get (eventChain gs) (arr_length (eventChain gs) - 1).

(** The button of the challenge is shown. *)
Definition canCallBullshit (gs : GameState) : bool :=
  match lastEvent gs with
  | Some e => negb (wasChecked e) && (arr_length (eventChain gs) >? 1)
  | None => false
  end.

(** The players offered as challengers. *)
Definition eligibleBullshitCallers (gs : GameState) : list Player :=
  match lastEvent gs with
  | Some e =>
      List.filter (fun p => isAlive p && negb (bool_decide (id p = playerId e)))
                  (players gs)
  | None => []
  end.

(** ** components/Lobby.tsx *)

(** [name.trim()] is truthy. *)
Definition nonBlank (s : string) : bool := negb (String.eqb (trim s) "").

(** [handlePlayerFieldChange] for the field at [index], which is one of
    the fields shown: the value is written, and an empty field is added
    after the last one when that one is being filled and fewer than eight
    fields are shown. *)
Definition handlePlayerFieldChange (playerFields : list string) (index : nat)
    (value : string) : list string :=
  let newFields := <[index := value]> playerFields in
  if (Z.of_nat index =? arr_length playerFields - 1) && nonBlank value
     && (arr_length playerFields <? 8)
  then newFields ++ [""]
  else newFields.

(** The fields that the lobby can show, for texts of 7-bit characters (on
    which [trim] is exactly as embedded). *)
Inductive lobbyFields : list string -> Prop :=
| fields_initial : lobbyFields [""; ""]
| fields_change playerFields index value :
    lobbyFields playerFields ->
    (index < length playerFields)%nat ->
    asciiOnly value = true ->
    lobbyFields (handlePlayerFieldChange playerFields index value).

(** The player that [handleStartGame] makes of the filled field at
    [index]; [clock index] is what [Date.now()] returns for it. *)
Definition lobbyPlayer (clock : nat -> Z) (index : nat) (name : string) : Player :=
  {| id := "player-" +:+ pretty (clock index) +:+ "-" +:+ pretty (Z.of_nat index);
     name := trim name;
     isAlive := true;
     isHost := Some (index =? 0)%nat |}.

(** The players that [handleStartGame] passes to [startGame]; [None] when
    it alerts and returns. *)
Definition lobbyPlayers (playerFields : list string) (clock : nat -> Z)
  : option (list Player) :=
  let filledPlayers := List.filter nonBlank playerFields in
  if arr_length filledPlayers <? 2 then None
  else Some (imap (lobbyPlayer clock) filledPlayers).

(** The text after the last hyphen of a string. *)
Fixpoint afterLastDash (cur s : string) : string :=
  match s with
  | EmptyString => cur
  | String c s' =>
      if Ascii.eqb c "-" then afterLastDash "" s'
      else afterLastDash (cur +:+ String c "") s'
  end.

Fixpoint noDash (s : string) : bool :=
  match s with
  | EmptyString => true
  | String c s' => negb (Ascii.eqb c "-") && noDash s'
  end.

(** ** A game played through the screens *)

(** The number of chain entries that are marked as checked: the seed and
    the challenged facts. *)
Definition checkedCount (chain : list GameEvent) : nat :=
  length (List.filter wasChecked chain).

(** The states that the screens reach: the lobby starts the game with the
    players of its fields, which hold 7-bit text ([lobbyFields]), a fact
    is submitted while the input is shown, and a challenge is made with
    the button shown, by one of the players offered. *)
Inductive uiReachable : GameState -> Prop :=
| ui_start gs0 playerFields clock ps seed now gs :
    engineReachable gs0 ->
    phase gs0 = lobby ->
    lobbyFields playerFields ->
    lobbyPlayers playerFields clock = Some ps ->
    startGame (Some gs0) (Some ps) (Some seed) now = Some gs ->
    uiReachable gs
| ui_submit gs fact now r gs' :
    uiReachable gs ->
    phase gs = playing ->
    isCurrentPlayer gs = true ->
    submitEvent (Some gs) fact now = Normal (r, Some gs') ->
    uiReachable gs'
| ui_challenge gs caller gs' msg :
    uiReachable gs ->
    phase gs = playing ->
    canCallBullshit gs = true ->
    caller ∈ eligibleBullshitCallers gs ->
    callBullshit (Some gs) (id caller) = Normal (Some gs', msg) ->
    uiReachable gs'.

(** What holds of every such state. *)
Definition uiInvariant (gs : GameState) : Prop :=
  engineReachable gs /\
  NoDup (map id (players gs)) /\
  (2 <= length (players gs) <= 8)%nat /\
  (length (alivePlayers (players gs)) + checkedCount (eventChain gs)
   = length (players gs) + 1)%nat /\
  ((phase gs = playing /\ (2 <= length (alivePlayers (players gs)))%nat) \/
   (phase gs = results /\ length (alivePlayers (players gs)) = 1%nat)) /\
  (forall e, lastEvent gs = Some e -> wasChecked e = false ->
     exists p, p ∈ players gs /\ isAlive p = true /\ id p = playerId e).

(** A game of two that the lobby starts: Ann submits a fact, and Ben
    challenges it. *)
Definition lobby_created : option GameState :=
  createGame "temp-host" None "ABC123" "host-1".

Definition lobby_fields : list string :=
  handlePlayerFieldChange (handlePlayerFieldChange [""; ""] 0 "Ann") 1 " Ben ".

Definition lobby_started : option GameState :=
  startGame lobby_created
            (lobbyPlayers lobby_fields (fun _ => 1700000000000))
            (Some (named_event "Siege of Lisbon" 1150)) 1000.

Definition lobby_after_ann : option GameState :=
  state_of (submitEvent lobby_started (named_event "Founding of Leipzig" 1170) 2000).

(** ** components/Game.tsx: the input of a fact *)

(** [/^\d+\s*(BC|AD|BCE|CE)?$/i] *)
Definition yearOnlyPattern : regex :=
  seq [Bol; Plus D; Many WS; Opt (Group 1 (words ["BC"; "AD"; "BCE"; "CE"])); Eol].

(** What [handleSubmitEvent] does with the text of the input: nothing, the
    alert that asks for an event instead of a year, or the search for the
    trimmed text. *)
Inductive SubmitAction :=
| NoAction
| YearAlert
| Search (input : string).

Definition handleSubmitEvent (eventInput : string) (isSubmitting : bool)
  : SubmitAction :=
  if negb (nonBlank eventInput) || isSubmitting then NoAction
  else
    let input := trim eventInput in
    if regexTest yearOnlyPattern input then YearAlert else Search input.

Fixpoint allDigits (s : string) : bool :=
  match s with
  | EmptyString => true
  | String c s' => isDigit c && allDigits s'
  end.

(** ** services/eventCache.ts: [cacheEvents] *)

(** The loop of [cacheEvents] from the entry at [index] on: each event is
    written under the key of its name; [toISOString] throws for an invalid
    date, and the loop ends there.  [clock index] is what [Date.now()]
    returns for the entry at [index]. *)
Fixpoint cacheEventsFrom (index : nat) (entries : list (string * HistoricalEvent))
    (clock : nat -> Z) (obj : JSObject CachedEvent)
  : completion (JSObject CachedEvent) :=
  match entries with
  | [] => Normal obj
  | (name, event) :: entries' =>
      let key := normalizeEventName name in
      cbind (toISOString (date event)) (fun iso =>
        cacheEventsFrom (S index) entries' clock
          (setProp key (entryOf event iso (clock index)) obj))
  end.

(** [cacheEvents] returns the item that [localStorage] holds afterwards;
    when it throws, nothing has been written. *)
Definition cacheEvents (item : StoredItem) (entries : list (string * HistoricalEvent))
    (clock : nat -> Z) : completion StoredItem :=
  let cache := getCache item in
  cbind (cacheEventsFrom 0 entries clock (events cache)) (fun obj =>
    Normal (saveCache {| version := version cache; events := obj |})).

(** * Properties *)

(** ** Arrays *)

Lemma arr_get_Some {A} (a : list A) (i : Z) (x : A) :
  arr_get a i = Some x <-> 0 <= i /\ a !! Z.to_nat i = Some x.
Proof.
  unfold arr_get. destruct (Z.ltb_spec i 0); split.
  - discriminate.
  - intros [? _]; lia.
  - auto.
  - intros [_ ?]; auto.
Qed.

Lemma arr_get_in_range {A} (a : list A) (i : Z) :
  0 <= i < arr_length a -> exists x, arr_get a i = Some x.
Proof.
  intros [H0 H1]. unfold arr_length in H1.
  destruct (lookup_lt_is_Some_2 a (Z.to_nat i)) as [x Hx]; [lia|].
  exists x. apply arr_get_Some; auto.
Qed.

Lemma arr_get_out_of_range {A} (a : list A) (i : Z) :
  i < 0 \/ arr_length a <= i -> arr_get a i = None.
Proof.
  unfold arr_get, arr_length. intros H.
  destruct (Z.ltb_spec i 0); [reflexivity|].
  apply lookup_ge_None. lia.
Qed.

Lemma arr_get_last_None {A} (a : list A) :
  arr_get a (arr_length a - 1) = None <-> arr_length a = 0.
Proof.
  split.
  - intros H. destruct (Z.eq_dec (arr_length a) 0) as [|Hne]; [assumption|].
    destruct (arr_get_in_range a (arr_length a - 1)) as [x Hx]; [|congruence].
    unfold arr_length in *. lia.
  - intros H. apply arr_get_out_of_range. lia.
Qed.

Lemma arr_get_last {A} (a : list A) (x : A) :
  arr_get (a ++ [x]) (arr_length (a ++ [x]) - 1) = Some x.
Proof.
  apply arr_get_Some. unfold arr_length. rewrite length_app. simpl. split; [lia|].
  replace (Z.to_nat _) with (length a + 0)%nat by lia.
  rewrite lookup_app_r by lia. replace (_ - _)%nat with 0%nat by lia. reflexivity.
Qed.

(** ** C1: the buffer check *)

(** C1 (as stated, refuted). With a negative tolerance the check is false
    for a candidate of the same year as the anchor, so "true when the
    years are equal" does not hold for every tolerance. *)
Lemma isEventWithinBuffer_same_year_negative_tolerance :
  year (event_in 1066) = year (event_in 1066) /\
  isValid (isEventWithinBuffer (event_in 1066) (event_in 1066) (-1)) = false.
Proof. split; reflexivity. Qed.

Lemma isEventWithinBuffer_difference (A C : HistoricalEvent) (t : Z) :
  yearDifference (isEventWithinBuffer A C t) = year C - year A.
Proof.
  unfold isEventWithinBuffer. cbv zeta.
  destruct (year C - year A <? 0); reflexivity.
Qed.

Lemma isEventWithinBuffer_invalid_iff (A C : HistoricalEvent) (t : Z) :
  isValid (isEventWithinBuffer A C t) = false <->
  year C - year A < 0 \/ year C - year A > t.
Proof.
  unfold isEventWithinBuffer. cbv zeta.
  destruct (Z.ltb_spec (year C - year A) 0) as [Hneg|Hpos]; simpl.
  - split; [lia|reflexivity].
  - destruct (Z.leb_spec (year C - year A) t) as [Hle|Hgt].
    + split; [discriminate|lia].
    + split; [lia|reflexivity].
Qed.

Lemma isEventWithinBuffer_valid_iff (A C : HistoricalEvent) (t : Z) :
  isValid (isEventWithinBuffer A C t) = true <->
  0 <= year C - year A <= t.
Proof.
  pose proof (isEventWithinBuffer_invalid_iff A C t) as H.
  destruct (isValid _); split; intros H'; try reflexivity; try discriminate.
  - destruct (Z_lt_dec (year C - year A) 0) as [H1|H1];
      [assert (true = false) by (apply H; lia); discriminate|].
    destruct (Z_gt_dec (year C - year A) t) as [H2|H2];
      [assert (true = false) by (apply H; lia); discriminate|].
    lia.
  - destruct H as [H _]. specialize (H eq_refl). lia.
Qed.

(** C1 (amended). For every anchor event, candidate event and tolerance,
    the buffer check reports the year difference candidate minus anchor and
    classifies the candidate as invalid if and only if that difference is
    negative or exceeds the tolerance; it is false whenever the candidate's
    year precedes the anchor's, whatever the tolerance, and, when the
    tolerance is not negative, true when the two years are equal. *)
Theorem isEventWithinBuffer_spec (A C : HistoricalEvent) (t : Z) :
  let r := isEventWithinBuffer A C t in
  yearDifference r = year C - year A /\
  (isValid r = false <-> year C - year A < 0 \/ year C - year A > t) /\
  (year C < year A -> isValid r = false) /\
  (year C = year A -> 0 <= t -> isValid r = true).
Proof.
  cbv zeta. split; [apply isEventWithinBuffer_difference|].
  split; [apply isEventWithinBuffer_invalid_iff|]. split.
  - intros H. apply isEventWithinBuffer_invalid_iff. lia.
  - intros H Ht. apply isEventWithinBuffer_valid_iff. lia.
Qed.

Lemma isEventWithinBuffer_spec_witness :
  isValid (isEventWithinBuffer (event_in 1150) (event_in 1100) 1000) = false /\
  isValid (isEventWithinBuffer (event_in 1150) (event_in 1150) 25) = true.
Proof.
  pose proof (isEventWithinBuffer_spec (event_in 1150) (event_in 1100) 1000) as H1.
  pose proof (isEventWithinBuffer_spec (event_in 1150) (event_in 1150) 25) as H2.
  cbv zeta in H1, H2.
  destruct H1 as (_ & _ & H1 & _). destruct H2 as (_ & _ & _ & H2).
  split; [apply H1; simpl; lia | apply H2; [reflexivity | lia]].
Defined.

(** ** C8: the buffer policy *)

Lemma calculateBuffer_first_match (y : Z) (pre post : list BufferRule) (r : BufferRule) :
  Forall (fun r' => ruleCovers y r' = false) pre ->
  ruleCovers y r = true ->
  calculateBuffer y (pre ++ r :: post) = bufferYears r.
Proof.
  intros Hpre Hr. induction Hpre as [|r' pre Hr' _ IH]; simpl.
  - rewrite Hr. reflexivity.
  - rewrite Hr'. exact IH.
Qed.

Lemma calculateBuffer_no_match (y : Z) (rules : list BufferRule) :
  Forall (fun r => ruleCovers y r = false) rules ->
  calculateBuffer y rules = 1.
Proof.
  induction 1 as [|r rules Hr _ IH]; simpl; [reflexivity|].
  rewrite Hr. exact IH.
Qed.

Lemma ruleCovers_iff (y : Z) (r : BufferRule) :
  ruleCovers y r = true <-> fromYear r <= y <= toYear r.
Proof. unfold ruleCovers. rewrite andb_true_iff, !Z.leb_le. tauto. Qed.

Local Ltac pick_rule n :=
    exists n; eexists; split; [reflexivity|];
    split; [apply ruleCovers_iff; simpl; lia|];
    split;
    [ unfold calculateBuffer, DEFAULT_BUFFER_RULES, ruleCovers; simpl;
      repeat match goal with
             | |- context [?a <=? ?b] =>
                 destruct (Z.leb_spec a b); simpl; try lia
             end; reflexivity
    | intros j r' Hj Hc; apply ruleCovers_iff in Hc;
      do 7 (destruct j as [|j];
            [simpl in Hj; injection Hj as <-; simpl in Hc; first [reflexivity | lia]|]);
      discriminate Hj ].

Lemma default_rules_cover (y : Z) :
  0 <= y <= 9999 ->
  exists i r,
    DEFAULT_BUFFER_RULES !! i = Some r /\ ruleCovers y r = true /\
    calculateBuffer y DEFAULT_BUFFER_RULES = bufferYears r /\
    forall j r', DEFAULT_BUFFER_RULES !! j = Some r' ->
                 ruleCovers y r' = true -> j = i.
Proof.
  intros Hy.
  assert (Hcase : y <= 999 \/ 1000 <= y <= 1499 \/ 1500 <= y <= 1799 \/
                  1800 <= y <= 1899 \/ 1900 <= y <= 1949 \/
                  1950 <= y <= 1999 \/ 2000 <= y) by lia.
  destruct Hcase as [H|[H|[H|[H|[H|[H|H]]]]]].
  - pick_rule 0%nat.
  - pick_rule 1%nat.
  - pick_rule 2%nat.
  - pick_rule 3%nat.
  - pick_rule 4%nat.
  - pick_rule 5%nat.
  - pick_rule 6%nat.
Qed.

(** C8. For every year and every ordered rule list, [calculateBuffer]
    returns the tolerance of the first rule whose inclusive range
    [fromYear, toYear] contains the year, and the fixed default 1 when no
    rule contains it; under the default rules every year from 0 to 9999 is
    contained in exactly one rule, whose tolerance is returned, so the
    default is not reached there. *)
Theorem calculateBuffer_spec (y : Z) (rules : list BufferRule) :
  (forall pre r post,
      rules = pre ++ r :: post ->
      (forall r', r' ∈ pre -> ~ (fromYear r' <= y <= toYear r')) ->
      fromYear r <= y <= toYear r ->
      calculateBuffer y rules = bufferYears r) /\
  ((forall r, r ∈ rules -> ~ (fromYear r <= y <= toYear r)) ->
   calculateBuffer y rules = 1) /\
  (0 <= y <= 9999 ->
   exists i r,
     DEFAULT_BUFFER_RULES !! i = Some r /\
     fromYear r <= y <= toYear r /\
     calculateBuffer y DEFAULT_BUFFER_RULES = bufferYears r /\
     forall j r', DEFAULT_BUFFER_RULES !! j = Some r' ->
                  fromYear r' <= y <= toYear r' -> j = i).
Proof.
  split; [|split].
  - intros pre r post -> Hpre Hr.
    apply calculateBuffer_first_match.
    + apply Forall_forall. intros r' Hin.
      destruct (ruleCovers y r') eqn:E; [|reflexivity].
      apply ruleCovers_iff in E. destruct (Hpre r' Hin E).
    + apply ruleCovers_iff. exact Hr.
  - intros Hnone. apply calculateBuffer_no_match.
    apply Forall_forall. intros r Hin.
    destruct (ruleCovers y r) eqn:E; [|reflexivity].
    apply ruleCovers_iff in E. destruct (Hnone r Hin E).
  - intros Hy. destruct (default_rules_cover y Hy) as (i & r & Hi & Hc & Hb & Hu).
    exists i, r. split; [exact Hi|]. split; [apply ruleCovers_iff; exact Hc|].
    split; [exact Hb|]. intros j r' Hj Hc'. apply (Hu j r' Hj).
    apply ruleCovers_iff. exact Hc'.
Qed.

Lemma calculateBuffer_spec_witness :
  calculateBuffer 1150 DEFAULT_BUFFER_RULES = 25 /\
  calculateBuffer 12000 DEFAULT_BUFFER_RULES = 1.
Proof.
  destruct (calculateBuffer_spec 1150 DEFAULT_BUFFER_RULES) as (Hfirst & _ & _).
  destruct (calculateBuffer_spec 12000 DEFAULT_BUFFER_RULES) as (_ & Hnone & _).
  split.
  - apply (Hfirst [ {| fromYear := 0; toYear := 999; bufferYears := 50 |} ]
                  {| fromYear := 1000; toYear := 1499; bufferYears := 25 |}
                  (drop 2 DEFAULT_BUFFER_RULES)).
    + reflexivity.
    + intros r' Hin. apply list_elem_of_singleton in Hin. subst r'. simpl. lia.
    + simpl. lia.
  - apply Hnone. intros r Hin. unfold DEFAULT_BUFFER_RULES in Hin.
    repeat (apply elem_of_cons in Hin; destruct Hin as [->|Hin]; [simpl; lia|]).
    apply elem_of_nil in Hin. destruct Hin.
Defined.

(** ** C2: the challenge resolver *)

Lemma arr_get_last_eq {A} (a : list A) :
  arr_get a (arr_length a - 1) = last a.
Proof.
  rewrite last_lookup. unfold arr_get, arr_length.
  destruct a as [|x a]; [reflexivity|].
  destruct (Z.ltb_spec (Z.of_nat (length (x :: a)) - 1) 0) as [H|H].
  - simpl length in H. lia.
  - f_equal. simpl length. lia.
Qed.

(** C2. For every game state with a non-empty chain and an established
    anchor, [processBullshitCall] names one player to eliminate: when the
    year difference between the last event and the anchor is non-negative
    and within the anchor's tolerance, it is the challenger and
    [wasEventCorrect] is true; otherwise it is the player who submitted the
    last event and [wasEventCorrect] is false. *)
Theorem processBullshitCall_eliminates
    (gs : GameState) (caller : string) (anchor : GameEvent) :
  eventChain gs <> [] ->
  getAnchorEvent gs = Some anchor ->
  exists lastEvent,
    last (eventChain gs) = Some lastEvent /\
    let tolerance :=
      calculateBuffer (year (event anchor)) (bufferRules (settings gs)) in
    let diff := year (event lastEvent) - year (event anchor) in
    let r := processBullshitCall gs caller in
    (0 <= diff <= tolerance ->
     eliminatedPlayerId r = caller /\ wasEventCorrect r = true) /\
    (~ (0 <= diff <= tolerance) ->
     eliminatedPlayerId r = playerId lastEvent /\ wasEventCorrect r = false).
Proof.
  intros Hne Hanchor.
  destruct (last (eventChain gs)) as [lastEvent|] eqn:Hlast.
  2: { apply last_None in Hlast. contradiction. }
  exists lastEvent. split; [reflexivity|]. cbv zeta.
  unfold processBullshitCall. rewrite arr_get_last_eq, Hlast, Hanchor.
  pose proof (isEventWithinBuffer_valid_iff (event anchor) (event lastEvent)
    (calculateBuffer (year (event anchor)) (bufferRules (settings gs)))) as Hv.
  destruct (isValid _); simpl; split; intros Hd.
  - split; reflexivity.
  - exfalso. apply Hd. apply Hv. reflexivity.
  - apply Hv in Hd. discriminate.
  - split; reflexivity.
Qed.

Lemma processBullshitCall_eliminates_witness :
  (eliminatedPlayerId (processBullshitCall
     (default lobby_state (state_of after_alice_1170)) "p-bob") = "p-bob" /\
   wasEventCorrect (processBullshitCall
     (default lobby_state (state_of after_alice_1170)) "p-bob") = true) /\
  (eliminatedPlayerId (processBullshitCall
     (default lobby_state (state_of after_alice_1400)) "p-bob") = "p-alice" /\
   wasEventCorrect (processBullshitCall
     (default lobby_state (state_of after_alice_1400)) "p-bob") = false).
Proof.
  split.
  - destruct (processBullshitCall_eliminates
                (default lobby_state (state_of after_alice_1170)) "p-bob"
                {| playerId := "system"; playerName := "Game";
                   event := named_event "Siege of Lisbon" 1150;
                   wasChecked := true; wasCorrect := Some true;
                   timestamp := 1000 |})
      as (lastEvent & Hlast & Hvalid & _); [discriminate | reflexivity |].
    vm_compute in Hlast. injection Hlast as <-.
    apply Hvalid. vm_compute. split; discriminate.
  - destruct (processBullshitCall_eliminates
                (default lobby_state (state_of after_alice_1400)) "p-bob"
                {| playerId := "system"; playerName := "Game";
                   event := named_event "Siege of Lisbon" 1150;
                   wasChecked := true; wasCorrect := Some true;
                   timestamp := 1000 |})
      as (lastEvent & Hlast & _ & Hinvalid); [discriminate | reflexivity |].
    vm_compute in Hlast. injection Hlast as <-.
    apply Hinvalid. vm_compute. intros [_ H]. apply H. reflexivity.
Defined.

(** ** C7: anchor recomputation *)

Lemma alter_last_length {A} (f : A -> A) (l : list A) :
  length (alter f (length l - 1)%nat l) = length l.
Proof. apply length_alter. Qed.

(** C7. For every chain of length n >= 2, [callBullshit] completes, keeps
    the chain at length n with every earlier entry untouched and the
    disputed entry still last, with its player, its event and its
    timestamp as they were, now marked checked with the verdict; and it
    moves the anchor index to n-2 = max(0, n-2) when the challenge is
    resolved as invalid and to n-1 when it is resolved as valid. *)
Theorem callBullshit_anchor_index (gs : GameState) (caller : string) (n : Z) :
  arr_length (eventChain gs) = n ->
  2 <= n ->
  exists gs' msg disputed,
    callBullshit (Some gs) caller = Normal (Some gs', msg) /\
    last (eventChain gs) = Some disputed /\
    arr_length (eventChain gs') = n /\
    last (eventChain gs') =
      Some {| playerId := playerId disputed;
              playerName := playerName disputed;
              event := event disputed;
              wasChecked := true;
              wasCorrect := Some (wasEventCorrect (processBullshitCall gs caller));
              timestamp := timestamp disputed |} /\
    (forall i, i < n - 1 -> arr_get (eventChain gs') i = arr_get (eventChain gs) i) /\
    (wasEventCorrect (processBullshitCall gs caller) = false ->
     lastCheckedEventIndex gs' = n - 2 /\ n - 2 = Z.max 0 (n - 2)) /\
    (wasEventCorrect (processBullshitCall gs caller) = true ->
     lastCheckedEventIndex gs' = n - 1).
Proof.
  intros Hlen Hn.
  set (w := wasEventCorrect (processBullshitCall gs caller)).
  set (chain' := alter (markChecked w) (length (eventChain gs) - 1)%nat (eventChain gs)).
  assert (Hlen' : arr_length chain' = n).
  { unfold chain', arr_length. rewrite length_alter. exact Hlen. }
  assert (Hpos : (0 <? length (eventChain gs))%nat = true).
  { apply Nat.ltb_lt. unfold arr_length in Hlen. lia. }
  destruct (last (eventChain gs)) as [disputed|] eqn:Hlast.
  2: { apply last_None in Hlast. rewrite Hlast in Hlen. simpl in Hlen.
       unfold arr_length in Hlen. simpl in Hlen. lia. }
  set (idx := if w then n - 1 else Z.max 0 (n - 2)).
  destruct (arr_get_in_range chain' idx) as [anchor Hanchor].
  { rewrite Hlen'. unfold idx. destruct w; lia. }
  eexists _, _, disputed. split.
  - unfold callBullshit. cbv zeta. rewrite Hpos.
    fold w. fold chain'. rewrite Hlen'. fold idx. rewrite Hanchor. reflexivity.
  - simpl. fold w. fold chain'.
    split; [reflexivity|]. split; [exact Hlen'|]. split; [|split; [|split]].
    + unfold chain'. rewrite last_lookup, length_alter.
      rewrite last_lookup in Hlast.
      replace (length (eventChain gs) - 1)%nat with (pred (length (eventChain gs))) by lia.
      rewrite list_lookup_alter_eq, Hlast. reflexivity.
    + intros i Hi. unfold arr_get. destruct (i <? 0) eqn:E; [reflexivity|].
      apply Z.ltb_ge in E. unfold chain'.
      apply list_lookup_alter_ne. unfold arr_length in Hlen. lia.
    + intros Hw. unfold idx. rewrite Hw. split; lia.
    + intros Hw. unfold idx. rewrite Hw. reflexivity.
Qed.

Lemma callBullshit_anchor_index_witness :
  exists gs' msg e,
    callBullshit (state_of after_alice_1400) "p-bob" = Normal (Some gs', msg) /\
    arr_length (eventChain gs') = 2 /\
    lastCheckedEventIndex gs' = 0 /\
    last (eventChain gs') = Some e /\
    playerId e = "p-alice" /\
    event e = named_event "Battle of Homildon Hill" 1400 /\
    wasChecked e = true /\ wasCorrect e = Some false.
Proof.
  destruct (callBullshit_anchor_index
              (default lobby_state (state_of after_alice_1400)) "p-bob" 2)
    as (gs' & msg & disputed & Hcall & Hdisputed & Hlen & Hlast & _ & Hinvalid & _);
    [reflexivity | lia |].
  vm_compute in Hdisputed. injection Hdisputed as <-.
  eexists gs', msg, _. split; [exact Hcall|]. split; [exact Hlen|].
  split; [destruct Hinvalid as [Hidx _]; [reflexivity | exact Hidx]|].
  split; [exact Hlast|]. repeat split.
Defined.

(** The two end-to-end scenarios: seed of 1150 (tolerance 25), Alice
    submits, Bob challenges. *)
Example scenario_A :
  exists gs' msg,
    callBullshit (state_of after_alice_1170) "p-bob" = Normal (Some gs', msg) /\
    msg = Some "Event was correct! Year difference: 20, Buffer: 25" /\
    phase gs' = results /\
    getWinner gs' = Some "p-alice" /\
    lastCheckedEventIndex gs' = 1.
Proof. eexists _, _. split; [vm_compute; reflexivity|]. repeat split. Qed.

Example scenario_B :
  exists gs' msg,
    callBullshit (state_of after_alice_1400) "p-bob" = Normal (Some gs', msg) /\
    msg = Some "Event was incorrect! Year difference: 250, Buffer: 25" /\
    phase gs' = results /\
    getWinner gs' = Some "p-bob" /\
    lastCheckedEventIndex gs' = 0.
Proof. eexists _, _. split; [vm_compute; reflexivity|]. repeat split. Qed.

(** A challenge on an empty chain throws before the state is set. *)
Example callBullshit_empty_chain :
  callBullshit (Some lobby_state) "p-bob" = Throw.
Proof. reflexivity. Qed.

(** ** C9: challenging the anchor itself *)

Lemma calculateBuffer_nonneg (y : Z) (rules : list BufferRule) :
  Forall (fun r => 0 <= bufferYears r) rules ->
  0 <= calculateBuffer y rules.
Proof.
  induction 1 as [|r rules Hr _ IH]; simpl; [lia|].
  destruct (ruleCovers y r); assumption.
Qed.

Lemma default_rules_nonneg :
  Forall (fun r => 0 <= bufferYears r) DEFAULT_BUFFER_RULES.
Proof. repeat constructor; simpl; lia. Qed.

(** C9 (as stated, refuted). In a state whose last entry is the anchor
    and whose only rule has tolerance -1, the challenge compares the event
    with itself (difference 0), yet the outcome is "event incorrect" and
    the eliminated player is the entry's submitter, not the challenger. *)
Lemma self_challenge_negative_tolerance :
  lastCheckedEventIndex negative_tolerance_state
    = arr_length (eventChain negative_tolerance_state) - 1 /\
  wasEventCorrect (processBullshitCall negative_tolerance_state "p-bob") = false /\
  eliminatedPlayerId (processBullshitCall negative_tolerance_state "p-bob") = "system".
Proof. repeat split; reflexivity. Qed.

(** C9 (amended). For every game state in which the last chain entry is
    itself the current anchor (lastCheckedEventIndex = length - 1), a
    challenge compares that entry with itself, so the year difference is 0;
    when no rule carries a negative tolerance (as in the default rules) the
    outcome is "event correct" and the challenger is the eliminated
    player. *)
Theorem self_challenge_eliminates_caller (gs : GameState) (caller : string) :
  eventChain gs <> [] ->
  lastCheckedEventIndex gs = arr_length (eventChain gs) - 1 ->
  exists e,
    last (eventChain gs) = Some e /\
    getAnchorEvent gs = Some e /\
    yearDifference
      (isEventWithinBuffer (event e) (event e)
         (calculateBuffer (year (event e)) (bufferRules (settings gs)))) = 0 /\
    (Forall (fun r => 0 <= bufferYears r) (bufferRules (settings gs)) ->
     wasEventCorrect (processBullshitCall gs caller) = true /\
     eliminatedPlayerId (processBullshitCall gs caller) = caller).
Proof.
  intros Hne Hidx.
  destruct (last (eventChain gs)) as [e|] eqn:Hlast.
  2: { apply last_None in Hlast. contradiction. }
  assert (Hanchor : getAnchorEvent gs = Some e).
  { unfold getAnchorEvent. rewrite Hidx, arr_get_last_eq, Hlast.
    destruct (arr_length (eventChain gs) =? 0) eqn:E; [|reflexivity].
    apply Z.eqb_eq in E. unfold arr_length in E.
    destruct (eventChain gs); [contradiction | simpl in E; lia]. }
  exists e. split; [reflexivity|]. split; [exact Hanchor|].
  split; [rewrite isEventWithinBuffer_difference; lia|].
  intros Hrules.
  unfold processBullshitCall. rewrite arr_get_last_eq, Hlast, Hanchor.
  assert (Hvalid : isValid (isEventWithinBuffer (event e) (event e)
            (calculateBuffer (year (event e)) (bufferRules (settings gs)))) = true).
  { apply isEventWithinBuffer_valid_iff.
    pose proof (calculateBuffer_nonneg (year (event e)) _ Hrules). lia. }
  rewrite Hvalid. split; reflexivity.
Qed.

Lemma self_challenge_eliminates_caller_witness :
  wasEventCorrect
    (processBullshitCall (default lobby_state started_state) "p-bob") = true /\
  eliminatedPlayerId
    (processBullshitCall (default lobby_state started_state) "p-bob") = "p-bob".
Proof.
  destruct (self_challenge_eliminates_caller
              (default lobby_state started_state) "p-bob")
    as (e & _ & _ & _ & H); [discriminate | reflexivity |].
  apply H. exact default_rules_nonneg.
Defined.

(** ** C5 and C3: [submitEvent] guards and the unresolved entries *)

Lemma nextAliveFrom_total (ps : list Player) (fuel : nat) (i : Z) :
  0 <= i < arr_length ps ->
  exists j, nextAliveFrom ps fuel i = Normal j /\ 0 <= j < arr_length ps.
Proof.
  revert i. induction fuel as [|fuel IH]; intros i Hi; simpl;
    destruct (arr_get_in_range ps i Hi) as [p Hp]; rewrite Hp.
  - destruct (isAlive p); exists i; split; auto.
  - destruct (isAlive p); [exists i; split; auto|].
    apply IH. apply Z.rem_bound_pos; lia.
Qed.

Lemma getNextPlayerIndex_total (gs : GameState) :
  0 <= currentPlayerIndex gs < arr_length (players gs) ->
  exists j, getNextPlayerIndex gs = Normal j /\ 0 <= j < arr_length (players gs).
Proof.
  intros H. unfold getNextPlayerIndex.
  destruct (arr_length (players gs) =? 0) eqn:E; [apply Z.eqb_eq in E; lia|].
  apply nextAliveFrom_total. apply Z.rem_bound_pos; lia.
Qed.

Lemma arr_get_Some_range {A} (a : list A) (i : Z) (x : A) :
  arr_get a i = Some x -> 0 <= i < arr_length a.
Proof.
  intros H. apply arr_get_Some in H as [H0 H]. apply lookup_lt_Some in H.
  unfold arr_length. lia.
Qed.

(** What a [submitEvent] that gets past its two guards does. *)
Lemma submitEvent_accepts (gs : GameState) (fact : HistoricalEvent) (now : Z)
    (currentPlayer : Player) :
  isDuplicate (eventChain gs) fact = false ->
  arr_get (players gs) (currentPlayerIndex gs) = Some currentPlayer ->
  exists gs',
    submitEvent (Some gs) fact now =
      Normal ({| submit_success := true; message := "Event submitted!" |}, Some gs') /\
    phase gs' = phase gs /\
    eventChain gs' =
      eventChain gs ++ [ {| playerId := id currentPlayer;
                            playerName := name currentPlayer;
                            event := fact; wasChecked := false;
                            wasCorrect := None; timestamp := now |} ].
Proof.
  intros Hdup Hcur. unfold submitEvent. rewrite Hdup, Hcur.
  destruct (getNextPlayerIndex_total gs) as (j & Hj & _).
  { eapply arr_get_Some_range. exact Hcur. }
  rewrite Hj. simpl. eexists. split; [reflexivity|]. split; reflexivity.
Qed.

Lemma submitEvent_inv (gs : GameState) (fact : HistoricalEvent) (now : Z)
    (r : SubmitResult) (st : option GameState) :
  submitEvent (Some gs) fact now = Normal (r, st) ->
  (isDuplicate (eventChain gs) fact = true /\ submit_success r = false /\ st = Some gs) \/
  (isDuplicate (eventChain gs) fact = false /\ submit_success r = true /\
   exists gs' entry,
     st = Some gs' /\ wasChecked entry = false /\ event entry = fact /\
     phase gs' = phase gs /\
     eventChain gs' = eventChain gs ++ [entry]).
Proof.
  unfold submitEvent. destruct (isDuplicate (eventChain gs) fact) eqn:Hdup.
  - intros [= <- <-]. left. auto.
  - destruct (arr_get (players gs) (currentPlayerIndex gs)) as [p|]; [|discriminate].
    destruct (getNextPlayerIndex gs) as [j|]; [|discriminate]. simpl.
    intros [= <- <-]. right. split; [reflexivity|]. split; [reflexivity|].
    eexists _, _. split; [reflexivity|]. simpl. repeat split; reflexivity.
Qed.

Lemma submitEvent_phase_irrelevant (gs : GameState) (p : GamePhase)
    (fact : HistoricalEvent) (now : Z) :
  submitEvent (Some (withPhase gs p)) fact now =
  match submitEvent (Some gs) fact now with
  | Normal (r, st) => Normal (r, (fun gs' => withPhase gs' p) <$> st)
  | Throw => Throw
  end.
Proof.
  unfold submitEvent, getNextPlayerIndex. simpl.
  destruct (isDuplicate (eventChain gs) fact); [reflexivity|].
  destruct (arr_get (players gs) (currentPlayerIndex gs)); [|reflexivity].
  destruct (arr_length (players gs) =? 0); [reflexivity|].
  destruct (nextAliveFrom _ _ _); reflexivity.
Qed.

(** C5 (as stated, refuted). In the lobby state (phase not playing) a
    fact is accepted: the result is a success and the state changes (the
    chain gets its first entry). *)
Lemma submitEvent_accepted_in_lobby :
  phase lobby_state <> playing /\
  exists gs',
    submitEvent (Some lobby_state) (named_event "Battle of Hastings" 1066) 2000 =
      Normal ({| submit_success := true; message := "Event submitted!" |}, Some gs') /\
    eventChain lobby_state = [] /\
    arr_length (eventChain gs') = 1.
Proof.
  split; [discriminate|]. eexists. split; [reflexivity|]. split; reflexivity.
Qed.

(** C5 (amended). [submitEvent] does not look at the phase. It is rejected
    synchronously with a failure result, the GameState left entirely
    unchanged, when there is no active game or when the fact's title
    equals, ignoring case, the title of a chain entry; otherwise, the
    titles being of 7-bit characters, in every phase a call whose current
    player exists succeeds and appends the fact; and its outcome in one
    phase is its outcome in any other. *)
Theorem submitEvent_rejects_only_duplicates
    (gs : GameState) (fact : HistoricalEvent) (now : Z) :
  (exists msg,
      submitEvent None fact now =
        Normal ({| submit_success := false; message := msg |}, None)) /\
  (isDuplicate (eventChain gs) fact = true ->
   exists msg,
     submitEvent (Some gs) fact now =
       Normal ({| submit_success := false; message := msg |}, Some gs)) /\
  (asciiTitles (eventChain gs) fact ->
   isDuplicate (eventChain gs) fact = false ->
   forall currentPlayer,
     arr_get (players gs) (currentPlayerIndex gs) = Some currentPlayer ->
     exists msg gs' entry,
       submitEvent (Some gs) fact now =
         Normal ({| submit_success := true; message := msg |}, Some gs') /\
       event entry = fact /\ wasChecked entry = false /\
       phase gs' = phase gs /\
       eventChain gs' = eventChain gs ++ [entry]) /\
  (forall p,
      submitEvent (Some (withPhase gs p)) fact now =
      match submitEvent (Some gs) fact now with
      | Normal (r, st) => Normal (r, (fun gs' => withPhase gs' p) <$> st)
      | Throw => Throw
      end).
Proof.
  split; [eexists; reflexivity|]. split; [|split].
  - intros Hdup. unfold submitEvent. rewrite Hdup. eexists. reflexivity.
  - intros _ Hdup p Hp.
    destruct (submitEvent_accepts gs fact now p Hdup Hp) as (gs' & Hs & Hph & Hch).
    eexists _, gs', _. split; [exact Hs|]. split; [|split; [|split; [exact Hph|exact Hch]]];
      reflexivity.
  - intros p. apply submitEvent_phase_irrelevant.
Qed.

Lemma submitEvent_rejects_only_duplicates_witness :
  (exists msg,
     submitEvent started_state (named_event "siege of LISBON" 1147) 2000 =
       Normal ({| submit_success := false; message := msg |}, started_state)) /\
  (exists msg gs',
     submitEvent (Some lobby_state) (named_event "Battle of Hastings" 1066) 2000 =
       Normal ({| submit_success := true; message := msg |}, Some gs')).
Proof.
  split.
  - destruct (submitEvent_rejects_only_duplicates
                (default lobby_state started_state)
                (named_event "siege of LISBON" 1147) 2000) as (_ & Hdup & _).
    destruct Hdup as [msg Hmsg]; [reflexivity|]. exists msg. exact Hmsg.
  - destruct (submitEvent_rejects_only_duplicates
                lobby_state (named_event "Battle of Hastings" 1066) 2000)
      as (_ & _ & Hok & _).
    destruct (Hok (conj eq_refl (Forall_nil_2 _)) eq_refl alice eq_refl)
      as (msg & gs' & entry & Hs & _).
    exists msg, gs'. exact Hs.
Defined.



Lemma callBullshit_inv (gs : GameState) (caller : string)
    (gs' : GameState) (msg : option string) :
  callBullshit (Some gs) caller = Normal (Some gs', msg) ->
  eventChain gs <> [] /\
  eventChain gs' =
    alter (markChecked (wasEventCorrect (processBullshitCall gs caller)))
          (length (eventChain gs) - 1)%nat (eventChain gs).
Proof.
  unfold callBullshit. cbv zeta.
  destruct (eventChain gs) as [|e chain] eqn:Hchain.
  - simpl. unfold processBullshitCall. rewrite Hchain. simpl. discriminate.
  - replace (0 <? length (e :: chain))%nat with true
      by (symmetry; apply Nat.ltb_lt; simpl; lia).
    destruct (arr_get _ _) as [anchor|]; [|discriminate].
    intros [= <- _]. simpl. split; [discriminate|reflexivity].
Qed.





(** ** Dates *)

Example newDate_example : newDate 0 1066 9 14 = TimeValue (-28502755200000).
Proof. reflexivity. Qed.

Example toISOString_example :
  toISOString (TimeValue (-28502755200000)) = Normal "1066-10-14T00:00:00.000Z".
Proof. vm_compute. reflexivity. Qed.

Example dateOfString_example :
  dateOfString "1066-10-14T00:00:00.000Z" = TimeValue (-28502755200000).
Proof. vm_compute. reflexivity. Qed.

Example toISOString_local_example :
  toISOString (newDate 3600000 1969 6 20) = Normal "1969-07-19T23:00:00.000Z" /\
  dateOfString "1969-07-19T23:00:00.000Z" = newDate 3600000 1969 6 20 /\
  getDate 3600000 (newDate 3600000 1969 6 20) = Some 20.
Proof. vm_compute. auto. Qed.

Example newDate_overflow_example :
  getMonth 0 (newDate 0 1900 1 30) = Some 2 /\
  getDate 0 (newDate 0 1900 1 30) = Some 2 /\
  getFullYear 0 (newDate 0 99 0 1) = Some 1999.
Proof. vm_compute. auto. Qed.

(** ** The result cache *)

Example normalizeEventName_example :
  normalizeEventName "  Battle   of
 HASTINGS " = "battle of hastings".
Proof. vm_compute. reflexivity. Qed.

Example cache_roundtrip_example :
  exists item,
    cacheEvent ItemAbsent "Battle  of Hastings" hastings 5000 = Normal item /\
    getCachedEvent item " battle of HASTINGS" = Cached hastings /\
    getCachedEvent item "hastings" = NotCached.
Proof. eexists. split; [vm_compute; reflexivity|]. split; vm_compute; reflexivity. Qed.

(** ** Regular expressions *)

Example regex_greedy_example :
  regexMatch (seq [Group 1 (Plus D); Group 2 (Many D)]) "ab 1066x"
  = Some [(2%nat, ""); (1%nat, "1066")].
Proof. vm_compute. reflexivity. Qed.

Example regex_lazy_example :
  regexMatch (seq [Lit "a"; Lazy Dot; Group 1 D4; B]) "A 12345 1805 1806"
  = Some [(1%nat, "2345")] /\
  regexMatch (seq [Lit "a"; Lazy Dot; B; Group 1 D4; B]) "A 12345 1805 1806"
  = Some [(1%nat, "1805")].
Proof. vm_compute. auto. Qed.

Example regex_word_boundary_example :
  regexTest (seq [B; words ["died"; "death"]; B]) "He studied law" = false /\
  regexTest (seq [B; words ["died"; "death"]; B]) "He Died young" = true.
Proof. vm_compute. auto. Qed.

(** ** The classifier *)

Example isTimePeriodOrMetaPage_examples :
  isTimePeriodOrMetaPage "21st century" = true /\
  isTimePeriodOrMetaPage "1990s" = true /\
  isTimePeriodOrMetaPage "January 2020" = true /\
  isTimePeriodOrMetaPage "list of wars" = true /\
  isTimePeriodOrMetaPage "Battle of Hastings" = false.
Proof. vm_compute. auto 10. Qed.

Example extractBiographicalDate_not_biographical :
  extractBiographicalDate 0
    (Some "Leonardo da Vinci (born 15 April 1452) was an Italian polymath.")
    "Leonardo da Vinci" = None.
Proof. vm_compute. reflexivity. Qed.

Example extractBiographicalDate_example :
  extractBiographicalDate 0
    (Some "Leonardo da Vinci was born on 15 April 1452 in Anchiano.")
    "Leonardo da Vinci"
  = Some {| title := "Birth of Leonardo da Vinci";
            date := newDate 0 1452 3 15;
            year := 1452; month := 3; day := 15;
            wikipediaUrl := Some "";
            description :=
              Some "Leonardo da Vinci was born on 15 April 1452 in Anchiano." |}.
Proof. vm_compute. reflexivity. Qed.

Example isValidCompleteDate_examples :
  isValidCompleteDate 0 1900 1 29 = false /\
  isValidCompleteDate 0 2000 1 29 = true /\
  isValidCompleteDate 0 1066 9 31 = true /\
  isValidCompleteDate 0 1066 8 31 = false.
Proof. vm_compute. auto. Qed.

(** ** C6: persons without a complete date *)

(** C6 (the failing input). The page "Harold Godwinson" is the page of a
    person: its text signals one (both "was a king" and "died"), and no
    birth or death pattern matches it, so [extractBiographicalDate]
    extracts no date and returns [null].  [getEventDetails] does not
    reject the candidate there: it goes on to [isHistoricalEvent], which
    passes the text ("battle"), and to the date extraction ("fought in
    1066"), and returns the person as an event of 1 January 1066 under
    the title of the page. *)
Theorem person_without_date_not_rejected :
  isBiographical harold_text = true /\
  regexTest biographicalPhrase (toLowerCase harold_text) = true /\
  regexMatch birthPattern1 harold_text = None /\
  regexMatch birthPattern2 harold_text = None /\
  regexMatch deathPattern1 harold_text = None /\
  regexMatch deathPattern2 harold_text = None /\
  extractBiographicalDate 0 (Some harold_text) "Harold Godwinson" = None /\
  isHistoricalEvent (Some harold_text) (categories harold_page) = true /\
  fst (getEventDetails 0 samplePages "Harold Godwinson" fresh_world)
    = Some harold_classified /\
  title harold_classified = pageTitle harold_page.
Proof. vm_compute. repeat split; reflexivity. Qed.

(** The person test also fires on the page of an event whose text
    mentions a death; no life date is extracted there either, and the page
    is classified by the generic path. *)
Example event_page_with_death_language :
  isBiographical (default "" (extract hastings_death_page)) = true /\
  extractBiographicalDate 0 (extract hastings_death_page) "Battle of Hastings" = None /\
  (title <$> eventOfPage 0 (Some hastings_death_page)) = Some "Battle of Hastings" /\
  (year <$> eventOfPage 0 (Some hastings_death_page)) = Some 1066.
Proof. vm_compute. repeat split; reflexivity. Qed.

Lemma genericEvent_None_iff (tz : Z) (page : WikipediaPage) :
  genericEvent tz page = None <->
  isHistoricalEvent (extract page) (categories page) = false \/
  extractDateFromText tz (extract page) = None.
Proof.
  unfold genericEvent.
  destruct (isHistoricalEvent (extract page) (categories page)); simpl.
  - destruct (extractDateFromText tz (extract page)); split.
    + discriminate.
    + intros [H|H]; discriminate.
    + auto.
    + reflexivity.
  - split; auto.
Qed.

Lemma getEventDetails_fetched (tz : Z)
    (pages : string -> option (option WikipediaPage))
    (pageTitle : string) (w : World) :
  isTimePeriodOrMetaPage pageTitle = false ->
  getEventDetails tz pages pageTitle w =
    (match pages pageTitle with
     | Some page => eventOfPage tz page
     | None => None
     end,
     {| requests := requests w ++ [PageRequest pageTitle];
        localStorage := localStorage w |}).
Proof.
  intros Hmeta. unfold getEventDetails. rewrite Hmeta.
  unfold bind, send, ret. destruct (pages pageTitle); reflexivity.
Qed.

(** ** C4: the classifier and the result cache *)

Lemma onlySends_ret {A} (a : A) : onlySends (ret a) a [].
Proof. intros [rs st]. unfold ret. simpl. rewrite app_nil_r. reflexivity. Qed.

Lemma onlySends_send (r : Request) : onlySends (send r) tt [r].
Proof. intros w. reflexivity. Qed.

Lemma onlySends_bind {A B} (c : M A) (k : A -> M B) a sent1 b sent2 :
  onlySends c a sent1 -> onlySends (k a) b sent2 ->
  onlySends (bind c k) b (sent1 ++ sent2).
Proof.
  intros Hc Hk w. unfold bind. rewrite Hc, Hk. simpl.
  rewrite app_assoc. reflexivity.
Qed.

Lemma onlySends_getEventDetails tz pages pageTitle :
  exists r sent, onlySends (getEventDetails tz pages pageTitle) r sent.
Proof.
  unfold getEventDetails. destruct (isTimePeriodOrMetaPage pageTitle).
  - eexists _, _. apply onlySends_ret.
  - destruct (pages pageTitle) as [page|]; eexists _, _;
      (eapply onlySends_bind; [apply onlySends_send | apply onlySends_ret]).
Qed.

Lemma onlySends_firstDetails tz pages results :
  exists r sent, onlySends (firstDetails tz pages results) r sent.
Proof.
  induction results as [|result others IH]; simpl.
  - eexists _, _. apply onlySends_ret.
  - destruct (isTimePeriodOrMetaPage (resultTitle result)); [exact IH|].
    destruct (onlySends_getEventDetails tz pages (resultTitle result))
      as (d & sent1 & Hd).
    destruct d as [details|].
    + eexists _, _. eapply onlySends_bind; [exact Hd | apply onlySends_ret].
    + destruct IH as (r & sent2 & Hr).
      eexists _, _. eapply onlySends_bind; [exact Hd | exact Hr].
Qed.

Lemma onlySends_validateEvent tz search pages eventName :
  exists r more,
    onlySends (validateEvent tz search pages eventName) r
              (SearchRequest eventName 10 :: more).
Proof.
  unfold validateEvent, searchWikipediaEvents.
  set (results := default [] (search eventName 10)).
  destruct (arr_length results =? 0) eqn:E.
  - exists None, []. intros w. unfold bind, send, ret. simpl.
    fold results. rewrite E. reflexivity.
  - destruct (onlySends_firstDetails tz pages results) as (r & sent & Hr).
    exists r, sent. intros w. unfold bind, send, ret. simpl.
    fold results. rewrite E, Hr. simpl. rewrite <- app_assoc. reflexivity.
Qed.

(** C4 (as stated, refuted). Classifying the same text twice gives the
    same event both times, but the search request is sent twice, nothing
    is written to the result cache, and the cache does not answer the
    query afterwards. *)
Lemma validateEvent_repeats_the_lookup :
  let '(first, w1) := validateEvent 0 sampleSearch samplePages "battle of hastings" fresh_world in
  let '(second, w2) := validateEvent 0 sampleSearch samplePages "battle of hastings" w1 in
  first = Some hastings_classified /\
  second = Some hastings_classified /\
  searchRequests (requests w1) = [SearchRequest "battle of hastings" 10] /\
  searchRequests (requests w2) =
    [SearchRequest "battle of hastings" 10; SearchRequest "battle of hastings" 10] /\
  localStorage w2 = ItemAbsent /\
  getCachedEvent (localStorage w2) "battle of hastings" = NotCached.
Proof. vm_compute. repeat split; reflexivity. Qed.

(** C4 (amended). [validateEvent] does not use the result cache: every
    call, also a repeated one for the same text, first sends the search
    request for that text, never reads or writes the cache item of
    [localStorage], and (the answers of Wikipedia being the same) returns
    the same output whatever the state of the cache and of earlier
    calls. *)
Theorem validateEvent_ignores_cache
    (tz : Z) (search : string -> Z -> option (list WikipediaSearchResult))
    (pages : string -> option (option WikipediaPage))
    (eventName : string) (w : World) :
  let '(r, w') := validateEvent tz search pages eventName w in
  localStorage w' = localStorage w /\
  (exists more,
      requests w' = requests w ++ SearchRequest eventName 10 :: more) /\
  (forall w2, fst (validateEvent tz search pages eventName w2) = r) /\
  (let '(r2, w'') := validateEvent tz search pages eventName w' in
   r2 = r /\
   exists more,
     requests w'' = requests w' ++ SearchRequest eventName 10 :: more).
Proof.
  destruct (onlySends_validateEvent tz search pages eventName) as (r & more & H).
  rewrite (H w). rewrite H. simpl.
  split; [reflexivity|]. split; [exists more; reflexivity|].
  split; [intros w2; rewrite H; reflexivity|].
  split; [reflexivity|]. exists more. reflexivity.
Qed.

(** ** C10: cache round trip *)

Lemma ownProperty_replaceOwn {V} (key : string) (v : V) (obj : JSObject V) :
  is_Some (ownProperty obj key) -> ownProperty (replaceOwn key v obj) key = Some v.
Proof.
  induction obj as [|[k w] obj IH]; simpl; intros H.
  - destruct H as [x Hx]. discriminate.
  - case_bool_decide as E; simpl.
    + rewrite bool_decide_true by assumption. reflexivity.
    + rewrite bool_decide_false by assumption. apply IH. exact H.
Qed.

Lemma ownProperty_head {V} (key : string) (v : V) (obj : JSObject V) :
  ownProperty ((key, v) :: obj) key = Some v.
Proof. simpl. rewrite bool_decide_true by reflexivity. reflexivity. Qed.

Lemma ownProperty_insertIndex {V} (n : Z) (key : string) (v : V) (obj : JSObject V) :
  ownProperty obj key = None -> ownProperty (insertIndex n key v obj) key = Some v.
Proof.
  induction obj as [|[k w] obj IH]; intros H.
  - apply ownProperty_head.
  - simpl in H. case_bool_decide as E; [discriminate|].
    simpl insertIndex.
    destruct (arrayIndex k) as [m|]; [destruct (m <? n)|];
      try apply ownProperty_head.
    simpl. rewrite bool_decide_false by assumption. apply IH. exact H.
Qed.

Lemma ownProperty_app_new {V} (key : string) (v : V) (obj : JSObject V) :
  ownProperty obj key = None -> ownProperty (obj ++ [(key, v)]) key = Some v.
Proof.
  induction obj as [|[k w] obj IH]; simpl; intros H.
  - rewrite bool_decide_true by reflexivity. reflexivity.
  - case_bool_decide as E; [discriminate|]. apply IH. exact H.
Qed.

Lemma ownProperty_setProp {V} (key : string) (v : V) (obj : JSObject V) :
  key <> "__proto__" -> ownProperty (setProp key v obj) key = Some v.
Proof.
  intros Hkey. unfold setProp.
  destruct (ownProperty obj key) as [old|] eqn:Hown.
  - apply ownProperty_replaceOwn. rewrite Hown. eauto.
  - rewrite bool_decide_false by assumption.
    destruct (arrayIndex key).
    + apply ownProperty_insertIndex. exact Hown.
    + apply ownProperty_app_new. exact Hown.
Qed.

Lemma ownProperty_deleted {V} (k : string) (obj : JSObject V) :
  ownProperty (deleteProp k obj) k = None.
Proof.
  unfold deleteProp. induction obj as [|[k' w] obj IH]; [reflexivity|].
  simpl. destruct (bool_decide (k' = k)) eqn:E; simpl; [exact IH|].
  rewrite E. exact IH.
Qed.

Lemma ownProperty_deleteProp {V} (k key : string) (obj : JSObject V) (v : V) :
  ownProperty (deleteProp k obj) key = Some v -> ownProperty obj key = Some v.
Proof.
  induction obj as [|[k' w] obj IH]; [discriminate|].
  unfold deleteProp. simpl. fold (deleteProp k obj).
  destruct (bool_decide (k' = k)) eqn:E1; simpl.
  - intros H. destruct (bool_decide (k' = key)) eqn:E2; [|auto].
    apply bool_decide_eq_true in E1, E2. subst k key.
    rewrite ownProperty_deleted in H. discriminate.
  - destruct (bool_decide (k' = key)); auto.
Qed.

Lemma ownProperty_evicted {V} (ks : list string) (key : string)
    (obj : JSObject V) (v : V) :
  ownProperty (fold_left (fun evs k => deleteProp k evs) ks obj) key = Some v ->
  ownProperty obj key = Some v.
Proof.
  revert obj. induction ks as [|k ks IH]; simpl; intros obj H; [exact H|].
  apply IH in H. eapply ownProperty_deleteProp. exact H.
Qed.

Lemma getCache_version (item : StoredItem) : version (getCache item) = CACHE_VERSION.
Proof.
  destruct item as [| |c]; try reflexivity. simpl.
  destruct (version c =? CACHE_VERSION) eqn:E; [|reflexivity].
  apply Z.eqb_eq. exact E.
Qed.

Lemma getCache_saveCache (cache : EventCache) :
  version cache = CACHE_VERSION ->
  exists kept,
    getCache (saveCache cache) = {| version := CACHE_VERSION; events := kept |} /\
    (forall key v, ownProperty kept key = Some v ->
                   ownProperty (events cache) key = Some v) /\
    (arr_length (objectKeys (events cache)) <= MAX_CACHE_SIZE ->
     kept = events cache).
Proof.
  intros Hv. unfold saveCache. cbv zeta.
  destruct (Z.gtb_spec (arr_length (objectKeys (events cache))) MAX_CACHE_SIZE)
    as [Hbig|Hsmall].
  - eexists. simpl. rewrite Hv. simpl. split; [reflexivity|]. split.
    + intros key v. apply ownProperty_evicted.
    + intros H. lia.
  - exists (events cache). simpl. rewrite Hv. simpl. split; [reflexivity|].
    split; auto.
Qed.

(** The round trip of the cache, for every name but [__proto__]: an entry
    that the size bound has not evicted is read back as the event that was
    stored, with its date taken through the ISO text and without
    [cachedAt], under every name with the same normal form. *)
Lemma cache_roundtrip (item : StoredItem) (name name' : string)
    (event : HistoricalEvent) (now : Z) (item' : StoredItem) :
  normalizeEventName name' = normalizeEventName name ->
  normalizeEventName name <> "__proto__" ->
  cacheEvent item name event now = Normal item' ->
  is_Some (ownProperty (events (getCache item')) (normalizeEventName name)) ->
  exists iso,
    toISOString (date event) = Normal iso /\
    getCachedEvent item' name' = Cached (withDateOfString event iso).
Proof.
  intros Hnorm Hkey Hcache Hkept. unfold cacheEvent in Hcache.
  destruct (toISOString (date event)) as [iso|]; [|discriminate]. simpl in Hcache.
  injection Hcache as <-. exists iso. split; [reflexivity|].
  destruct (getCache_saveCache
    {| version := version (getCache item);
       events := setProp (normalizeEventName name)
          {| cachedTitle := title event; cachedDate := iso;
             cachedYear := year event; cachedMonth := month event;
             cachedDay := day event;
             cachedWikipediaUrl := wikipediaUrl event;
             cachedDescription := description event; cachedAt := now |}
          (events (getCache item)) |}) as (kept & Hget & Hsub & _).
  { apply getCache_version. }
  unfold getCachedEvent. rewrite Hnorm. rewrite Hget in Hkept |- *. simpl in *.
  destruct Hkept as [v Hv]. pose proof (Hsub _ _ Hv) as Hv'.
  rewrite ownProperty_setProp in Hv' by assumption. injection Hv' as <-.
  unfold getProp. rewrite Hv. reflexivity.
Qed.

Lemma setProp_length {V} (key : string) (v : V) (obj : JSObject V) :
  (length (setProp key v obj) <= S (length obj))%nat.
Proof.
  unfold setProp. destruct (ownProperty obj key).
  - clear. induction obj as [|[k w] obj IH]; simpl; [lia|].
    case_bool_decide; simpl; lia.
  - case_bool_decide; [lia|]. destruct (arrayIndex key) as [n|].
    + clear. induction obj as [|[k w] obj IH]; simpl; [lia|].
      destruct (arrayIndex k) as [m|]; [destruct (m <? n)|]; simpl; lia.
    + rewrite length_app. simpl. lia.
Qed.

(** Below the size bound nothing is evicted. *)
Lemma cache_roundtrip_small (item : StoredItem) (name name' : string)
    (event : HistoricalEvent) (now : Z) (iso : string) :
  normalizeEventName name' = normalizeEventName name ->
  normalizeEventName name <> "__proto__" ->
  fst (getCacheStats item) < MAX_CACHE_SIZE ->
  toISOString (date event) = Normal iso ->
  exists item',
    cacheEvent item name event now = Normal item' /\
    getCachedEvent item' name' = Cached (withDateOfString event iso).
Proof.
  intros Hnorm Hkey Hsize Hiso. unfold cacheEvent. rewrite Hiso. simpl.
  eexists. split; [reflexivity|].
  match goal with |- getCachedEvent (saveCache ?c) _ = _ =>
    destruct (getCache_saveCache c) as (kept & Hget & _ & Hsmall) end.
  { apply getCache_version. }
  unfold getCachedEvent. rewrite Hnorm, Hget. simpl in *.
  rewrite Hsmall.
  - unfold getProp. rewrite ownProperty_setProp by assumption. reflexivity.
  - unfold getCacheStats in Hsize. simpl in Hsize.
    unfold arr_length, objectKeys in *. rewrite length_map in *.
    match goal with |- context [setProp ?k ?v ?o] =>
      pose proof (setProp_length k v o) end. lia.
Qed.

(** C10 (the failing input). Storing an event under the name [__proto__]
    and reading it back under the same name does not return the event:
    nothing is stored, and the read returns an object whose only property
    is an invalid date. *)
Theorem cacheEvent_proto_not_read_back :
  normalizeEventName " __PROTO__ " = normalizeEventName "__proto__" /\
  exists item,
    cacheEvent ItemAbsent "__proto__" hastings 5000 = Normal item /\
    getCacheStats item = (0, 500) /\
    getCachedEvent item " __PROTO__ " = DateOnly InvalidDate /\
    getCachedEvent item " __PROTO__ " <> Cached hastings.
Proof.
  split; [vm_compute; reflexivity|]. eexists.
  split; [vm_compute; reflexivity|].
  split; [vm_compute; reflexivity|].
  split; [vm_compute; reflexivity|]. vm_compute. discriminate.
Qed.

(** * Further properties of the engine *)

(** ** Whose turn is next *)

Lemma aliveAt_range (ps : list Player) (i : Z) :
  aliveAt ps i = true -> 0 <= i < arr_length ps.
Proof.
  unfold aliveAt. destruct (arr_get ps i) as [p|] eqn:E; [|discriminate].
  intros _. eapply arr_get_Some_range. exact E.
Qed.

Lemma nextAliveFrom_scan (ps : list Player) (fuel : nat) (i : Z) :
  0 <= i < arr_length ps ->
  exists k : nat,
    (k <= fuel)%nat /\
    nextAliveFrom ps fuel i = Normal ((i + Z.of_nat k) mod arr_length ps) /\
    (forall k' : nat, (k' < k)%nat ->
       aliveAt ps ((i + Z.of_nat k') mod arr_length ps) = false) /\
    (aliveAt ps ((i + Z.of_nat k) mod arr_length ps) = true \/ k = fuel).
Proof.
  revert i. induction fuel as [|fuel IH]; intros i Hi;
    destruct (arr_get_in_range ps i Hi) as [p Hp]; simpl; rewrite Hp.
  - exists 0%nat. rewrite Z.add_0_r, Z.mod_small by lia.
    split; [lia|]. split; [destruct (isAlive p); reflexivity|].
    split; [intros; lia|]. right. reflexivity.
  - destruct (isAlive p) eqn:Halive.
    + exists 0%nat. rewrite Z.add_0_r, Z.mod_small by lia.
      split; [lia|]. split; [reflexivity|]. split; [intros; lia|].
      left. unfold aliveAt. rewrite Hp. exact Halive.
    + rewrite Z.rem_mod_nonneg by lia.
      destruct (IH ((i + 1) mod arr_length ps)) as (k & Hk & Hres & Hdead & Hlast).
      { apply Z.mod_pos_bound. lia. }
      assert (Hshift : forall n : nat,
                 ((i + 1) mod arr_length ps + Z.of_nat n) mod arr_length ps
                 = (i + Z.of_nat (S n)) mod arr_length ps).
      { intros n. rewrite Zplus_mod_idemp_l. f_equal. lia. }
      exists (S k). split; [lia|]. rewrite <- Hshift. split; [exact Hres|]. split.
      * intros [|k'] Hk'.
        -- rewrite Z.add_0_r, Z.mod_small by lia. unfold aliveAt.
           rewrite Hp. exact Halive.
        -- rewrite <- Hshift. apply Hdead. lia.
      * destruct Hlast as [Hl| ->]; [left; exact Hl | right; reflexivity].
Qed.

Lemma getNextPlayerIndex_scan (gs : GameState) (a : Z) :
  0 <= currentPlayerIndex gs < arr_length (players gs) ->
  aliveAt (players gs) a = true ->
  let len := arr_length (players gs) in
  let cur := currentPlayerIndex gs in
  (exists k,
     0 <= k < len /\
     getNextPlayerIndex gs = Normal ((cur + 1 + k) mod len) /\
     aliveAt (players gs) ((cur + 1 + k) mod len) = true /\
     forall k', 0 <= k' < k ->
       aliveAt (players gs) ((cur + 1 + k') mod len) = false) /\
  ((forall j, aliveAt (players gs) j = true -> j = cur) ->
   getNextPlayerIndex gs = Normal cur).
Proof.
  intros Hcur Ha. cbv zeta.
  pose proof (aliveAt_range _ _ Ha) as Har.
  set (len := arr_length (players gs)) in *.
  set (cur := currentPlayerIndex gs) in *.
  assert (Hscan : exists k,
     0 <= k < len /\
     getNextPlayerIndex gs = Normal ((cur + 1 + k) mod len) /\
     aliveAt (players gs) ((cur + 1 + k) mod len) = true /\
     forall k', 0 <= k' < k ->
       aliveAt (players gs) ((cur + 1 + k') mod len) = false).
  { destruct (nextAliveFrom_scan (players gs) (length (players gs))
                ((cur + 1) mod len)) as (k & Hk & Hres & Hdead & Hlast).
    { apply Z.mod_pos_bound. lia. }
    fold len in Hres, Hdead, Hlast.
    assert (Hshift : forall n, ((cur + 1) mod len + n) mod len = (cur + 1 + n) mod len).
    { intros n. rewrite Zplus_mod_idemp_l. reflexivity. }
    (* the offset of the alive player [a] from the start of the scan *)
    set (k0 := (a - (cur + 1)) mod len).
    assert (Hk0 : 0 <= k0 < len) by (apply Z.mod_pos_bound; lia).
    assert (Ha0 : (cur + 1 + k0) mod len = a).
    { unfold k0. rewrite Zplus_mod_idemp_r.
      replace (cur + 1 + (a - (cur + 1))) with a by lia.
      apply Z.mod_small. lia. }
    assert (Hle : Z.of_nat k <= k0).
    { destruct (Z_le_gt_dec (Z.of_nat k) k0) as [|Hgt]; [assumption|].
      specialize (Hdead (Z.to_nat k0)). rewrite Z2Nat.id, Hshift, Ha0 in Hdead by lia.
      rewrite Hdead in Ha by lia. discriminate. }
    exists (Z.of_nat k). split; [lia|]. split.
    - unfold getNextPlayerIndex. fold len.
      destruct (len =? 0) eqn:E; [apply Z.eqb_eq in E; lia|].
      rewrite Z.rem_mod_nonneg by lia. fold cur. rewrite Hres, Hshift. reflexivity.
    - split.
      + destruct Hlast as [Hl|Hl]; [rewrite <- Hshift; exact Hl|].
        unfold len, arr_length in Hk0. lia.
      + intros k' Hk'. specialize (Hdead (Z.to_nat k')).
        rewrite Z2Nat.id, Hshift in Hdead by lia. apply Hdead. lia. }
  split; [exact Hscan|].
  intros Honly. destruct Hscan as (k & _ & Hres & Halive & _).
  rewrite Hres. f_equal. apply Honly. exact Halive.
Qed.

(** X1. When the current index names a player and some player is alive,
    [getNextPlayerIndex] returns the first alive player after the current
    one in circular order: every player it passes over is eliminated (or
    absent), and the player it returns is alive; so a sole survivor who is
    the current player keeps the turn. *)
Theorem getNextPlayerIndex_skips_eliminated (gs : GameState) (a : Z) :
  0 <= currentPlayerIndex gs < arr_length (players gs) ->
  aliveAt (players gs) a = true ->
  let len := arr_length (players gs) in
  let cur := currentPlayerIndex gs in
  (exists k,
     0 <= k < len /\
     getNextPlayerIndex gs = Normal ((cur + 1 + k) mod len) /\
     aliveAt (players gs) ((cur + 1 + k) mod len) = true /\
     forall k', 0 <= k' < k ->
       aliveAt (players gs) ((cur + 1 + k') mod len) = false) /\
  ((forall j, aliveAt (players gs) j = true -> j = cur) ->
   getNextPlayerIndex gs = Normal cur).
Proof. apply getNextPlayerIndex_scan. Qed.

Lemma getNextPlayerIndex_skips_eliminated_witness :
  getNextPlayerIndex four_player_state = Normal 3.
Proof.
  destruct (getNextPlayerIndex_skips_eliminated four_player_state 3)
    as [(k & Hk & Hres & Halive & Hdead) _];
    [change (0 <= 0 < 4); lia | reflexivity |].
  change (arr_length (players four_player_state)) with 4 in *.
  change (currentPlayerIndex four_player_state) with 0 in *.
  assert (k = 0 \/ k = 1 \/ k = 2 \/ k = 3) as [-> | [-> | [-> | ->]]] by lia.
  - vm_compute in Halive. discriminate Halive.
  - vm_compute in Halive. discriminate Halive.
  - exact Hres.
  - specialize (Hdead 2). vm_compute in Hdead.
    assert (true = false) by (apply Hdead; split; discriminate). discriminate.
Defined.

Lemma alive_player_index (ps : list Player) :
  1 <= arr_length (alivePlayers ps) -> exists a, aliveAt ps a = true.
Proof.
  unfold alivePlayers, arr_length. intros H.
  destruct (List.filter isAlive ps) as [|p l] eqn:E; [simpl in H; lia|].
  assert (Hin : List.In p (List.filter isAlive ps)) by (rewrite E; left; reflexivity).
  apply List.filter_In in Hin as [Hin Halive].
  apply list_elem_of_In, list_elem_of_lookup in Hin as [i Hi].
  exists (Z.of_nat i). unfold aliveAt.
  replace (arr_get ps (Z.of_nat i)) with (Some p); [exact Halive|].
  symmetry. apply arr_get_Some. rewrite Nat2Z.id. split; [lia|exact Hi].
Qed.

(** X2. With a current player and no empty id, [getNextPlayer] returns
    [null] exactly when at most one player is alive, and otherwise the id
    of the alive player at the index that [getNextPlayerIndex] returns: the
    two scans agree. *)
Theorem getNextPlayer_agrees (gs : GameState) :
  0 <= currentPlayerIndex gs < arr_length (players gs) ->
  (forall p, p ∈ players gs -> id p <> "") ->
  (arr_length (alivePlayers (players gs)) <= 1 ->
   getNextPlayer gs = Normal None) /\
  (1 < arr_length (alivePlayers (players gs)) ->
   exists j p,
     getNextPlayerIndex gs = Normal j /\
     arr_get (players gs) j = Some p /\
     isAlive p = true /\
     getNextPlayer gs = Normal (Some (id p))).
Proof.
  intros Hcur Hids. unfold getNextPlayer. cbv zeta. split.
  - intros H. apply Z.leb_le in H. rewrite H. reflexivity.
  - intros H.
    destruct (alive_player_index (players gs)) as [a Ha]; [lia|].
    destruct (getNextPlayerIndex_scan gs a Hcur Ha)
      as [(k & _ & Hres & Halive & _) _].
    unfold aliveAt in Halive.
    destruct (arr_get (players gs) _) as [p|] eqn:Hp; [|discriminate].
    eexists _, p. split; [exact Hres|]. split; [exact Hp|]. split; [exact Halive|].
    destruct (arr_length (alivePlayers (players gs)) <=? 1) eqn:E;
      [apply Z.leb_le in E; lia|].
    unfold getNextPlayerIndex in Hres.
    destruct (arr_length (players gs) =? 0); [discriminate|].
    rewrite Hres. simpl. rewrite Hp. simpl.
    rewrite bool_decide_false; [reflexivity|].
    apply Hids. apply list_elem_of_lookup. apply arr_get_Some in Hp as [_ Hp]. eauto.
Qed.

Lemma getNextPlayer_agrees_witness :
  getNextPlayer four_player_state = Normal (Some "p4") /\
  getNextPlayer (withPlayers four_player_state [alice]) = Normal None.
Proof.
  split.
  - destruct (getNextPlayer_agrees four_player_state) as [_ H];
      [change (0 <= 0 < 4); lia | |].
    { intros p Hp. unfold four_player_state, four_players in Hp. simpl in Hp.
      repeat (apply elem_of_cons in Hp; destruct Hp as [-> | Hp]; [discriminate|]).
      apply elem_of_nil in Hp. destruct Hp. }
    destruct H as (j & p & Hj & Hp & _ & Hnext); [vm_compute; reflexivity|].
    rewrite Hnext. vm_compute in Hj. injection Hj as <-.
    vm_compute in Hp. injection Hp as <-. reflexivity.
  - destruct (getNextPlayer_agrees (withPlayers four_player_state [alice])) as [H _];
      [change (0 <= 0 < 1); lia | | apply H; vm_compute; discriminate].
    intros p Hp. simpl in Hp. apply list_elem_of_singleton in Hp. subst p. discriminate.
Defined.

(** ** Elimination *)

Lemma callBullshit_players (gs : GameState) (caller : string)
    (gs' : GameState) (msg : option string) :
  callBullshit (Some gs) caller = Normal (Some gs', msg) ->
  players gs' =
    map (fun p => if bool_decide (id p = eliminatedPlayerId (processBullshitCall gs caller))
                  then eliminate p else p) (players gs) /\
  phase gs' = (if isGameOver gs' then results else playing).
Proof.
  unfold callBullshit. cbv zeta.
  destruct (arr_get _ _) as [anchor|]; [|discriminate].
  intros [= <- _]. simpl. split; reflexivity.
Qed.

(** X3. Playing never revives or replaces a player: [submitEvent] leaves
    the players as they are, and [callBullshit] keeps every player at its
    place with its id, name and host flag, changes [isAlive] only from true
    to false, and only for a player whose id is the one that
    [processBullshitCall] named. *)
Theorem elimination_is_terminal :
  (forall gs fact now r gs',
     submitEvent (Some gs) fact now = Normal (r, Some gs') ->
     players gs' = players gs) /\
  (forall gs caller gs' msg,
     callBullshit (Some gs) caller = Normal (Some gs', msg) ->
     length (players gs') = length (players gs) /\
     forall i p,
       players gs !! i = Some p ->
       exists p',
         players gs' !! i = Some p' /\
         id p' = id p /\ name p' = name p /\ isHost p' = isHost p /\
         (isAlive p' = true -> isAlive p = true) /\
         (isAlive p' <> isAlive p ->
          id p = eliminatedPlayerId (processBullshitCall gs caller))).
Proof.
  split.
  - intros gs fact now r gs'. unfold submitEvent.
    destruct (isDuplicate (eventChain gs) fact); [intros [= _ <-]; reflexivity|].
    destruct (arr_get (players gs) (currentPlayerIndex gs)); [|discriminate].
    destruct (getNextPlayerIndex gs); [|discriminate]. simpl.
    intros [= _ <-]. reflexivity.
  - intros gs caller gs' msg H. apply callBullshit_players in H as [Hps _].
    rewrite Hps. split; [apply length_map|].
    intros i p Hp. rewrite list_lookup_fmap, Hp. simpl.
    eexists. split; [reflexivity|].
    case_bool_decide as E; simpl.
    + repeat split; try reflexivity; [discriminate | intros _; exact E].
    + repeat split; try reflexivity; [auto | intros Hne; congruence].
Qed.

Lemma elimination_is_terminal_witness :
  exists gs' msg p',
    callBullshit (state_of after_alice_1400) "p-bob" = Normal (Some gs', msg) /\
    players gs' !! 0%nat = Some p' /\ id p' = "p-alice" /\ name p' = "Alice".
Proof.
  destruct elimination_is_terminal as [_ H].
  destruct (callBullshit (state_of after_alice_1400) "p-bob")
    as [[[gs'|] msg]|] eqn:E; try discriminate E.
  destruct (H (default lobby_state (state_of after_alice_1400)) "p-bob" gs' msg E)
    as [_ Hp].
  destruct (Hp 0%nat alice eq_refl) as (p' & Hl & Hid & Hname & _).
  exists gs', msg, p'. split; [reflexivity|]. split; [exact Hl|].
  split; [exact Hid | exact Hname].
Defined.

Lemma eliminate_others_unchanged (target : string) (ps : list Player) :
  target ∉ map id ps ->
  map (fun p => if bool_decide (id p = target) then eliminate p else p) ps = ps.
Proof.
  induction ps as [|p ps IH]; [reflexivity|]. simpl. intros Hnot.
  rewrite not_elem_of_cons in Hnot. destruct Hnot as [Hne Hnot].
  rewrite bool_decide_false by congruence. rewrite IH by assumption. reflexivity.
Qed.

Lemma eliminate_alive_count (target : string) (ps : list Player) :
  NoDup (map id ps) ->
  (length (alivePlayers
     (map (fun p => if bool_decide (id p = target) then eliminate p else p) ps))
   + (if existsb (fun p => bool_decide (id p = target) && isAlive p) ps then 1 else 0)
   = length (alivePlayers ps))%nat.
Proof.
  unfold alivePlayers. induction ps as [|p ps IH]; [reflexivity|].
  simpl map. intros Hnd. apply NoDup_cons in Hnd as [Hnot Hnd].
  simpl existsb. case_bool_decide as E.
  - subst target. rewrite eliminate_others_unchanged by assumption.
    assert (Hnone : existsb (fun q => bool_decide (id q = id p) && isAlive q) ps = false).
    { apply not_true_is_false. intros Hex. apply existsb_exists in Hex as (q & Hq & Hc).
      apply andb_true_iff in Hc as [Hc _]. apply bool_decide_eq_true in Hc.
      apply Hnot. rewrite <- Hc. apply list_elem_of_fmap. exists q.
      split; [reflexivity|]. apply list_elem_of_In. exact Hq. }
    rewrite Hnone, orb_false_r. simpl. destruct (isAlive p); simpl; lia.
  - simpl. specialize (IH Hnd). destruct (isAlive p); simpl; lia.
Qed.

(** X4. When the players have distinct ids, a completed [callBullshit]
    lowers the number of alive players by exactly one if the id that
    [processBullshitCall] named belongs to an alive player, and leaves it
    unchanged otherwise (as for the seed's submitter "system"); the phase
    afterwards is [results] exactly when at most one player is alive, and
    [playing] otherwise. *)
Theorem callBullshit_alive_count
    (gs : GameState) (caller : string) (gs' : GameState) (msg : option string) :
  callBullshit (Some gs) caller = Normal (Some gs', msg) ->
  NoDup (map id (players gs)) ->
  let target := eliminatedPlayerId (processBullshitCall gs caller) in
  let hit := existsb (fun p => bool_decide (id p = target) && isAlive p) (players gs) in
  (length (alivePlayers (players gs')) + (if hit then 1 else 0)
   = length (alivePlayers (players gs)))%nat /\
  (phase gs' = results <-> (length (alivePlayers (players gs')) <= 1)%nat) /\
  (phase gs' = playing <-> (1 < length (alivePlayers (players gs')))%nat).
Proof.
  intros Hcall Hnd. cbv zeta.
  apply callBullshit_players in Hcall as [Hps Hphase].
  split; [rewrite Hps; apply eliminate_alive_count; exact Hnd|].
  rewrite Hphase. unfold isGameOver, arr_length.
  destruct (Z.leb_spec (Z.of_nat (length (alivePlayers (players gs')))) 1);
    split; split; intros H'; try reflexivity; try discriminate; lia.
Qed.

Lemma callBullshit_alive_count_witness :
  exists gs' msg,
    callBullshit (state_of after_alice_1170) "p-bob" = Normal (Some gs', msg) /\
    length (alivePlayers (players gs')) = 1%nat /\
    phase gs' = results.
Proof.
  destruct (callBullshit (state_of after_alice_1170) "p-bob")
    as [[[gs'|] msg]|] eqn:E; try discriminate E.
  destruct (callBullshit_alive_count
              (default lobby_state (state_of after_alice_1170)) "p-bob" gs' msg E)
    as (Hcount & Hres & _).
  { repeat constructor; [|apply not_elem_of_nil].
    intros H. apply list_elem_of_singleton in H. discriminate H. }
  exists gs', msg. split; [reflexivity|].
  assert (Hone : length (alivePlayers (players gs')) = 1%nat).
  { change (length (alivePlayers (players gs')) + 1 = 2)%nat in Hcount. lia. }
  split; [exact Hone|]. apply Hres. lia.
Defined.

(** ** Invariants of the reachable states *)

Lemma isDuplicate_false_iff (chain : list GameEvent) (fact : HistoricalEvent) :
  isDuplicate chain fact = false <-> toLowerCase (title fact) ∉ chainTitles chain.
Proof.
  unfold isDuplicate, chainTitles. induction chain as [|e chain IH]; simpl.
  - split; [intros _; apply not_elem_of_nil | reflexivity].
  - rewrite orb_false_iff, IH, not_elem_of_cons.
    rewrite bool_decide_eq_false. split; intros [H1 H2]; split; auto.
Qed.

Lemma chainTitles_alter_markChecked (w : bool) (i : nat) (chain : list GameEvent) :
  chainTitles (alter (markChecked w) i chain) = chainTitles chain.
Proof.
  unfold chainTitles. revert i. induction chain as [|e chain IH]; intros [|i];
    simpl; try reflexivity. f_equal. apply IH.
Qed.

Lemma callBullshit_anchor (gs : GameState) (caller : string)
    (gs' : GameState) (msg : option string) :
  callBullshit (Some gs) caller = Normal (Some gs', msg) ->
  0 <= lastCheckedEventIndex gs' < arr_length (eventChain gs') /\
  settings gs' = settings gs /\
  exists anchor,
    getAnchorEvent gs' = Some anchor /\
    currentBuffer gs' =
      calculateBuffer (year (event anchor)) (bufferRules (settings gs')).
Proof.
  unfold callBullshit. cbv zeta.
  destruct (arr_get _ _) as [anchor|] eqn:Hanchor; [|discriminate].
  intros [= <- _]. simpl.
  pose proof (arr_get_Some_range _ _ _ Hanchor) as Hr.
  split; [exact Hr|]. split; [reflexivity|]. exists anchor.
  unfold getAnchorEvent. simpl.
  destruct (arr_length _ =? 0) eqn:E; [apply Z.eqb_eq in E; lia|].
  split; [exact Hanchor | reflexivity].
Qed.

Lemma startGame_inv (gs : GameState) (newPlayers : option (list Player))
    (startingEvent : option HistoricalEvent) (now : Z) (gs' : GameState) :
  startGame (Some gs) newPlayers startingEvent now = Some gs' ->
  gs' = gs \/
  exists seed,
    startingEvent = Some seed /\
    2 <= arr_length (players gs') /\
    phase gs' = playing /\
    eventChain gs' =
      [ {| playerId := "system"; playerName := "Game"; event := seed;
           wasChecked := true; wasCorrect := Some true; timestamp := now |} ] /\
    lastCheckedEventIndex gs' = 0 /\
    settings gs' = settings gs /\
    currentBuffer gs' = calculateBuffer (year seed) (bufferRules (settings gs)).
Proof.
  unfold startGame.
  destruct (Z.ltb_spec (arr_length (default (players gs) newPlayers)) 2) as [Hlt|Hge].
  - intros [= <-]. left. reflexivity.
  - destruct startingEvent as [seed|]; intros [= <-]; [|left; reflexivity].
    right. exists seed. simpl. repeat split; try reflexivity. exact Hge.
Qed.

Lemma engineReachable_invariant (gs : GameState) :
  engineReachable gs ->
  anchorInRange gs /\ NoDup (chainTitles (eventChain gs)).
Proof.
  induction 1 as [hostName gid generated hostId gs Hcreate
                 | gs playerName newId gs' _ IH Hjoin
                 | gs ps gs' _ IH Hset
                 | gs new gs' _ IH Hupd
                 | gs newPlayers startingEvent now gs' _ IH Hstart
                 | gs fact now r gs' _ IH Hsubmit
                 | gs caller gs' msg _ IH Hcall].
  - injection Hcreate as <-. split; [left; split; reflexivity | constructor].
  - injection Hjoin as <-. exact IH.
  - injection Hset as <-. exact IH.
  - injection Hupd as <-. exact IH.
  - apply startGame_inv in Hstart
      as [-> | (seed & _ & _ & _ & Hchain & Hidx & _)]; [exact IH|].
    unfold anchorInRange. rewrite Hchain, Hidx. split.
    + right. unfold arr_length. simpl. lia.
    + repeat constructor. apply not_elem_of_nil.
  - destruct IH as [Hanchor Hnd]. revert Hsubmit. unfold submitEvent.
    destruct (isDuplicate (eventChain gs) fact) eqn:Hdup;
      [intros [= _ <-]; split; assumption|].
    destruct (arr_get (players gs) (currentPlayerIndex gs)) as [p|]; [|discriminate].
    destruct (getNextPlayerIndex gs); [|discriminate]. simpl.
    intros [= _ <-]. unfold anchorInRange. simpl. split.
    + right. unfold arr_length. rewrite length_app. simpl.
      destruct Hanchor as [[Hnil ->] | Hr]; [simpl; rewrite Hnil; simpl; lia|].
      unfold arr_length in Hr.
      destruct (lastCheckedEventIndex gs =? -1) eqn:E; [lia|lia].
    + unfold chainTitles. rewrite map_app. simpl.
      apply NoDup_app. split; [exact Hnd|]. split.
      * intros t Ht Hin. apply list_elem_of_singleton in Hin. subst t.
        apply isDuplicate_false_iff in Hdup. apply Hdup. exact Ht.
      * repeat constructor. apply not_elem_of_nil.
  - destruct IH as [_ Hnd].
    pose proof (callBullshit_anchor _ _ _ _ Hcall) as (Hr & _).
    apply callBullshit_inv in Hcall as [_ Hc].
    split; [right; exact Hr|]. rewrite Hc, chainTitles_alter_markChecked. exact Hnd.
Qed.

(** X5. In every state that the operations of the context reach from
    [createGame], the anchor index is -1 with an empty chain or else names
    a chain entry, and no two chain entries have the same title ignoring
    case.  So there is an anchor exactly when the chain is not empty, and
    the branch of [processBullshitCall] for a missing anchor ("Cannot call
    BS on the first event") is never taken. *)
Theorem engine_invariants (gs : GameState) :
  engineReachable gs ->
  anchorInRange gs /\
  NoDup (chainTitles (eventChain gs)) /\
  (getAnchorEvent gs = None <-> eventChain gs = []) /\
  forall caller,
    details (processBullshitCall gs caller) <> "Cannot call BS on the first event".
Proof.
  intros Hreach.
  destruct (engineReachable_invariant gs Hreach) as [Hanchor Hnd].
  assert (Hiff : getAnchorEvent gs = None <-> eventChain gs = []).
  { unfold getAnchorEvent. destruct Hanchor as [[Hnil Hidx] | Hr].
    - rewrite Hnil. simpl. split; reflexivity.
    - destruct (arr_get_in_range _ _ Hr) as [e He]. rewrite He.
      destruct (arr_length (eventChain gs) =? 0) eqn:E;
        [apply Z.eqb_eq in E; lia|].
      split; [discriminate|]. intros Hnil. rewrite Hnil in Hr.
      unfold arr_length in Hr. simpl in Hr. lia. }
  split; [exact Hanchor|]. split; [exact Hnd|]. split; [exact Hiff|].
  intros caller. unfold processBullshitCall.
  destruct (arr_get (eventChain gs) (arr_length (eventChain gs) - 1)) as [lastEvent|] eqn:Hlast;
    [|discriminate].
  destruct (getAnchorEvent gs) as [anchor|].
  - destruct (isValid _); simpl; discriminate.
  - exfalso. destruct Hiff as [Hiff _]. rewrite (Hiff eq_refl) in Hlast.
    discriminate.
Qed.

Lemma engine_invariants_witness :
  anchorInRange (default lobby_state started_state) /\
  details (processBullshitCall (default lobby_state started_state) "p-bob")
    <> "Cannot call BS on the first event".
Proof.
  destruct (engine_invariants (default lobby_state started_state))
    as (Ha & _ & _ & Hd).
  - apply (er_start lobby_state None (Some (named_event "Siege of Lisbon" 1150)) 1000);
      [|reflexivity].
    apply (er_join
             {| gameId := "ABC123"; phase := lobby; players := [alice];
                currentPlayerIndex := 0; eventChain := [];
                settings := DEFAULT_SETTINGS; currentBuffer := 25;
                lastCheckedEventIndex := -1 |} "Bob" "p-bob"); [|reflexivity].
    apply (er_create "Alice" (Some "ABC123") "ZZZZZZ" "p-alice"). reflexivity.
  - split; [exact Ha | apply Hd].
Defined.

(** ** Submissions *)

Lemma submitEvent_success_inv (gs : GameState) (fact : HistoricalEvent) (now : Z)
    (r : SubmitResult) (gs' : GameState) :
  submitEvent (Some gs) fact now = Normal (r, Some gs') ->
  submit_success r = true ->
  exists currentPlayer,
    isDuplicate (eventChain gs) fact = false /\
    arr_get (players gs) (currentPlayerIndex gs) = Some currentPlayer /\
    getNextPlayerIndex gs = Normal (currentPlayerIndex gs') /\
    eventChain gs' =
      eventChain gs ++ [ {| playerId := id currentPlayer;
                            playerName := name currentPlayer;
                            event := fact; wasChecked := false;
                            wasCorrect := None; timestamp := now |} ] /\
    players gs' = players gs /\ settings gs' = settings gs /\ phase gs' = phase gs /\
    lastCheckedEventIndex gs' =
      (if lastCheckedEventIndex gs =? -1 then 0 else lastCheckedEventIndex gs) /\
    currentBuffer gs' = calculateBuffer (year fact) (bufferRules (settings gs)).
Proof.
  unfold submitEvent.
  destruct (isDuplicate (eventChain gs) fact); [intros [= <- _]; discriminate|].
  destruct (arr_get (players gs) (currentPlayerIndex gs)) as [p|]; [|discriminate].
  destruct (getNextPlayerIndex gs) as [j|]; [|discriminate]. simpl.
  intros [= <- <-] _. exists p. simpl. repeat split; reflexivity.
Qed.

Lemma arr_get_app_l {A} (a b : list A) (i : Z) :
  i < arr_length a -> arr_get (a ++ b) i = arr_get a i.
Proof.
  unfold arr_get, arr_length. intros H. destruct (i <? 0) eqn:E; [reflexivity|].
  apply Z.ltb_ge in E. apply lookup_app_l. lia.
Qed.

(** The verdict on a fact submitted in a state with an anchor. *)
Lemma submit_then_challenge (gs : GameState) (anchor : GameEvent)
    (fact : HistoricalEvent) (now : Z) (r : SubmitResult) (gs' : GameState)
    (caller : string) :
  getAnchorEvent gs = Some anchor ->
  submitEvent (Some gs) fact now = Normal (r, Some gs') ->
  submit_success r = true ->
  exists submitter,
    arr_get (players gs) (currentPlayerIndex gs) = Some submitter /\
    let tolerance :=
      calculateBuffer (year (event anchor)) (bufferRules (settings gs)) in
    (0 <= year fact - year (event anchor) <= tolerance ->
     wasEventCorrect (processBullshitCall gs' caller) = true /\
     eliminatedPlayerId (processBullshitCall gs' caller) = caller) /\
    (~ (0 <= year fact - year (event anchor) <= tolerance) ->
     wasEventCorrect (processBullshitCall gs' caller) = false /\
     eliminatedPlayerId (processBullshitCall gs' caller) = id submitter).
Proof.
  intros Hanchor Hsubmit Hok.
  destruct (submitEvent_success_inv gs fact now r gs' Hsubmit Hok)
    as (p & _ & Hp & _ & Hchain & _ & Hset & _ & Hidx & _).
  exists p. split; [exact Hp|]. cbv zeta.
  unfold getAnchorEvent in Hanchor.
  destruct (arr_length (eventChain gs) =? 0); [discriminate|].
  pose proof (arr_get_Some_range _ _ _ Hanchor) as Hr.
  assert (Hanchor' : getAnchorEvent gs' = Some anchor).
  { unfold getAnchorEvent. rewrite Hchain, Hidx.
    destruct (arr_length _ =? 0) eqn:E.
    { apply Z.eqb_eq in E. unfold arr_length in E. rewrite length_app in E.
      simpl in E. lia. }
    destruct (lastCheckedEventIndex gs =? -1) eqn:E1; [apply Z.eqb_eq in E1; lia|].
    rewrite arr_get_app_l by lia. exact Hanchor. }
  unfold processBullshitCall. rewrite Hanchor', Hchain, arr_get_last, Hset. simpl.
  pose proof (isEventWithinBuffer_valid_iff (event anchor) fact
    (calculateBuffer (year (event anchor)) (bufferRules (settings gs)))) as Hv.
  destruct (isValid _); simpl; split; intros Hd.
  - split; reflexivity.
  - exfalso. apply Hd. apply Hv. reflexivity.
  - apply Hv in Hd. discriminate.
  - split; reflexivity.
Qed.

(** X6. After a completed challenge, [currentBuffer] is the tolerance at
    the year of the new anchor, and it is the tolerance that decides the
    next fact: if a fact is then submitted and challenged, the verdict is
    "event correct" (the challenger is eliminated) exactly when the fact's
    year minus the anchor's year lies between 0 and that [currentBuffer],
    and otherwise the submitter, the player whose turn it was, is
    eliminated. *)
Theorem shown_tolerance_decides_next_fact
    (gs0 : GameState) (caller0 : string) (gs1 : GameState) (msg : option string)
    (fact : HistoricalEvent) (now : Z) (r : SubmitResult) (gs2 : GameState)
    (caller : string) :
  callBullshit (Some gs0) caller0 = Normal (Some gs1, msg) ->
  submitEvent (Some gs1) fact now = Normal (r, Some gs2) ->
  submit_success r = true ->
  currentBuffer gs1 =
    calculateBuffer (getCurrentYear gs1) (bufferRules (settings gs1)) /\
  exists submitter,
    arr_get (players gs1) (currentPlayerIndex gs1) = Some submitter /\
    (0 <= year fact - getCurrentYear gs1 <= currentBuffer gs1 ->
     wasEventCorrect (processBullshitCall gs2 caller) = true /\
     eliminatedPlayerId (processBullshitCall gs2 caller) = caller) /\
    (~ (0 <= year fact - getCurrentYear gs1 <= currentBuffer gs1) ->
     wasEventCorrect (processBullshitCall gs2 caller) = false /\
     eliminatedPlayerId (processBullshitCall gs2 caller) = id submitter).
Proof.
  intros Hcall Hsubmit Hok.
  destruct (callBullshit_anchor _ _ _ _ Hcall) as (_ & _ & anchor & Hanchor & Hbuf).
  unfold getCurrentYear. rewrite Hanchor. split; [exact Hbuf|].
  rewrite Hbuf.
  exact (submit_then_challenge gs1 anchor fact now r gs2 caller Hanchor Hsubmit Hok).
Qed.

(** X7. In a started game the seed decides the first fact: after a
    successful [startGame], [currentBuffer] is the tolerance at the seed's
    year, and a fact submitted next and challenged is ruled correct exactly
    when its year minus the seed's year lies between 0 and that tolerance;
    the challenger is eliminated if so, the submitter if not. *)
Theorem seed_decides_first_fact
    (gs0 : GameState) (newPlayers : option (list Player)) (seed : HistoricalEvent)
    (now0 : Z) (gs1 : GameState)
    (fact : HistoricalEvent) (now : Z) (r : SubmitResult) (gs2 : GameState)
    (caller : string) :
  2 <= arr_length (default (players gs0) newPlayers) ->
  startGame (Some gs0) newPlayers (Some seed) now0 = Some gs1 ->
  submitEvent (Some gs1) fact now = Normal (r, Some gs2) ->
  submit_success r = true ->
  currentBuffer gs1 = calculateBuffer (year seed) (bufferRules (settings gs1)) /\
  exists submitter,
    arr_get (players gs1) (currentPlayerIndex gs1) = Some submitter /\
    (0 <= year fact - year seed <= currentBuffer gs1 ->
     wasEventCorrect (processBullshitCall gs2 caller) = true /\
     eliminatedPlayerId (processBullshitCall gs2 caller) = caller) /\
    (~ (0 <= year fact - year seed <= currentBuffer gs1) ->
     wasEventCorrect (processBullshitCall gs2 caller) = false /\
     eliminatedPlayerId (processBullshitCall gs2 caller) = id submitter).
Proof.
  intros Hps Hstart Hsubmit Hok. unfold startGame in Hstart.
  destruct (Z.ltb_spec (arr_length (default (players gs0) newPlayers)) 2); [lia|].
  injection Hstart as <-. simpl. split; [reflexivity|].
  match type of Hsubmit with submitEvent (Some ?g) _ _ = _ =>
    exact (submit_then_challenge g _ fact now r gs2 caller eq_refl Hsubmit Hok) end.
Qed.

Lemma seed_decides_first_fact_witness :
  wasEventCorrect
    (processBullshitCall (default lobby_state (state_of after_alice_1400)) "p-bob")
  = false /\
  eliminatedPlayerId
    (processBullshitCall (default lobby_state (state_of after_alice_1400)) "p-bob")
  = "p-alice".
Proof.
  destruct (seed_decides_first_fact lobby_state None
              (named_event "Siege of Lisbon" 1150) 1000
              (default lobby_state started_state)
              (named_event "Battle of Homildon Hill" 1400) 2000
              {| submit_success := true; message := "Event submitted!" |}
              (default lobby_state (state_of after_alice_1400)) "p-bob")
    as (_ & submitter & Hs & _ & Hbad);
    [vm_compute; discriminate | reflexivity | reflexivity | reflexivity |].
  vm_compute in Hs. injection Hs as <-.
  apply Hbad. vm_compute. intros [_ H]. apply H. reflexivity.
Defined.

Lemma shown_tolerance_decides_next_fact_witness :
  currentBuffer (default lobby_state three_after_challenge) = 25 /\
  wasEventCorrect
    (processBullshitCall (default lobby_state three_after_bob) "p-alice") = true.
Proof.
  destruct (callBullshit three_after_alice "p-carol") as [[[gs1|] msg]|] eqn:E;
    try discriminate E.
  assert (Hgs1 : three_after_challenge = Some gs1).
  { unfold three_after_challenge. rewrite E. reflexivity. }
  destruct (shown_tolerance_decides_next_fact
              (default lobby_state three_after_alice) "p-carol" gs1 msg
              (named_event "Battle of Legnano" 1176) 3000
              {| submit_success := true; message := "Event submitted!" |}
              (default lobby_state three_after_bob) "p-alice")
    as (Hbuf & submitter & _ & Hgood & _).
  - exact E.
  - unfold three_after_bob. rewrite Hgs1. vm_compute in E. injection E as <- _.
    reflexivity.
  - reflexivity.
  - rewrite Hgs1. simpl. vm_compute in E. injection E as <- _.
    split; [reflexivity|]. apply Hgood. vm_compute. split; discriminate.
Defined.

Lemma isDuplicate_app (chain : list GameEvent) (e : GameEvent) (fact : HistoricalEvent) :
  isDuplicate (chain ++ [e]) fact =
  isDuplicate chain fact
  || bool_decide (toLowerCase (title (event e)) = toLowerCase (title fact)).
Proof.
  unfold isDuplicate. rewrite existsb_app. simpl. rewrite orb_false_r. reflexivity.
Qed.

(** X8. Once a fact has been accepted, [submitEvent] rejects every fact
    whose title equals one already in the chain ignoring case, the new
    entry's included, with a failure result and the state unchanged; this
    stays so after challenges, which keep the titles of the chain. *)
Theorem duplicate_titles_stay_rejected
    (gs : GameState) (fact : HistoricalEvent) (now : Z) (r : SubmitResult)
    (gs' : GameState) :
  submitEvent (Some gs) fact now = Normal (r, Some gs') ->
  submit_success r = true ->
  (forall again now',
     toLowerCase (title again) ∈ toLowerCase (title fact) :: chainTitles (eventChain gs) ->
     exists msg,
       submitEvent (Some gs') again now' =
         Normal ({| submit_success := false; message := msg |}, Some gs')) /\
  (forall caller gs'' alerted again now',
     callBullshit (Some gs') caller = Normal (Some gs'', alerted) ->
     toLowerCase (title again) ∈ toLowerCase (title fact) :: chainTitles (eventChain gs) ->
     exists msg,
       submitEvent (Some gs'') again now' =
         Normal ({| submit_success := false; message := msg |}, Some gs'')).
Proof.
  intros Hsubmit Hok.
  destruct (submitEvent_success_inv gs fact now r gs' Hsubmit Hok)
    as (p & _ & _ & _ & Hchain & _).
  assert (Hdup : forall again,
             toLowerCase (title again) ∈ toLowerCase (title fact) :: chainTitles (eventChain gs) ->
             isDuplicate (eventChain gs') again = true).
  { intros again Hin. destruct (isDuplicate (eventChain gs') again) eqn:E; [reflexivity|].
    apply isDuplicate_false_iff in E. exfalso. apply E.
    rewrite Hchain. unfold chainTitles. rewrite map_app. simpl.
    apply elem_of_app. apply elem_of_cons in Hin as [-> | Hin].
    - right. apply list_elem_of_singleton. reflexivity.
    - left. exact Hin. }
  split.
  - intros again now' Hin. unfold submitEvent. rewrite (Hdup again Hin).
    eexists. reflexivity.
  - intros caller gs'' alerted again now' Hcall Hin.
    apply callBullshit_inv in Hcall as [_ Hc].
    assert (Hdup' : isDuplicate (eventChain gs'') again = true).
    { specialize (Hdup again Hin).
      destruct (isDuplicate (eventChain gs'') again) eqn:E; [reflexivity|].
      apply isDuplicate_false_iff in E.
      rewrite Hc, chainTitles_alter_markChecked in E.
      apply isDuplicate_false_iff in E. congruence. }
    unfold submitEvent. rewrite Hdup'. eexists. reflexivity.
Qed.

Lemma duplicate_titles_stay_rejected_witness :
  exists msg,
    submitEvent (state_of after_alice_1170) (named_event "FOUNDING of leipzig" 1165) 9000 =
      Normal ({| submit_success := false; message := msg |}, state_of after_alice_1170).
Proof.
  destruct (duplicate_titles_stay_rejected
              (default lobby_state started_state)
              (named_event "Founding of Leipzig" 1170) 2000
              {| submit_success := true; message := "Event submitted!" |}
              (default lobby_state (state_of after_alice_1170)))
    as [H _]; [reflexivity | reflexivity |].
  apply (H (named_event "FOUNDING of leipzig" 1165) 9000).
  apply elem_of_cons. left. vm_compute. reflexivity.
Defined.

(** X9. A successful [submitEvent] attributes the new entry to the player
    whose turn it was and, when some player is alive, hands the turn to the
    first alive player after that one in circular order, passing over
    eliminated players only; the players themselves are unchanged. *)
Theorem submitEvent_passes_turn
    (gs : GameState) (fact : HistoricalEvent) (now : Z) (r : SubmitResult)
    (gs' : GameState) (a : Z) :
  submitEvent (Some gs) fact now = Normal (r, Some gs') ->
  submit_success r = true ->
  aliveAt (players gs) a = true ->
  let len := arr_length (players gs) in
  let cur := currentPlayerIndex gs in
  (exists submitter entry,
     arr_get (players gs) cur = Some submitter /\
     last (eventChain gs') = Some entry /\
     playerId entry = id submitter /\ playerName entry = name submitter /\
     event entry = fact) /\
  players gs' = players gs /\
  exists k,
    0 <= k < len /\
    currentPlayerIndex gs' = (cur + 1 + k) mod len /\
    aliveAt (players gs') (currentPlayerIndex gs') = true /\
    forall k', 0 <= k' < k ->
      aliveAt (players gs) ((cur + 1 + k') mod len) = false.
Proof.
  intros Hsubmit Hok Ha. cbv zeta.
  destruct (submitEvent_success_inv gs fact now r gs' Hsubmit Hok)
    as (p & _ & Hp & Hnext & Hchain & Hps & _).
  split.
  - eexists p, _. split; [exact Hp|]. rewrite Hchain, last_snoc.
    split; [reflexivity|]. simpl. auto.
  - split; [exact Hps|].
    destruct (getNextPlayerIndex_scan gs a (arr_get_Some_range _ _ _ Hp) Ha)
      as [(k & Hk & Hres & Halive & Hdead) _].
    rewrite Hnext in Hres. injection Hres as Hres.
    exists k. rewrite Hps, Hres. auto.
Qed.

Lemma submitEvent_passes_turn_witness :
  currentPlayerIndex (default lobby_state three_after_bob) = 0.
Proof.
  destruct (submitEvent_passes_turn
              (default lobby_state three_after_challenge)
              (named_event "Battle of Legnano" 1176) 3000
              {| submit_success := true; message := "Event submitted!" |}
              (default lobby_state three_after_bob) 0)
    as (_ & _ & k & Hk & Hidx & Halive & Hdead);
    [vm_compute; reflexivity | reflexivity | vm_compute; reflexivity |].
  change (arr_length (players (default lobby_state three_after_challenge))) with 3 in *.
  change (currentPlayerIndex (default lobby_state three_after_challenge)) with 1 in *.
  assert (k = 0 \/ k = 1 \/ k = 2) as [-> | [-> | ->]] by lia.
  - vm_compute in Hidx. discriminate Hidx.
  - exact Hidx.
  - vm_compute in Hidx. discriminate Hidx.
Defined.

(** ** The default buffer rules *)

Local Ltac split_rules :=
  unfold calculateBuffer, DEFAULT_BUFFER_RULES, ruleCovers; simpl;
  repeat match goal with
         | |- context [?a <=? ?b] => destruct (Z.leb_spec a b); simpl; try lia
         end.

(** X10. Under the default rules the tolerance only tightens as history
    advances: for years 0 <= y1 <= y2 the tolerance at y2 is at most the
    tolerance at y1, and every tolerance lies between 1 and 50 (for every
    year, also one that no rule covers). *)
Theorem default_tolerance_tightens (y1 y2 : Z) :
  (1 <= calculateBuffer y1 DEFAULT_BUFFER_RULES <= 50) /\
  (0 <= y1 <= y2 ->
   calculateBuffer y2 DEFAULT_BUFFER_RULES <= calculateBuffer y1 DEFAULT_BUFFER_RULES).
Proof.
  split.
  - split_rules.
  - intros H. split_rules.
Qed.

Lemma default_tolerance_tightens_witness :
  calculateBuffer 1950 DEFAULT_BUFFER_RULES <= calculateBuffer 1066 DEFAULT_BUFFER_RULES.
Proof.
  destruct (default_tolerance_tightens 1066 1950) as [_ H]. apply H. lia.
Defined.

(** ** The calendar *)

Lemma checkBelow_sound (P : Z -> bool) (n : positive) :
  checkBelow P n = true -> forall i, 0 <= i < Z.pos n -> P i = true.
Proof.
  unfold checkBelow. rewrite Pos2Nat.inj_iter.
  assert (H : forall k : nat,
             let st := Nat.iter k (checkStep P) (0, true) in
             fst st = Z.of_nat k /\
             (snd st = true -> forall i, 0 <= i < Z.of_nat k -> P i = true)).
  { induction k as [|k [IH1 IH2]]; cbv zeta.
    - split; [reflexivity|]. intros _ i Hi. lia.
    - simpl Nat.iter. unfold checkStep at 1. simpl fst. simpl snd. split; [lia|].
      intros Hs i Hi. apply andb_true_iff in Hs as [Hs Hp].
      destruct (Z.eq_dec i (Z.of_nat k)) as [->|Hne].
      + rewrite <- IH1. exact Hp.
      + apply IH2; [exact Hs | lia]. }
  intros Hs i Hi. destruct (H (Pos.to_nat n)) as [_ H2].
  apply H2; [exact Hs | lia].
Qed.

Lemma eraDayOk_all (doe : Z) : 0 <= doe < 146097 -> eraDayOk doe = true.
Proof.
  apply (checkBelow_sound eraDayOk 146097). vm_compute. reflexivity.
Qed.

Lemma eraDateOk_all (i : Z) : 0 <= i < 148800 -> eraDateOk i = true.
Proof.
  apply (checkBelow_sound eraDateOk 148800). vm_compute. reflexivity.
Qed.

Lemma isLeapYear_period (y k : Z) : isLeapYear (y + k * 400) = isLeapYear y.
Proof.
  unfold isLeapYear.
  replace ((y + k * 400) mod 4) with (y mod 4)
    by (replace (k * 400) with (k * 100 * 4) by lia; symmetry; apply Z_mod_plus_full).
  replace ((y + k * 400) mod 100) with (y mod 100)
    by (replace (k * 400) with (k * 4 * 100) by lia; symmetry; apply Z_mod_plus_full).
  replace ((y + k * 400) mod 400) with (y mod 400)
    by (symmetry; apply Z_mod_plus_full).
  reflexivity.
Qed.

Lemma daysInMonth_period (y k m : Z) : daysInMonth (y + k * 400) m = daysInMonth y m.
Proof. unfold daysInMonth. rewrite isLeapYear_period. reflexivity. Qed.

Lemma daysInMonth_bounds (y m : Z) : 28 <= daysInMonth y m <= 31.
Proof.
  unfold daysInMonth. destruct (m =? 2); [destruct (isLeapYear y); lia|].
  destruct ((m =? 4) || (m =? 6) || (m =? 9) || (m =? 11)); lia.
Qed.

Lemma civil_from_days_era (z : Z) :
  civil_from_days z =
  let era := (z + 719468) / 146097 in
  let '(yoe, m, d) := era_fields ((z + 719468) mod 146097) in
  ((if m <=? 2 then yoe + 1 else yoe) + era * 400, m, d).
Proof.
  unfold civil_from_days. cbv zeta.
  replace (z + 719468 - (z + 719468) / 146097 * 146097)
    with ((z + 719468) mod 146097) by (rewrite Z.mod_eq; lia).
  unfold era_fields. cbv zeta.
  match goal with |- context [if ?c then _ else _] => destruct c end;
    f_equal; f_equal; lia.
Qed.

Lemma days_from_civil_era (yoe era m d : Z) :
  0 <= yoe <= 399 ->
  days_from_civil ((if m <=? 2 then yoe + 1 else yoe) + era * 400) m d
  = era * 146097 + day_of_era yoe m d - 719468.
Proof.
  intros Hyoe. unfold days_from_civil, day_of_era. cbv zeta.
  assert (Hy : (if m <=? 2
                then (if m <=? 2 then yoe + 1 else yoe) + era * 400 - 1
                else (if m <=? 2 then yoe + 1 else yoe) + era * 400)
               = yoe + era * 400) by (destruct (m <=? 2); lia).
  rewrite Hy.
  replace ((yoe + era * 400) / 400) with era
    by (rewrite Z.div_add by lia; rewrite Z.div_small by lia; lia).
  replace (yoe + era * 400 - era * 400) with yoe by lia. lia.
Qed.

(** The day number of the date of a day number is that day number, and
    the date is a date of the calendar. *)
Lemma days_from_civil_from_days (z : Z) :
  let '(y, m, d) := civil_from_days z in
  days_from_civil y m d = z /\ 1 <= m <= 12 /\ 1 <= d <= daysInMonth y m.
Proof.
  rewrite civil_from_days_era. cbv zeta.
  pose proof (Z.mod_pos_bound (z + 719468) 146097 ltac:(lia)) as Hdoe.
  pose proof (eraDayOk_all _ Hdoe) as Hok. unfold eraDayOk in Hok.
  destruct (era_fields ((z + 719468) mod 146097)) as [[yoe m] d].
  repeat (apply andb_true_iff in Hok as [Hok ?]).
  repeat match goal with
         | H : (_ <=? _) = true |- _ => apply Z.leb_le in H
         | H : (_ =? _) = true |- _ => apply Z.eqb_eq in H
         end.
  split; [|split; [lia|]].
  - rewrite days_from_civil_era by lia.
    pose proof (Z.div_mod (z + 719468) 146097 ltac:(lia)). lia.
  - rewrite daysInMonth_period. lia.
Qed.

(** The date of the day number of a date of the calendar is that date. *)
Lemma civil_from_days_from_civil (y m d : Z) :
  1 <= m <= 12 -> 1 <= d <= daysInMonth y m ->
  civil_from_days (days_from_civil y m d) = (y, m, d).
Proof.
  intros Hm Hd.
  set (y' := if m <=? 2 then y - 1 else y).
  set (era := y' / 400). set (yoe := y' mod 400).
  assert (Hyoe : 0 <= yoe < 400) by (apply Z.mod_pos_bound; lia).
  assert (Hy' : y' = yoe + era * 400)
    by (unfold yoe, era; pose proof (Z.div_mod y' 400 ltac:(lia)); lia).
  assert (Hy : y = (if m <=? 2 then yoe + 1 else yoe) + era * 400)
    by (unfold y' in Hy'; destruct (m <=? 2); lia).
  pose proof (daysInMonth_bounds y m) as Hb.
  clearbody yoe era. clear Hy' y'.
  set (i := yoe * 372 + (m - 1) * 31 + (d - 1)).
  assert (Hi : 0 <= i < 148800) by (unfold i; lia).
  pose proof (eraDateOk_all i Hi) as Hok. unfold eraDateOk in Hok. cbv zeta in Hok.
  assert (H1 : i / 372 = yoe) by (unfold i; Z.div_mod_to_equations; lia).
  assert (H2 : (i mod 372) / 31 + 1 = m) by (unfold i; Z.div_mod_to_equations; lia).
  assert (H3 : i mod 31 + 1 = d) by (unfold i; Z.div_mod_to_equations; lia).
  rewrite H1, H2, H3 in Hok. clear H1 H2 H3 Hi. clearbody i.
  assert (Hdim : daysInMonth (if m <=? 2 then yoe + 1 else yoe) m = daysInMonth y m).
  { rewrite Hy. rewrite daysInMonth_period. reflexivity. }
  rewrite Hdim in Hok.
  replace (d <=? daysInMonth y m) with true in Hok by (symmetry; apply Z.leb_le; lia).
  apply andb_true_iff in Hok as [Hok Hfields].
  apply andb_true_iff in Hok as [Hlo Hhi].
  apply Z.leb_le in Hlo, Hhi. apply bool_decide_eq_true in Hfields.
  subst y. rewrite days_from_civil_era by lia.
  rewrite civil_from_days_era. cbv zeta.
  replace (era * 146097 + day_of_era yoe m d - 719468 + 719468)
    with (day_of_era yoe m d + era * 146097) by lia.
  rewrite Z_mod_plus_full, Z.mod_small by lia. rewrite Hfields.
  rewrite Z.div_add, Z.div_small by lia. reflexivity.
Qed.

Lemma days_from_civil_day (y m d : Z) :
  days_from_civil y m d = days_from_civil y m 1 + d - 1.
Proof. unfold days_from_civil. cbv zeta. lia. Qed.

Lemma days_from_civil_bounds (y m : Z) :
  0 <= y <= 10000 -> 1 <= m <= 12 ->
  -800000 <= days_from_civil y m 1 <= 3000000.
Proof.
  intros Hy Hm. unfold days_from_civil. cbv zeta.
  destruct (m <=? 2); destruct (m >? 2); Z.div_mod_to_equations; lia.
Qed.

Lemma isLeapYear_two_digit (y : Z) :
  1 <= y <= 99 -> isLeapYear (1900 + y) = isLeapYear y.
Proof.
  intros Hy.
  assert (H : (Bool.eqb (isLeapYear (1900 + y)) (isLeapYear y) || (y =? 0)) = true).
  { apply (checkBelow_sound
             (fun y => Bool.eqb (isLeapYear (1900 + y)) (isLeapYear y) || (y =? 0)) 100);
      [vm_compute; reflexivity | lia]. }
  apply orb_true_iff in H as [H|H]; [apply eqb_prop; exact H|].
  apply Z.eqb_eq in H. lia.
Qed.

(** The local date of [new Date(y, m, d)] for a year from 1 to 2100, a
    month from 0 to 11 and a day from 1 to 31. *)
Lemma newDate_localCivil (tz y m d : Z) :
  Z.abs tz <= msPerDay ->
  1 <= y <= 2100 -> 0 <= m <= 11 -> 1 <= d <= 31 ->
  localCivil tz (newDate tz y m d) =
  Some (civil_from_days
          (days_from_civil (if y <=? 99 then 1900 + y else y) (m + 1) 1 + d - 1)).
Proof.
  intros Htz Hy Hm Hd. unfold newDate. cbv zeta.
  replace ((0 <=? y) && (y <=? 99)) with (y <=? 99)
    by (replace (0 <=? y) with true by (symmetry; apply Z.leb_le; lia); reflexivity).
  rewrite (Z.div_small m 12), (Z.mod_small m 12), Z.add_0_r by lia.
  set (yr := if y <=? 99 then 1900 + y else y).
  assert (Hyr : 0 <= yr <= 10000) by (unfold yr; destruct (y <=? 99); lia).
  pose proof (days_from_civil_bounds yr (m + 1) Hyr ltac:(lia)) as Hb.
  unfold msPerDay in *. unfold timeClip, maxTimeValue.
  match goal with |- context [Z.abs ?t <=? ?b] =>
    replace (Z.abs t <=? b) with true by (symmetry; apply Z.leb_le; lia) end.
  unfold localCivil, msPerDay. f_equal. f_equal.
  match goal with |- (?a - tz + tz) / _ = _ => replace (a - tz + tz) with a by lia end.
  apply Z.div_mul. lia.
Qed.

(** [new Date(y, m, d)] is a midnight of local time. *)
Lemma newDate_localTimeOfDay (tz y m d : Z) :
  Z.abs tz <= msPerDay ->
  1 <= y <= 2100 -> 0 <= m <= 11 -> 1 <= d <= 31 ->
  localTimeOfDay tz (newDate tz y m d) = Some 0.
Proof.
  intros Htz Hy Hm Hd. unfold newDate. cbv zeta.
  replace ((0 <=? y) && (y <=? 99)) with (y <=? 99)
    by (replace (0 <=? y) with true by (symmetry; apply Z.leb_le; lia); reflexivity).
  rewrite (Z.div_small m 12), (Z.mod_small m 12) by lia.
  replace ((if y <=? 99 then 1900 + y else y) + 0)
    with (if y <=? 99 then 1900 + y else y) by lia.
  set (yr := if y <=? 99 then 1900 + y else y).
  assert (Hyr : 0 <= yr <= 10000) by (unfold yr; destruct (y <=? 99); lia).
  pose proof (days_from_civil_bounds yr (m + 1) Hyr ltac:(lia)) as Hb.
  unfold msPerDay in *. unfold timeClip, maxTimeValue.
  match goal with |- context [Z.abs ?t <=? ?b] =>
    replace (Z.abs t <=? b) with true by (symmetry; apply Z.leb_le; lia) end.
  unfold localTimeOfDay, msPerDay. f_equal.
  match goal with |- (?a - tz + tz) mod _ = _ => replace (a - tz + tz) with a by lia end.
  apply Z.mod_mul. lia.
Qed.

Lemma isValidCompleteDate_calendar (tz y m d : Z) :
  Z.abs tz <= msPerDay ->
  (isValidCompleteDate tz y m d = true <->
   1 <= y <= 2100 /\ 0 <= m <= 11 /\ 1 <= d <= daysInMonth y (m + 1)).
Proof.
  intros Htz. unfold isValidCompleteDate.
  destruct (Z.ltb_spec y 1); [simpl; split; [discriminate | lia]|].
  destruct (Z.gtb_spec y 2100); [simpl; split; [discriminate | lia]|].
  destruct (Z.ltb_spec m 0); [simpl; split; [discriminate | lia]|].
  destruct (Z.gtb_spec m 11); [simpl; split; [discriminate | lia]|].
  destruct (Z.ltb_spec d 1); [simpl; split; [discriminate | lia]|].
  pose proof (daysInMonth_bounds y (m + 1)) as Hdim.
  destruct (Z.gtb_spec d 31); [simpl; split; [discriminate | lia]|].
  simpl. unfold getMonth, getDate.
  rewrite newDate_localCivil by lia.
  set (yr := if y <=? 99 then 1900 + y else y).
  assert (Hyr : daysInMonth yr (m + 1) = daysInMonth y (m + 1)).
  { unfold yr. destruct (Z.leb_spec y 99); [|reflexivity].
    unfold daysInMonth. rewrite isLeapYear_two_digit by lia. reflexivity. }
  rewrite <- Hyr.
  set (dn := days_from_civil yr (m + 1) 1 + d - 1).
  pose proof (days_from_civil_from_days dn) as Hrt.
  destruct (civil_from_days dn) as [[Y' m'] d'] eqn:Hcivil. simpl.
  destruct Hrt as (Hdn & Hm' & Hd').
  split.
  - intros Hv.
    destruct (bool_decide (Some (m' - 1) = Some m)) eqn:E1; [|discriminate].
    destruct (bool_decide (Some d' = Some d)) eqn:E2; [|discriminate].
    apply bool_decide_eq_true in E1, E2. injection E1 as E1. injection E2 as E2.
    assert (m' = m + 1) by lia. subst m' d'.
    rewrite days_from_civil_day in Hdn. unfold dn in Hdn.
    assert (Heq : days_from_civil Y' (m + 1) 1 = days_from_civil yr (m + 1) 1) by lia.
    assert (HY : (Y', m + 1, 1) = (yr, m + 1, 1)).
    { pose proof (daysInMonth_bounds yr (m + 1)) as B1.
      pose proof (daysInMonth_bounds Y' (m + 1)) as B2.
      pose proof (civil_from_days_from_civil Y' (m + 1) 1 ltac:(lia) ltac:(lia)) as R1.
      pose proof (civil_from_days_from_civil yr (m + 1) 1 ltac:(lia) ltac:(lia)) as R2.
      rewrite Heq in R1. congruence. }
    injection HY as ->. lia.
  - intros (_ & _ & Hd).
    assert (Hc : civil_from_days dn = (yr, m + 1, d)).
    { unfold dn. rewrite <- days_from_civil_day.
      apply civil_from_days_from_civil; lia. }
    rewrite Hcivil in Hc. injection Hc as -> -> ->.
    replace (m + 1 - 1) with m by lia.
    rewrite !bool_decide_true by reflexivity. reflexivity.
Qed.

(** X11. For a local-time offset of at most a day, [isValidCompleteDate]
    accepts exactly the dates of the Gregorian calendar with a year from 1
    to 2100: the month (counted from 0) is from 0 to 11 and the day is from
    1 to the number of days of that month in that year, leap years
    included. *)
Theorem isValidCompleteDate_iff (tz y m d : Z) :
  Z.abs tz <= msPerDay ->
  (isValidCompleteDate tz y m d = true <->
   1 <= y <= 2100 /\ 0 <= m <= 11 /\ 1 <= d <= daysInMonth y (m + 1)).
Proof. apply isValidCompleteDate_calendar. Qed.

Lemma isValidCompleteDate_iff_witness :
  isValidCompleteDate 3600000 2000 1 29 = true /\
  isValidCompleteDate 3600000 1900 1 29 = false.
Proof.
  pose proof (isValidCompleteDate_iff 3600000 2000 1 29 ltac:(vm_compute; discriminate)) as H1.
  pose proof (isValidCompleteDate_iff 3600000 1900 1 29 ltac:(vm_compute; discriminate)) as H2.
  split.
  - apply H1. vm_compute. repeat split; discriminate.
  - destruct (isValidCompleteDate 3600000 1900 1 29); [|reflexivity].
    destruct H2 as [H2 _]. specialize (H2 eq_refl). vm_compute in H2.
    destruct H2 as (_ & _ & _ & H2). exfalso. apply H2. reflexivity.
Defined.

(** ** What the classifier returns *)

Lemma wellDated_intro (tz y m d : Z) (ev : HistoricalEvent) :
  Z.abs tz <= msPerDay ->
  isValidCompleteDate tz y m d = true ->
  year ev = y -> month ev = m -> day ev = d -> date ev = newDate tz y m d ->
  wellDated tz ev.
Proof.
  intros Htz Hv <- <- <- Hdate.
  apply isValidCompleteDate_calendar in Hv as (Hy & Hm & Hd); [|exact Htz].
  pose proof (daysInMonth_bounds (year ev) (month ev + 1)) as Hdim.
  unfold wellDated. do 4 (split; [assumption|]).
  rewrite Hdate. split; [|apply newDate_localTimeOfDay; lia].
  rewrite newDate_localCivil by lia.
  rewrite <- days_from_civil_day. f_equal.
  apply civil_from_days_from_civil; [lia|].
  destruct (Z.leb_spec (year ev) 99); [|exact Hd].
  unfold daysInMonth. rewrite isLeapYear_two_digit by lia. exact Hd.
Qed.

Lemma lifeEvent_inv (tz : Z) (prefix personName text : string) (y m d : Z)
    (ev : HistoricalEvent) :
  lifeEvent tz prefix personName text y m d = Some ev ->
  isValidCompleteDate tz y m d = true /\
  ev = {| title := prefix +:+ personName; date := newDate tz y m d;
          year := y; month := m; day := d;
          wikipediaUrl := Some ""; description := Some text |}.
Proof.
  unfold lifeEvent. destruct (isValidCompleteDate tz y m d); simpl; [|discriminate].
  intros [= <-]. split; reflexivity.
Qed.

Lemma extractBiographicalDate_inv (tz : Z) (text : option string)
    (personName : string) (ev : HistoricalEvent) :
  Z.abs tz <= msPerDay ->
  extractBiographicalDate tz text personName = Some ev ->
  wellDated tz ev /\
  (title ev = "Birth of " +:+ personName \/ title ev = "Death of " +:+ personName) /\
  exists t, text = Some t /\ isBiographical t = true /\ description ev = Some t.
Proof.
  intros Htz. unfold extractBiographicalDate.
  destruct (presentText text) as [t|] eqn:Ht; [|discriminate].
  assert (text = Some t) as ->.
  { destruct text as [[|c s]|]; simpl in Ht; congruence. }
  destruct (isBiographical t) eqn:Hbio; simpl; [|discriminate].
  intros H.
  repeat match type of H with
         | match regexMatch ?p ?s with _ => _ end = _ =>
             destruct (regexMatch p s)
         end; try discriminate;
    apply lifeEvent_inv in H as [Hv ->];
    (split; [eapply wellDated_intro; eauto; reflexivity|]);
    (split; [simpl; auto | exists t; auto]).
Qed.

Lemma yearOnly_inv (tz : Z) (prefix : option string) (y : Z) (info : DateInfo) :
  Z.abs tz <= msPerDay ->
  yearOnly tz prefix y = Some info ->
  isValidCompleteDate tz (di_year info) (di_month info) (di_day info) = true /\
  di_date info = newDate tz (di_year info) (di_month info) (di_day info) /\
  titlePrefix info = prefix.
Proof.
  intros Htz. unfold yearOnly.
  destruct (Z.leb_spec 1 y); simpl; [|discriminate].
  destruct (Z.leb_spec y 2100); simpl; [|discriminate].
  intros [= <-]. simpl. split; [|split; reflexivity].
  apply isValidCompleteDate_calendar; [exact Htz|].
  pose proof (daysInMonth_bounds y (0 + 1)). lia.
Qed.

Lemma firstCompleteDate_inv (tz : Z)
    (patterns : list (regex * (nat * nat * nat) * option string))
    (text : string) (info : DateInfo) :
  Z.abs tz <= msPerDay ->
  Forall (fun p => okPrefix (snd p)) patterns ->
  firstCompleteDate tz patterns text = Some info ->
  isValidCompleteDate tz (di_year info) (di_month info) (di_day info) = true /\
  di_date info = newDate tz (di_year info) (di_month info) (di_day info) /\
  okPrefix (titlePrefix info).
Proof.
  intros Htz Hok. induction Hok as [|[[pattern [[gy gm] gd]] prefix] others Hp _ IH];
    simpl.
  - unfold yearFallbacks. intros H.
    assert (Hcontext : forall info',
               match regexMatch yearContextPattern text with
               | Some yearContextMatch =>
                   yearOnly tz None (parseInt (capture 2 yearContextMatch))
               | None => None
               end = Some info' ->
               isValidCompleteDate tz (di_year info') (di_month info') (di_day info') = true /\
               di_date info' = newDate tz (di_year info') (di_month info') (di_day info') /\
               okPrefix (titlePrefix info')).
    { intros info' H'. destruct (regexMatch yearContextPattern text); [|discriminate].
      apply yearOnly_inv in H' as (? & ? & ->); [|exact Htz].
      split; [assumption|]. split; [assumption|]. left. reflexivity. }
    destruct (regexMatch yearRangePattern text) as [m|]; [|apply Hcontext; exact H].
    destruct (yearOnly tz (Some "Start of") _) as [info1|] eqn:E;
      [|apply Hcontext; exact H].
    injection H as <-. apply yearOnly_inv in E as (? & ? & ->); [|exact Htz].
    split; [assumption|]. split; [assumption|]. right. reflexivity.
  - destruct (regexMatch pattern text) as [m|]; [|exact IH].
    destruct (isValidCompleteDate tz (parseInt _) _ _) eqn:Hv; simpl; [|discriminate].
    intros [= <-]. simpl. split; [exact Hv|]. split; [reflexivity | exact Hp].
Qed.

Lemma completeDatePatterns_prefixes :
  Forall (fun p => okPrefix (snd p)) completeDatePatterns.
Proof.
  unfold completeDatePatterns.
  repeat (apply Forall_cons; split; [unfold okPrefix; simpl; auto|]).
  apply Forall_nil_2.
Qed.

Lemma eventOfPage_inv (tz : Z) (page : WikipediaPage) (ev : HistoricalEvent) :
  Z.abs tz <= msPerDay ->
  eventOfPage tz (Some page) = Some ev ->
  missing page = false /\
  wellDated tz ev /\
  titleOfPage (pageTitle page) (title ev) /\
  description ev = extract page.
Proof.
  intros Htz. unfold eventOfPage.
  destruct (missing page); [discriminate|]. intros H.
  split; [reflexivity|].
  destruct (extractBiographicalDate tz (extract page) (pageTitle page)) as [bio|] eqn:Hbio.
  - injection H as <-.
    apply extractBiographicalDate_inv in Hbio as (Hw & Ht & t & Hext & _ & Hdesc);
      [|exact Htz].
    split; [exact Hw|]. split; [unfold titleOfPage; tauto|]. congruence.
  - unfold genericEvent in H.
    destruct (isHistoricalEvent _ _); simpl in H; [|discriminate].
    unfold extractDateFromText in H.
    destruct (presentText (extract page)) as [t|]; [|discriminate].
    destruct (firstCompleteDate tz completeDatePatterns t) as [info|] eqn:Hinfo;
      [|discriminate].
    apply firstCompleteDate_inv in Hinfo as (Hv & Hdate & Hprefix);
      [|exact Htz | exact completeDatePatterns_prefixes].
    injection H as <-. split; [eapply wellDated_intro; eauto; reflexivity|].
    split; [|reflexivity]. unfold titleOfPage. simpl.
    destruct Hprefix as [-> | ->]; simpl; auto.
Qed.

Lemma firstDetails_run (tz : Z) (pages : string -> option (option WikipediaPage))
    (results : list WikipediaSearchResult) (w : World) :
  firstDetails tz pages results w =
  (firstClassified tz pages results,
   {| requests := requests w ++ pagesRequested tz pages results;
      localStorage := localStorage w |}).
Proof.
  revert w. induction results as [|result others IH]; intros w; simpl.
  - unfold ret. rewrite app_nil_r. destruct w; reflexivity.
  - destruct (isTimePeriodOrMetaPage (resultTitle result)) eqn:Hmeta; [apply IH|].
    unfold bind. rewrite (getEventDetails_fetched tz pages _ w Hmeta).
    destruct (pages (resultTitle result)) as [page|]; simpl.
    + destruct (eventOfPage tz page) as [ev|]; [reflexivity|].
      rewrite IH. simpl. rewrite <- app_assoc. reflexivity.
    + rewrite IH. simpl. rewrite <- app_assoc. reflexivity.
Qed.

Lemma pagesRequested_titles (tz : Z) (pages : string -> option (option WikipediaPage))
    (results : list WikipediaSearchResult) (t : string) :
  PageRequest t ∈ pagesRequested tz pages results ->
  isTimePeriodOrMetaPage t = false /\
  exists result, result ∈ results /\ resultTitle result = t.
Proof.
  induction results as [|result others IH]; simpl; intros Hin.
  - apply elem_of_nil in Hin. destruct Hin.
  - destruct (isTimePeriodOrMetaPage (resultTitle result)) eqn:Hmeta.
    + destruct (IH Hin) as (Hm & r & Hr & Ht). split; [exact Hm|].
      exists r. split; [apply elem_of_cons; right; exact Hr | exact Ht].
    + apply elem_of_cons in Hin as [[= ->] | Hin].
      * split; [exact Hmeta|]. exists result. split; [apply elem_of_cons; left|]; reflexivity.
      * destruct (pages (resultTitle result) ≫= eventOfPage tz);
          [apply elem_of_nil in Hin; destruct Hin|].
        destruct (IH Hin) as (Hm & r & Hr & Ht). split; [exact Hm|].
        exists r. split; [apply elem_of_cons; right; exact Hr | exact Ht].
Qed.

Lemma samplePages_plain : plainPages samplePages.
Proof.
  intros t page. unfold samplePages.
  repeat case_bool_decide; intros [= <-]; vm_compute; reflexivity.
Qed.

Lemma sampleSearch_plain (query : string) (limit : Z) :
  plainResults (sampleSearch query limit).
Proof. eexists. split; [reflexivity|]. repeat constructor. Qed.

(** X12. When Wikipedia answers the search with a list of results, and the
    titles of the results and the pages are of 7-bit text, [validateEvent]
    sends one search request for the text, then one page request for each
    result, in the order of the results, that is not a time period or meta
    page, up to the first whose page yields an event, and returns that
    event ([null] if there is none): the ranking of the source decides, a
    time period or meta page is never requested, and the cache item is
    left alone. *)
Theorem validateEvent_first_in_rank_order
    (tz : Z) (search : string -> Z -> option (list WikipediaSearchResult))
    (pages : string -> option (option WikipediaPage))
    (eventName : string) (results : list WikipediaSearchResult) (w : World) :
  plainPages pages ->
  search eventName 10 = Some results ->
  Forall (fun result => asciiOnly (resultTitle result) = true) results ->
  validateEvent tz search pages eventName w =
    (firstClassified tz pages results,
     {| requests := requests w
                    ++ SearchRequest eventName 10 :: pagesRequested tz pages results;
        localStorage := localStorage w |}) /\
  (forall t, PageRequest t ∈ pagesRequested tz pages results ->
     isTimePeriodOrMetaPage t = false /\
     exists result, result ∈ results /\ resultTitle result = t) /\
  (length (pagesRequested tz pages results) <= length results)%nat.
Proof.
  intros _ Hsearch _. split; [|split].
  - unfold validateEvent, searchWikipediaEvents, bind, send, ret. simpl.
    rewrite Hsearch. simpl.
    destruct (arr_length results =? 0) eqn:E.
    + apply Z.eqb_eq in E. unfold arr_length in E.
      destruct results; [reflexivity | simpl in E; lia].
    + rewrite firstDetails_run. simpl. rewrite <- app_assoc. reflexivity.
  - apply pagesRequested_titles.
  - clear Hsearch. induction results as [|result others IH]; simpl; [lia|].
    destruct (isTimePeriodOrMetaPage (resultTitle result)); [lia|].
    destruct (pages (resultTitle result) ≫= eventOfPage tz); simpl; lia.
Qed.

Lemma validateEvent_first_in_rank_order_witness :
  validateEvent 0 sampleSearch samplePages "battle of hastings" fresh_world =
  (Some hastings_classified,
   {| requests := [SearchRequest "battle of hastings" 10;
                   PageRequest "Battle of Hastings"];
      localStorage := localStorage fresh_world |}).
Proof.
  destruct (validateEvent_first_in_rank_order 0 sampleSearch samplePages
              "battle of hastings" _ fresh_world samplePages_plain eq_refl)
    as [H _]; [repeat constructor|].
  rewrite H. vm_compute. reflexivity.
Defined.

Lemma firstClassified_inv (tz : Z) (pages : string -> option (option WikipediaPage))
    (results : list WikipediaSearchResult) (ev : HistoricalEvent) :
  firstClassified tz pages results = Some ev ->
  exists result page,
    result ∈ results /\
    isTimePeriodOrMetaPage (resultTitle result) = false /\
    pages (resultTitle result) = Some (Some page) /\
    eventOfPage tz (Some page) = Some ev.
Proof.
  induction results as [|result others IH]; simpl; [discriminate|].
  intros H.
  assert (Hlater : firstClassified tz pages others = Some ev ->
                   exists r page, r ∈ result :: others /\
                     isTimePeriodOrMetaPage (resultTitle r) = false /\
                     pages (resultTitle r) = Some (Some page) /\
                     eventOfPage tz (Some page) = Some ev).
  { intros H'. destruct (IH H') as (r & page & Hr & Hrest).
    exists r, page. split; [apply elem_of_cons; right; exact Hr | exact Hrest]. }
  destruct (isTimePeriodOrMetaPage (resultTitle result)) eqn:Hmeta; [auto|].
  destruct (pages (resultTitle result)) as [[page|]|] eqn:Hpage;
    [|apply Hlater; exact H | apply Hlater; exact H].
  change (Some (Some page) ≫= eventOfPage tz) with (eventOfPage tz (Some page)) in H.
  destruct (eventOfPage tz (Some page)) as [ev'|] eqn:Hev; [|auto].
  injection H as ->. exists result, page.
  split; [apply elem_of_cons; left; reflexivity|]. auto.
Qed.

(** X13. For a local-time offset of at most a day, when Wikipedia answers
    the search with a list of results and the titles of the results and
    the pages are of 7-bit text, every event that [validateEvent] returns
    is well dated: its year is from 1 to 2100, its month and day name a
    real day of the Gregorian calendar, and its [date] is
    [new Date(year, month, day)], which is the local midnight of that day
    for a year from 100 on, and the local midnight of the same day and
    month of the year 1900 + year for a year from 1 to 99; it comes from
    the page of a search result that is not a time period or meta page,
    and its title is the page's title, bare or after "Start of ",
    "Birth of " or "Death of ". *)
Theorem validateEvent_well_dated
    (tz : Z) (search : string -> Z -> option (list WikipediaSearchResult))
    (pages : string -> option (option WikipediaPage))
    (eventName : string) (w : World) (ev : HistoricalEvent) :
  Z.abs tz <= msPerDay ->
  plainPages pages ->
  plainResults (search eventName 10) ->
  fst (validateEvent tz search pages eventName w) = Some ev ->
  wellDated tz ev /\
  exists results result page,
    search eventName 10 = Some results /\
    result ∈ results /\
    isTimePeriodOrMetaPage (resultTitle result) = false /\
    pages (resultTitle result) = Some (Some page) /\
    missing page = false /\
    titleOfPage (pageTitle page) (title ev) /\
    description ev = extract page.
Proof.
  intros Htz _ (results & Hsearch & _) Hev.
  assert (Hrun : fst (validateEvent tz search pages eventName w)
                 = firstClassified tz pages results).
  { unfold validateEvent, searchWikipediaEvents, bind, send, ret. simpl.
    rewrite Hsearch. simpl.
    destruct (arr_length results =? 0) eqn:E.
    - apply Z.eqb_eq in E. unfold arr_length in E.
      destruct results; [reflexivity | simpl in E; lia].
    - rewrite firstDetails_run. reflexivity. }
  rewrite Hrun in Hev.
  apply firstClassified_inv in Hev as (result & page & Hin & Hmeta & Hpage & Hev).
  apply eventOfPage_inv in Hev as (Hmissing & Hw & Ht & Hd); [|exact Htz].
  split; [exact Hw|]. exists results, result, page. auto 10.
Qed.

Lemma validateEvent_well_dated_witness :
  fst (validateEvent 0 sampleSearch samplePages "battle of hastings" fresh_world)
  = Some hastings_classified /\
  wellDated 0 hastings_classified /\
  localCivil 0 (date hastings_classified) = Some (1066, 10, 14) /\
  localTimeOfDay 0 (date hastings_classified) = Some 0.
Proof.
  assert (Hrun : fst (validateEvent 0 sampleSearch samplePages "battle of hastings"
                        fresh_world) = Some hastings_classified)
    by (vm_compute; reflexivity).
  destruct (validateEvent_well_dated 0 sampleSearch samplePages
              "battle of hastings" fresh_world hastings_classified) as [H _];
    [vm_compute; discriminate | exact samplePages_plain | apply sampleSearch_plain
    | exact Hrun |].
  split; [exact Hrun|]. split; [exact H|].
  destruct H as (_ & _ & _ & _ & H). exact H.
Defined.

(** ** The seed event *)

Lemma collectDetails_inv (tz : Z) (startYear endYear : Z)
    (details : option HistoricalEvent) (validEvents : list HistoricalEvent)
    (P : HistoricalEvent -> Prop) :
  Forall (fun e => startYear <= year e <= endYear /\ P e) validEvents ->
  NoDup (map title validEvents) ->
  arr_length validEvents < maxEventsToCollect ->
  (forall e, details = Some e -> P e) ->
  let v := collectDetails startYear endYear details validEvents in
  Forall (fun e => startYear <= year e <= endYear /\ P e) v /\
  NoDup (map title v) /\ arr_length v <= maxEventsToCollect.
Proof.
  intros Hall Hnd Hlen HP. cbv zeta. unfold collectDetails.
  destruct details as [d|]; [|split; [assumption|split; [assumption|lia]]].
  destruct (Z.leb_spec startYear (year d)); simpl;
    [|split; [assumption|split; [assumption|lia]]].
  destruct (Z.leb_spec (year d) endYear); simpl;
    [|split; [assumption|split; [assumption|lia]]].
  destruct (existsb _ validEvents) eqn:Hex;
    [split; [assumption|split; [assumption|lia]]|].
  split; [|split].
  - apply Forall_app. split; [assumption|]. repeat constructor; try lia.
    apply HP. reflexivity.
  - rewrite map_app. simpl. apply NoDup_app. split; [assumption|]. split.
    + intros t Ht Hin. apply list_elem_of_singleton in Hin. subst t.
      apply list_elem_of_fmap in Ht as (e & Hte & He).
      assert (existsb (fun e => bool_decide (title e = title d)) validEvents = true);
        [|congruence].
      apply existsb_exists. exists e. split; [apply list_elem_of_In; exact He|].
      apply bool_decide_eq_true. congruence.
    + repeat constructor. apply not_elem_of_nil.
  - unfold arr_length in *. rewrite length_app. simpl. unfold maxEventsToCollect in *. lia.
Qed.

Lemma collectFromResults_inv (tz : Z)
    (pages : string -> option (option WikipediaPage))
    (startYear endYear : Z) (P : HistoricalEvent -> Prop)
    (results : list WikipediaSearchResult) :
  (forall result, result ∈ results ->
     forall w e, fst (getEventDetails tz pages (resultTitle result) w) = Some e -> P e) ->
  forall validEvents w,
  Forall (fun e => startYear <= year e <= endYear /\ P e) validEvents ->
  NoDup (map title validEvents) ->
  arr_length validEvents <= maxEventsToCollect ->
  let v := fst (collectFromResults tz pages startYear endYear results validEvents w) in
  Forall (fun e => startYear <= year e <= endYear /\ P e) v /\
  NoDup (map title v) /\ arr_length v <= maxEventsToCollect.
Proof.
  induction results as [|result others IH]; intros HP validEvents w Hall Hnd Hlen;
    cbv zeta; simpl.
  - auto.
  - assert (HP' : forall r, r ∈ others ->
              forall w e, fst (getEventDetails tz pages (resultTitle r) w) = Some e -> P e)
      by (intros r Hr; apply HP; apply elem_of_cons; right; exact Hr).
    destruct (Z.geb_spec (arr_length validEvents) maxEventsToCollect); [simpl; auto|].
    destruct (isTimePeriodOrMetaPage (resultTitle result)); [apply IH; assumption|].
    unfold bind.
    destruct (getEventDetails tz pages (resultTitle result) w) as [details w'] eqn:Hd.
    destruct (collectDetails_inv tz startYear endYear details validEvents P Hall Hnd)
      as (H1 & H2 & H3); [lia | |apply IH; assumption].
    intros e ->. apply (HP result (ltac:(apply elem_of_cons; left; reflexivity)) w).
    rewrite Hd. reflexivity.
Qed.

Lemma collectFromTerms_inv (tz : Z)
    (search : string -> Z -> option (list WikipediaSearchResult))
    (pages : string -> option (option WikipediaPage))
    (startYear endYear : Z) (P : HistoricalEvent -> Prop)
    (terms : list string) :
  (forall term results result, term ∈ terms -> search term 15 = Some results ->
     result ∈ results ->
     forall w e, fst (getEventDetails tz pages (resultTitle result) w) = Some e -> P e) ->
  forall validEvents w,
  Forall (fun e => startYear <= year e <= endYear /\ P e) validEvents ->
  NoDup (map title validEvents) ->
  arr_length validEvents <= maxEventsToCollect ->
  let v := fst (collectFromTerms tz search pages startYear endYear terms validEvents w) in
  Forall (fun e => startYear <= year e <= endYear /\ P e) v /\
  NoDup (map title v) /\ arr_length v <= maxEventsToCollect.
Proof.
  induction terms as [|term others IH]; intros HP validEvents w Hall Hnd Hlen;
    cbv zeta; simpl.
  - auto.
  - assert (HP' : forall t results result, t ∈ others -> search t 15 = Some results ->
              result ∈ results ->
              forall w e, fst (getEventDetails tz pages (resultTitle result) w) = Some e -> P e)
      by (intros t rs r Ht; apply HP; apply elem_of_cons; right; exact Ht).
    destruct (Z.geb_spec (arr_length validEvents) maxEventsToCollect); [simpl; auto|].
    unfold bind, searchWikipediaEvents, send, ret. simpl.
    set (w1 := {| requests := requests w ++ [SearchRequest term 15];
                  localStorage := localStorage w |}).
    assert (Hres : forall result, result ∈ default [] (search term 15) ->
              forall w e, fst (getEventDetails tz pages (resultTitle result) w) = Some e -> P e).
    { destruct (search term 15) as [results|] eqn:Hs; simpl.
      - intros result Hin. apply (HP term results result); [|exact Hs|exact Hin].
        apply elem_of_cons; left; reflexivity.
      - intros result Hin. apply elem_of_nil in Hin. destruct Hin. }
    pose proof (collectFromResults_inv tz pages startYear endYear P
                  (default [] (search term 15)) Hres
                  validEvents w1 Hall Hnd Hlen) as Hinner. cbv zeta in Hinner.
    destruct (collectFromResults tz pages startYear endYear
                (default [] (search term 15)) validEvents w1)
      as [v w2]. simpl in Hinner. destruct Hinner as (H1 & H2 & H3).
    apply IH; assumption.
Qed.

(** What [getEventDetails] returns is the event of the page of that title,
    no time period or meta page. *)
Lemma getEventDetails_inv (tz : Z)
    (pages : string -> option (option WikipediaPage)) (t : string) (w : World)
    (e : HistoricalEvent) :
  fst (getEventDetails tz pages t w) = Some e ->
  isTimePeriodOrMetaPage t = false /\
  exists page, pages t = Some (Some page) /\ eventOfPage tz (Some page) = Some e.
Proof.
  unfold getEventDetails.
  destruct (isTimePeriodOrMetaPage t); [discriminate|].
  unfold bind, send, ret. simpl.
  destruct (pages t) as [[page|]|]; simpl; try discriminate.
  intros H. split; [reflexivity|]. exists page. split; [reflexivity | exact H].
Qed.

Lemma getEventDetails_well_dated (tz : Z)
    (pages : string -> option (option WikipediaPage)) (t : string) (w : World)
    (e : HistoricalEvent) :
  Z.abs tz <= msPerDay ->
  fst (getEventDetails tz pages t w) = Some e -> wellDated tz e.
Proof.
  intros Htz. unfold getEventDetails.
  destruct (isTimePeriodOrMetaPage t); [discriminate|].
  unfold bind, send, ret. simpl.
  destruct (pages t) as [[page|]|]; simpl; try discriminate.
  intros H. apply eventOfPage_inv in H as (_ & Hw & _); [exact Hw | exact Htz].
Qed.

(** X14. For a local-time offset of at most a day, when Wikipedia answers
    the search for each phrase with a list of results and the titles of
    the results and the pages are of 7-bit text: the events that
    [fetchStartingEvent] has collected for a century c when its loops end
    are at most ten, of pairwise distinct titles, each with its year in
    that century, from (c-1)*100 to (c-1)*100+99, each well dated (its
    [date] is [new Date(year, month, day)], the local midnight of a real
    day, in the year 1900 + year for a year from 1 to 99) and each the
    event of the page of a result of the search for one of the phrases;
    [fetchStartingEvent] returns the collected event at the random index,
    or [null] when none was collected; and when the random index is below
    their number, [null] is returned only if none was collected. *)
Theorem fetchStartingEvent_in_century
    (tz : Z) (search : string -> Z -> option (list WikipediaSearchResult))
    (pages : string -> option (option WikipediaPage))
    (randomIndex : Z -> Z) (century : Z) (w : World) :
  Z.abs tz <= msPerDay ->
  plainPages pages ->
  (forall term, term ∈ searchTerms century -> plainResults (search term 15)) ->
  let validEvents := collectedEvents tz search pages century w in
  seedCandidates century validEvents /\
  Forall (fun e => wellDated tz e /\
                   fromSearch tz search pages (searchTerms century) e) validEvents /\
  fst (fetchStartingEvent tz search pages randomIndex century w)
  = (if arr_length validEvents >? 0
     then arr_get validEvents (randomIndex (arr_length validEvents))
     else None) /\
  (forall seed,
     fst (fetchStartingEvent tz search pages randomIndex century w) = Some seed ->
     seed ∈ validEvents /\
     (century - 1) * 100 <= year seed <= (century - 1) * 100 + 99 /\
     wellDated tz seed) /\
  ((forall n, 0 < n -> 0 <= randomIndex n < n) ->
   (fst (fetchStartingEvent tz search pages randomIndex century w) = None <->
    validEvents = [])).
Proof.
  intros Htz _ _. cbv zeta. unfold collectedEvents.
  unfold fetchStartingEvent. cbv zeta. unfold bind.
  pose proof (collectFromTerms_inv tz search pages
                ((century - 1) * 100) ((century - 1) * 100 + 99)
                (fun e => wellDated tz e /\
                          fromSearch tz search pages (searchTerms century) e)
                (searchTerms century)) as Hinv.
  specialize (Hinv ltac:(
    intros term results result Hterm Hsearch Hin w0 e He;
    pose proof (getEventDetails_inv tz pages _ w0 e He) as (Hmeta & page & Hpage & Hev);
    split;
    [ apply eventOfPage_inv in Hev as (_ & Hw & _); [exact Hw | exact Htz]
    | exists term, results, result, page; auto 10 ])).
  specialize (Hinv [] w (Forall_nil_2 _) (NoDup_nil_2) ltac:(vm_compute; discriminate)).
  cbv zeta in Hinv.
  destruct (collectFromTerms tz search pages _ _ (searchTerms century) [] w)
    as [validEvents w'] eqn:Hrun. simpl in Hinv. destruct Hinv as (Hall & Hnd & Hlen).
  cbn [fst].
  assert (Hyears : Forall (fun e => (century - 1) * 100 <= year e <= (century - 1) * 100 + 99)
                          validEvents)
    by (eapply Forall_impl; [exact Hall | intros e [H _]; exact H]).
  assert (Hdated : Forall (fun e => wellDated tz e /\
                     fromSearch tz search pages (searchTerms century) e) validEvents)
    by (eapply Forall_impl; [exact Hall | intros e [_ H]; exact H]).
  split; [split; [exact Hyears | split; [exact Hnd | exact Hlen]]|].
  split; [exact Hdated|]. split; [|split].
  - destruct (arr_length validEvents >? 0); reflexivity.
  - intros seed. destruct (Z.gtb_spec (arr_length validEvents) 0); [|discriminate].
    unfold ret. simpl. intros Hget.
    apply arr_get_Some in Hget as [_ Hget].
    assert (Hin : seed ∈ validEvents) by (apply list_elem_of_lookup; eauto).
    split; [exact Hin|]. split.
    + rewrite Forall_forall in Hyears. apply Hyears. exact Hin.
    + rewrite Forall_forall in Hdated. apply Hdated. exact Hin.
  - intros Hrandom. destruct (Z.gtb_spec (arr_length validEvents) 0) as [Hpos|Hzero];
      unfold ret; simpl.
    + destruct (arr_get_in_range validEvents (randomIndex (arr_length validEvents)))
        as [e He]; [apply Hrandom; exact Hpos|]. rewrite He.
      split; [discriminate|]. intros ->. unfold arr_length in Hpos. simpl in Hpos. lia.
    + split; [|reflexivity]. intros _. unfold arr_length in Hzero.
      destruct validEvents; [reflexivity | simpl in Hzero; lia].
Qed.

Lemma fetchStartingEvent_in_century_witness :
  collectedEvents 0 sampleSearch samplePages 11 fresh_world
  = [hastings_classified; harold_classified] /\
  fst (fetchStartingEvent 0 sampleSearch samplePages (fun _ => 0) 11 fresh_world)
    = Some hastings_classified /\
  1000 <= year hastings_classified <= 1099.
Proof.
  destruct (fetchStartingEvent_in_century 0 sampleSearch samplePages (fun _ => 0) 11
              fresh_world) as (_ & _ & Hrun & Hseed & _);
    [vm_compute; discriminate | exact samplePages_plain
    | intros term _; apply sampleSearch_plain |].
  assert (Hcollected : collectedEvents 0 sampleSearch samplePages 11 fresh_world
                       = [hastings_classified; harold_classified])
    by (vm_compute; reflexivity).
  rewrite Hcollected in Hrun.
  split; [exact Hcollected|]. split; [exact Hrun|].
  destruct (Hseed hastings_classified) as (_ & Hyear & _); [exact Hrun | exact Hyear].
Defined.

(** ** ISO dates *)

Lemma append_length (a b : string) :
  String.length (a +:+ b) = (String.length a + String.length b)%nat.
Proof. induction a as [|c a IH]; simpl; [reflexivity | rewrite IH; reflexivity]. Qed.

Lemma substring_take (a b : string) (p : nat) :
  String.length a = p -> String.substring 0 p (a +:+ b) = a.
Proof.
  revert p. induction a as [|c a IH]; intros p <-; simpl.
  - destruct b; reflexivity.
  - rewrite IH by reflexivity. reflexivity.
Qed.

Lemma substring_skip (a b : string) (p k n : nat) :
  String.length a = p ->
  String.substring (p + k) n (a +:+ b) = String.substring k n b.
Proof.
  revert p. induction a as [|c a IH]; intros p <-; simpl; [reflexivity|].
  apply IH. reflexivity.
Qed.

Lemma substring_skip_0 (a b : string) (p n : nat) :
  String.length a = p ->
  String.substring p n (a +:+ b) = String.substring 0 n b.
Proof.
  intros H. rewrite <- (Nat.add_0_r p) at 1. apply substring_skip. exact H.
Qed.

Lemma pretty_N_char_digit (r : N) :
  (r < 10)%N ->
  isDigit (pretty_N_char r) = true /\
  Z.of_N (N_of_ascii (pretty_N_char r) - 48) = Z.of_N r.
Proof.
  intros H.
  assert (r = 0 \/ r = 1 \/ r = 2 \/ r = 3 \/ r = 4 \/ r = 5 \/ r = 6 \/ r = 7
          \/ r = 8 \/ r = 9)%N
    as [-> | [-> | [-> | [-> | [-> | [-> | [-> | [-> | [-> | ->]]]]]]]]] by lia;
    split; reflexivity.
Qed.

Lemma digitsValue_pretty_go (x : N) (s : string) :
  digitsValue 0 (pretty_N_go x s) = digitsValue (Z.of_N x) s.
Proof.
  revert s. induction (N.lt_wf_0 x) as [x _ IH]. intros s.
  destruct (N.eq_dec x 0%N) as [->|Hne]; [rewrite pretty_N_go_0; reflexivity|].
  rewrite pretty_N_go_step by lia.
  rewrite IH by (apply N.div_lt; lia). simpl.
  destruct (pretty_N_char_digit (x mod 10)) as [Hd Hv];
    [apply N.mod_lt; discriminate|].
  rewrite Hd, Hv. f_equal.
  rewrite (N.div_mod x 10) at 3 by discriminate. lia.
Qed.

Lemma length_pretty_go (x : N) (s : string) (w : nat) :
  Z.of_N x < 10 ^ Z.of_nat w ->
  (String.length (pretty_N_go x s) <= w + String.length s)%nat.
Proof.
  revert s w. induction (N.lt_wf_0 x) as [x _ IH]. intros s w Hx.
  destruct (N.eq_dec x 0%N) as [->|Hne]; [rewrite pretty_N_go_0; lia|].
  rewrite pretty_N_go_step by lia.
  destruct w as [|w]; [simpl in Hx; lia|].
  specialize (IH (x / 10)%N ltac:(apply N.div_lt; lia)
                 (String (pretty_N_char (x mod 10)) s) w).
  simpl String.length in IH. rewrite Nat.add_succ_l, <- Nat.add_succ_r. apply IH.
  rewrite Nat2Z.inj_succ, Z.pow_succ_r in Hx by lia.
  rewrite N2Z.inj_div. change (Z.of_N 10) with 10.
  apply Z.div_lt_upper_bound; lia.
Qed.

Lemma zeros_cons (k : nat) :
  String.concat "" (replicate (S k) "0") = String "0" (String.concat "" (replicate k "0")).
Proof. destruct k; reflexivity. Qed.

Lemma zeros_spec (k : nat) (r : string) :
  String.length (String.concat "" (replicate k "0")) = k /\
  digitsValue 0 (String.concat "" (replicate k "0") +:+ r) = digitsValue 0 r.
Proof.
  induction k as [|k [IH1 IH2]]; [split; reflexivity|].
  rewrite zeros_cons. simpl. rewrite IH1. split; [reflexivity | exact IH2].
Qed.

(** [padStart] gives [width] characters that read back as the number. *)
Lemma padStart_spec (width : nat) (n : Z) :
  (1 <= width)%nat -> 0 <= n < 10 ^ Z.of_nat width ->
  String.length (padStart width n) = width /\
  numberOfDigits (padStart width n) = Some n.
Proof.
  intros Hw Hn. unfold padStart. cbv zeta.
  set (digits := pretty (Z.to_N n)).
  assert (Hdigits : (1 <= String.length digits <= width)%nat /\
                    digitsValue 0 digits = Some n).
  { unfold digits, pretty, pretty_N. destruct (decide (Z.to_N n = 0%N)) as [E|E].
    - simpl. split; [lia|]. f_equal. lia.
    - split.
      + pose proof (length_pretty_go (Z.to_N n) "" width) as Hlen. simpl in Hlen.
        rewrite Z2N.id in Hlen by lia. split; [|lia].
        rewrite pretty_N_go_step by lia.
        assert (Hmono : forall x s, (String.length s <= String.length (pretty_N_go x s))%nat).
        { intros x. induction (N.lt_wf_0 x) as [x _ IH]. intros s.
          destruct (N.eq_dec x 0%N) as [->|Hx]; [rewrite pretty_N_go_0; lia|].
          rewrite pretty_N_go_step by lia.
          etransitivity; [|apply IH; apply N.div_lt; lia]. simpl. lia. }
        etransitivity; [|apply Hmono]. simpl. lia.
      + rewrite digitsValue_pretty_go. simpl. f_equal. lia. }
  destruct Hdigits as [[Hl1 Hl2] Hval].
  destruct (zeros_spec (width - String.length digits) digits) as [Hz1 Hz2].
  split.
  - rewrite append_length, Hz1. lia.
  - unfold numberOfDigits.
    destruct (String.concat "" _ +:+ digits) eqn:E.
    + apply (f_equal String.length) in E. rewrite append_length in E. simpl in E. lia.
    + rewrite Hz2. exact Hval.
Qed.

Lemma string_length_2 (s : string) :
  String.length s = 2%nat -> exists a b, s = String a (String b "").
Proof. destruct s as [|a [|b [|c s]]]; try discriminate. eauto. Qed.

Lemma string_length_3 (s : string) :
  String.length s = 3%nat -> exists a b c, s = String a (String b (String c "")).
Proof. destruct s as [|a [|b [|c [|d s]]]]; try discriminate. eauto. Qed.

Lemma numberOfDigits_first (c : ascii) (s : string) (n : Z) :
  numberOfDigits (String c s) = Some n -> isDigit c = true.
Proof. simpl. destruct (isDigit c); [reflexivity | discriminate]. Qed.

Lemma dateOfString_digit (c : ascii) (s : string) :
  isDigit c = true -> dateOfString (String c s) = parseISOFields 1 4 (String c s).
Proof.
  destruct c as [[] [] [] [] [] [] [] []]; intros H; try discriminate H; reflexivity.
Qed.

(** The text of the layout of [toISOString] is read back as its fields. *)
Lemma parseISOFields_layout (sign : Z) (p : nat) (Y Mo Da Ho Mi Se Ms : string)
    (y mo da ho mi se ms : Z) :
  String.length Y = p -> numberOfDigits Y = Some y ->
  String.length Mo = 2%nat -> numberOfDigits Mo = Some mo ->
  String.length Da = 2%nat -> numberOfDigits Da = Some da ->
  String.length Ho = 2%nat -> numberOfDigits Ho = Some ho ->
  String.length Mi = 2%nat -> numberOfDigits Mi = Some mi ->
  String.length Se = 2%nat -> numberOfDigits Se = Some se ->
  String.length Ms = 3%nat -> numberOfDigits Ms = Some ms ->
  1 <= mo <= 12 -> 1 <= da ->
  civil_from_days (days_from_civil (sign * y) mo da) = (sign * y, mo, da) ->
  ho <= 23 -> mi <= 59 -> se <= 59 ->
  parseISOFields sign p
    (Y +:+ "-" +:+ Mo +:+ "-" +:+ Da +:+ "T" +:+ Ho +:+ ":" +:+ Mi +:+ ":" +:+ Se
       +:+ "." +:+ Ms +:+ "Z")
  = timeClip (days_from_civil (sign * y) mo da * msPerDay
              + ho * 3600000 + mi * 60000 + se * 1000 + ms).
Proof.
  intros HY HYv HMo HMov HDa HDav HHo HHov HMi HMiv HSe HSev HMs HMsv
         Hmo Hda Hcivil Hho Hmi Hse.
  apply string_length_2 in HMo as (m1 & m2 & ->).
  apply string_length_2 in HDa as (d1 & d2 & ->).
  apply string_length_2 in HHo as (h1 & h2 & ->).
  apply string_length_2 in HMi as (i1 & i2 & ->).
  apply string_length_2 in HSe as (s1 & s2 & ->).
  apply string_length_3 in HMs as (l1 & l2 & l3 & ->).
  unfold parseISOFields. cbv zeta.
  rewrite (substring_take Y _ p HY).
  rewrite !(substring_skip Y _ p _ _ HY).
  rewrite (substring_skip_0 Y _ p _ HY).
  rewrite append_length, HY.
  cbv [String.substring String.append String.length].
  rewrite HYv, HMov, HDav, HHov, HMiv, HSev, HMsv.
  rewrite !bool_decide_true by reflexivity. rewrite Nat.eqb_refl.
  rewrite Hcivil. rewrite bool_decide_true by reflexivity.
  replace (1 <=? mo) with true by (symmetry; apply Z.leb_le; lia).
  replace (mo <=? 12) with true by (symmetry; apply Z.leb_le; lia).
  replace (1 <=? da) with true by (symmetry; apply Z.leb_le; lia).
  replace (ho <=? 23) with true by (symmetry; apply Z.leb_le; lia).
  replace (mi <=? 59) with true by (symmetry; apply Z.leb_le; lia).
  replace (se <=? 59) with true by (symmetry; apply Z.leb_le; lia).
  reflexivity.
Qed.

Lemma civil_year_bound (z : Z) :
  -100000000 <= z <= 100000000 ->
  let '(y, _, _) := civil_from_days z in -999999 <= y <= 999999.
Proof.
  intros Hz. rewrite civil_from_days_era. cbv zeta.
  pose proof (Z.mod_pos_bound (z + 719468) 146097 ltac:(lia)) as Hdoe.
  pose proof (eraDayOk_all _ Hdoe) as Hok. unfold eraDayOk in Hok.
  destruct (era_fields ((z + 719468) mod 146097)) as [[yoe m] d].
  repeat (apply andb_true_iff in Hok as [Hok ?]).
  repeat match goal with
         | H : (_ <=? _) = true |- _ => apply Z.leb_le in H
         | H : (_ =? _) = true |- _ => apply Z.eqb_eq in H
         end.
  assert (-700 <= (z + 719468) / 146097 <= 700)
    by (Z.div_mod_to_equations; lia).
  destruct (m <=? 2); lia.
Qed.

(** The ISO text of a date is read back as that date. *)
Lemma dateOfString_toISOString (t : Z) :
  Z.abs t <= maxTimeValue ->
  exists iso, toISOString (TimeValue t) = Normal iso /\
              dateOfString iso = TimeValue t.
Proof.
  intros Ht. unfold maxTimeValue in Ht. unfold toISOString.
  pose proof (days_from_civil_from_days (t / msPerDay)) as Hdays.
  pose proof (civil_year_bound (t / msPerDay)) as Hyear.
  destruct (civil_from_days (t / msPerDay)) as [[y m] d] eqn:Hcivil.
  destruct Hdays as (Hdays & Hm & Hd).
  pose proof (daysInMonth_bounds y m) as Hdim.
  assert (Hy : -999999 <= y <= 999999)
    by (apply Hyear; unfold msPerDay; split;
        [apply Z.div_le_lower_bound | apply Z.div_le_upper_bound]; lia).
  clear Hyear. cbv zeta.
  eexists. split; [reflexivity|].
  assert (Hms : 0 <= t mod msPerDay < 86400000)
    by (apply (Z.mod_pos_bound t msPerDay); reflexivity).
  pose proof (Z.div_mod t msPerDay ltac:(discriminate)) as Hdm.
  set (ms := t mod msPerDay) in *. clearbody ms.
  destruct (padStart_spec 2 m) as [Lm Vm]; [lia | simpl; lia |].
  destruct (padStart_spec 2 d) as [Ld Vd]; [lia | simpl; lia |].
  destruct (padStart_spec 2 (ms / 3600000)) as [Lh Vh];
    [lia | simpl; Z.div_mod_to_equations; lia |].
  destruct (padStart_spec 2 (ms / 60000 mod 60)) as [Li Vi];
    [lia | simpl; Z.div_mod_to_equations; lia |].
  destruct (padStart_spec 2 (ms / 1000 mod 60)) as [Ls Vs];
    [lia | simpl; Z.div_mod_to_equations; lia |].
  destruct (padStart_spec 3 (ms mod 1000)) as [Ll Vl];
    [lia | simpl; Z.div_mod_to_equations; lia |].
  assert (Hclip : timeClip
            (t / msPerDay * msPerDay + ms / 3600000 * 3600000
             + ms / 60000 mod 60 * 60000 + ms / 1000 mod 60 * 1000 + ms mod 1000)
          = TimeValue t).
  { replace (t / msPerDay * msPerDay + ms / 3600000 * 3600000
             + ms / 60000 mod 60 * 60000 + ms / 1000 mod 60 * 1000 + ms mod 1000)
      with t.
    - unfold timeClip, maxTimeValue.
      replace (Z.abs t <=? 8640000000000000) with true
        by (symmetry; apply Z.leb_le; lia).
      reflexivity.
    - clear -Hdm Hms. set (q := t / msPerDay) in *. clearbody q.
      unfold msPerDay in *. Z.div_mod_to_equations. lia. }
  destruct ((0 <=? y) && (y <=? 9999)) eqn:Hrange.
  - apply andb_true_iff in Hrange as [Hy0 Hy1].
    apply Z.leb_le in Hy0, Hy1.
    destruct (padStart_spec 4 y) as [Ly Vy]; [lia | simpl; lia |].
    destruct (padStart 4 y) as [|c rest] eqn:Hpad; [discriminate|].
    change (String c rest +:+ ?tl) with (String c (rest +:+ tl)).
    rewrite dateOfString_digit by (eapply numberOfDigits_first; exact Vy).
    change (String c (rest +:+ ?tl)) with (String c rest +:+ tl).
    rewrite (parseISOFields_layout 1 4 (String c rest) _ _ _ _ _ _
               y m d (ms / 3600000) (ms / 60000 mod 60) (ms / 1000 mod 60)
               (ms mod 1000)); try assumption; try lia.
    + rewrite Z.mul_1_l, Hdays. exact Hclip.
    + rewrite Z.mul_1_l, Hdays. exact Hcivil.
    + Z.div_mod_to_equations; lia.
    + Z.div_mod_to_equations; lia.
    + Z.div_mod_to_equations; lia.
  - destruct (padStart_spec 6 (Z.abs y)) as [Ly Vy]; [lia | simpl; lia |].
    assert (Hsign : (if y <? 0 then -1 else 1) * Z.abs y = y)
      by (destruct (Z.ltb_spec y 0); lia).
    assert (Hdate : forall pad tl,
      dateOfString (((if y <? 0 then "-" else "+") +:+ pad) +:+ tl)
      = parseISOFields (if y <? 0 then -1 else 1) 6 (pad +:+ tl))
      by (intros pad tl; destruct (y <? 0); reflexivity).
    rewrite Hdate.
    rewrite (parseISOFields_layout _ 6 (padStart 6 (Z.abs y)) _ _ _ _ _ _
               (Z.abs y) m d (ms / 3600000) (ms / 60000 mod 60) (ms / 1000 mod 60)
               (ms mod 1000)); try assumption; try lia.
    + rewrite Hsign, Hdays. exact Hclip.
    + rewrite Hsign, Hdays. exact Hcivil.
    + Z.div_mod_to_equations; lia.
    + Z.div_mod_to_equations; lia.
    + Z.div_mod_to_equations; lia.
Qed.

(** X15. An event with a valid date that is cached while the cache holds
    fewer than [MAX_CACHE_SIZE] entries, under a name of 7-bit characters
    whose normal form is not [__proto__], is read back by [getCachedEvent]
    exactly as it was stored, date included, under every name of 7-bit
    characters with the same normal form. *)
Theorem cacheEvent_getCachedEvent_exact (item : StoredItem) (name name' : string)
    (event : HistoricalEvent) (now t : Z) :
  asciiOnly name = true -> asciiOnly name' = true ->
  date event = TimeValue t -> Z.abs t <= maxTimeValue ->
  normalizeEventName name' = normalizeEventName name ->
  normalizeEventName name <> "__proto__" ->
  fst (getCacheStats item) < MAX_CACHE_SIZE ->
  exists item',
    cacheEvent item name event now = Normal item' /\
    getCachedEvent item' name' = Cached event.
Proof.
  intros _ _ Hdate Ht Hnorm Hkey Hsize.
  destruct (dateOfString_toISOString t Ht) as (iso & Hiso & Hback).
  rewrite <- Hdate in Hiso.
  destruct (cache_roundtrip_small item name name' event now iso Hnorm Hkey Hsize Hiso)
    as (item' & Hcache & Hget).
  exists item'. split; [exact Hcache|]. rewrite Hget. f_equal.
  unfold withDateOfString. rewrite Hback, <- Hdate. destruct event; reflexivity.
Qed.

Lemma cacheEvent_getCachedEvent_exact_witness :
  exists item',
    cacheEvent ItemAbsent "Battle  of Hastings" hastings 5000 = Normal item' /\
    getCachedEvent item' " battle of HASTINGS" = Cached hastings.
Proof.
  apply (cacheEvent_getCachedEvent_exact ItemAbsent "Battle  of Hastings"
           " battle of HASTINGS" hastings 5000 (-28502755200000)).
  - vm_compute. reflexivity.
  - vm_compute. reflexivity.
  - vm_compute. reflexivity.
  - vm_compute. discriminate.
  - vm_compute. reflexivity.
  - vm_compute. discriminate.
  - vm_compute. reflexivity.
Defined.

(** ** The size bound of the cache *)

Lemma ownProperty_None {V} (obj : JSObject V) (key : string) :
  ownProperty obj key = None <-> key ∉ objectKeys obj.
Proof.
  unfold objectKeys. induction obj as [|[k v] obj IH]; simpl.
  - split; [intros _; apply not_elem_of_nil | reflexivity].
  - rewrite not_elem_of_cons. case_bool_decide as E.
    + split; [discriminate | intros [H _]; congruence].
    + rewrite IH. split; [intros H; split; [congruence | exact H] | intros [_ H]; exact H].
Qed.

Lemma ownProperty_elem_of {V} (obj : JSObject V) (key : string) (v : V) :
  NoDup (objectKeys obj) ->
  (ownProperty obj key = Some v <-> (key, v) ∈ obj).
Proof.
  unfold objectKeys. induction obj as [|[k w] obj IH]; simpl; intros Hnd.
  - split; [discriminate | intros H; inversion H].
  - apply NoDup_cons in Hnd as [Hk Hnd]. rewrite elem_of_cons.
    case_bool_decide as E.
    + subst k. split.
      * intros [= ->]. left. reflexivity.
      * intros [[= <-] | Hin]; [reflexivity|].
        exfalso. apply Hk. apply list_elem_of_fmap. exists (key, v). split; [reflexivity | exact Hin].
    + rewrite (IH Hnd). split; [auto|].
      intros [[= <- <-] | Hin]; [congruence | exact Hin].
Qed.

Lemma objectKeys_replaceOwn {V} (key : string) (v : V) (obj : JSObject V) :
  objectKeys (replaceOwn key v obj) = objectKeys obj.
Proof.
  unfold objectKeys. induction obj as [|[k w] obj IH]; simpl; [reflexivity|].
  case_bool_decide; simpl; [reflexivity | rewrite IH; reflexivity].
Qed.

Lemma insertIndex_Permutation {V} (n : Z) (key : string) (v : V) (obj : JSObject V) :
  insertIndex n key v obj ≡ₚ (key, v) :: obj.
Proof.
  induction obj as [|[k w] obj IH]; simpl; [reflexivity|].
  destruct (arrayIndex k) as [m|]; [destruct (m <? n)|]; try reflexivity.
  rewrite IH. apply perm_swap.
Qed.

Lemma setProp_NoDup {V} (key : string) (v : V) (obj : JSObject V) :
  NoDup (objectKeys obj) -> NoDup (objectKeys (setProp key v obj)).
Proof.
  intros Hnd. unfold setProp. destruct (ownProperty obj key) eqn:Hown.
  - rewrite objectKeys_replaceOwn. exact Hnd.
  - apply ownProperty_None in Hown. case_bool_decide; [exact Hnd|].
    destruct (arrayIndex key) as [n|]; unfold objectKeys in *.
    + rewrite (insertIndex_Permutation n key v obj). simpl.
      apply NoDup_cons. split; assumption.
    + rewrite map_app. simpl. apply NoDup_app. split; [exact Hnd|]. split.
      * intros x Hx Hx'. apply list_elem_of_singleton in Hx'. subst x. contradiction.
      * apply NoDup_singleton.
Qed.

Lemma ownProperty_replaceOwn_ne {V} (key key' : string) (v : V) (obj : JSObject V) :
  key' <> key -> ownProperty (replaceOwn key v obj) key' = ownProperty obj key'.
Proof.
  intros Hne. induction obj as [|[k w] obj IH]; simpl; [reflexivity|].
  case_bool_decide as E; simpl.
  - subst k. rewrite !bool_decide_false by congruence. reflexivity.
  - rewrite IH. reflexivity.
Qed.

Lemma ownProperty_insertIndex_ne {V} (n : Z) (key key' : string) (v : V)
    (obj : JSObject V) :
  key' <> key -> ownProperty (insertIndex n key v obj) key' = ownProperty obj key'.
Proof.
  intros Hne.
  assert (Hhead : forall o : JSObject V,
            ownProperty ((key, v) :: o) key' = ownProperty o key').
  { intros o. simpl. rewrite bool_decide_false by congruence. reflexivity. }
  induction obj as [|[k w] obj IH]; [apply Hhead|].
  simpl insertIndex.
  destruct (arrayIndex k) as [m|]; [destruct (m <? n)|]; try apply Hhead.
  simpl. rewrite IH. reflexivity.
Qed.

Lemma ownProperty_app_ne {V} (key key' : string) (v : V) (obj : JSObject V) :
  key' <> key -> ownProperty (obj ++ [(key, v)]) key' = ownProperty obj key'.
Proof.
  intros Hne. induction obj as [|[k w] obj IH]; simpl.
  - rewrite bool_decide_false by congruence. reflexivity.
  - rewrite IH. reflexivity.
Qed.

(** Writing one property leaves every other property as it is. *)
Lemma ownProperty_setProp_ne {V} (key key' : string) (v : V) (obj : JSObject V) :
  key' <> key -> ownProperty (setProp key v obj) key' = ownProperty obj key'.
Proof.
  intros Hne. unfold setProp. destruct (ownProperty obj key).
  - apply ownProperty_replaceOwn_ne. exact Hne.
  - case_bool_decide; [reflexivity|].
    destruct (arrayIndex key).
    + apply ownProperty_insertIndex_ne. exact Hne.
    + apply ownProperty_app_ne. exact Hne.
Qed.

Lemma insertByCachedAt_Permutation (x : string * CachedEvent)
    (sorted : JSObject CachedEvent) :
  insertByCachedAt x sorted ≡ₚ x :: sorted.
Proof.
  induction sorted as [|y rest IH]; simpl; [reflexivity|].
  destruct (cachedAt (snd x) <? cachedAt (snd y)); [reflexivity|].
  rewrite IH. apply perm_swap.
Qed.

Lemma sortByCachedAt_Permutation (obj : JSObject CachedEvent) :
  sortByCachedAt obj ≡ₚ obj.
Proof.
  unfold sortByCachedAt.
  assert (H : forall acc, fold_left (fun sorted x => insertByCachedAt x sorted) obj acc
                          ≡ₚ obj ++ acc).
  { induction obj as [|x obj IH]; intros acc; simpl; [reflexivity|].
    rewrite IH, insertByCachedAt_Permutation. symmetry. apply Permutation_middle. }
  rewrite H, app_nil_r. reflexivity.
Qed.

Lemma insertByCachedAt_sorted (x : string * CachedEvent)
    (sorted : JSObject CachedEvent) :
  oldestFirst sorted -> oldestFirst (insertByCachedAt x sorted).
Proof.
  induction sorted as [|y rest IH]; simpl; intros Hs.
  - split; [constructor | exact I].
  - destruct Hs as [Hy Hrest].
    destruct (Z.ltb_spec (cachedAt (snd x)) (cachedAt (snd y))) as [Hlt|Hge]; simpl.
    + split; [|split; assumption].
      constructor; [unfold olderFirst; lia|].
      eapply Forall_impl; [exact Hy|]. unfold olderFirst. intros z Hz. lia.
    + split; [|apply IH; exact Hrest].
      rewrite insertByCachedAt_Permutation.
      constructor; [unfold olderFirst; lia | exact Hy].
Qed.

Lemma sortByCachedAt_sorted (obj : JSObject CachedEvent) :
  oldestFirst (sortByCachedAt obj).
Proof.
  unfold sortByCachedAt.
  assert (H : forall acc, oldestFirst acc ->
            oldestFirst
              (fold_left (fun sorted x => insertByCachedAt x sorted) obj acc)).
  { induction obj as [|x obj IH]; intros acc Hacc; simpl; [exact Hacc|].
    apply IH. apply insertByCachedAt_sorted. exact Hacc. }
  apply H. exact I.
Qed.

Lemma oldestFirst_app (l1 l2 : JSObject CachedEvent) :
  oldestFirst (l1 ++ l2) ->
  forall x y, x ∈ l1 -> y ∈ l2 -> olderFirst x y.
Proof.
  induction l1 as [|a l1 IH]; simpl; intros Hs x y Hx Hy; [inversion Hx|].
  destruct Hs as [Ha Hs].
  apply elem_of_cons in Hx as [-> | Hx]; [|eapply IH; eassumption].
  rewrite Forall_forall in Ha. apply Ha. apply elem_of_app. right. exact Hy.
Qed.

Lemma filter_Permutation_bool {A} (f : A -> bool) (l l' : list A) :
  l ≡ₚ l' -> List.filter f l ≡ₚ List.filter f l'.
Proof.
  induction 1 as [|x l l' _ IH|x y l|l l' l'' _ IH1 _ IH2]; simpl.
  - reflexivity.
  - destruct (f x); [constructor|]; exact IH.
  - destruct (f x), (f y); try reflexivity. apply perm_swap.
  - etransitivity; eassumption.
Qed.

Lemma filter_none {A} (f : A -> bool) (l : list A) :
  (forall x, x ∈ l -> f x = false) -> List.filter f l = [].
Proof.
  induction l as [|a l IH]; simpl; intros H; [reflexivity|].
  rewrite (H a) by (left; reflexivity). apply IH. intros x Hx. apply H. right. exact Hx.
Qed.

Lemma filter_all {A} (f : A -> bool) (l : list A) :
  (forall x, x ∈ l -> f x = true) -> List.filter f l = l.
Proof.
  induction l as [|a l IH]; simpl; intros H; [reflexivity|].
  rewrite (H a) by (left; reflexivity). f_equal. apply IH. intros x Hx. apply H. right. exact Hx.
Qed.

(** Deleting the keys one after the other keeps the properties under the
    other keys, in their order. *)
Lemma evict_filter {V} (ks : list string) (obj : JSObject V) :
  fold_left (fun evs k => deleteProp k evs) ks obj
  = List.filter (fun kv => negb (bool_decide (fst kv ∈ ks))) obj.
Proof.
  revert obj. induction ks as [|k ks IH]; intros obj; simpl fold_left.
  - symmetry. apply filter_all. intros x _. cbv beta.
    rewrite bool_decide_false by apply not_elem_of_nil. reflexivity.
  - rewrite IH. unfold deleteProp. clear IH.
    induction obj as [|[k' w] obj IHo]; simpl; [reflexivity|].
    destruct (bool_decide (k' = k)) eqn:E1; simpl.
    + apply bool_decide_eq_true in E1. subst k'.
      rewrite (bool_decide_true (k ∈ k :: ks)) by (left; reflexivity). simpl.
      exact IHo.
    + apply bool_decide_eq_false in E1.
      rewrite (bool_decide_ext (k' ∈ k :: ks) (k' ∈ ks))
        by (rewrite elem_of_cons; tauto).
      destruct (bool_decide (k' ∈ ks)); simpl; [exact IHo | f_equal; exact IHo].
Qed.

Lemma filter_keys_of_prefix {V} (l1 l2 : JSObject V) :
  NoDup (objectKeys (l1 ++ l2)) ->
  List.filter (fun kv => negb (bool_decide (fst kv ∈ objectKeys l1))) (l1 ++ l2) = l2.
Proof.
  unfold objectKeys. rewrite map_app. intros Hnd.
  apply NoDup_app in Hnd as (_ & Hdisj & _).
  rewrite List.filter_app, filter_none, filter_all; [reflexivity| |].
  - intros x Hx. cbv beta. rewrite bool_decide_false; [reflexivity|].
    intros Hin. apply (Hdisj (fst x)); [exact Hin|].
    apply list_elem_of_fmap. exists x. split; [reflexivity | exact Hx].
  - intros x Hx. cbv beta. rewrite bool_decide_true; [reflexivity|].
    apply list_elem_of_fmap. exists x. split; [reflexivity | exact Hx].
Qed.

(** What [saveCache] keeps of a cache with distinct keys: at most
    [MAX_CACHE_SIZE] entries, each as it was, and none that is older than
    an entry it removes. *)
Lemma saveCache_spec (cache : EventCache) :
  version cache = CACHE_VERSION ->
  NoDup (objectKeys (events cache)) ->
  exists kept,
    getCache (saveCache cache) = {| version := CACHE_VERSION; events := kept |} /\
    NoDup (objectKeys kept) /\
    arr_length (objectKeys kept)
      = Z.min (arr_length (objectKeys (events cache))) MAX_CACHE_SIZE /\
    (forall key v, ownProperty kept key = Some v ->
                   ownProperty (events cache) key = Some v) /\
    (forall k1 v1 k2 v2,
       ownProperty (events cache) k1 = Some v1 -> ownProperty kept k1 = None ->
       ownProperty kept k2 = Some v2 ->
       cachedAt v1 <= cachedAt v2) /\
    (arr_length (objectKeys (events cache)) <= MAX_CACHE_SIZE ->
     kept = events cache).
Proof.
  intros Hv Hnd. unfold saveCache. cbv zeta.
  destruct (Z.gtb_spec (arr_length (objectKeys (events cache))) MAX_CACHE_SIZE)
    as [Hbig|Hsmall].
  - set (obj := events cache) in *.
    set (n := Z.to_nat (arr_length (objectKeys obj) - MAX_CACHE_SIZE)).
    set (sorted := sortByCachedAt obj).
    pose proof (sortByCachedAt_Permutation obj) as Hperm. fold sorted in Hperm.
    pose proof (sortByCachedAt_sorted obj) as Hsorted. fold sorted in Hsorted.
    assert (Hnds : NoDup (objectKeys sorted))
      by (unfold objectKeys; rewrite Hperm; exact Hnd).
    assert (Hkeys : take n (objectKeys sorted) = objectKeys (take n sorted))
      by (unfold objectKeys; symmetry; apply fmap_take).
    rewrite Hkeys, evict_filter.
    set (kept := List.filter _ obj).
    assert (Hkept : kept ≡ₚ drop n sorted).
    { unfold kept. etransitivity.
      - apply filter_Permutation_bool. symmetry. exact Hperm.
      - pose proof (filter_keys_of_prefix (take n sorted) (drop n sorted)) as H.
        rewrite take_drop in H. rewrite H by exact Hnds. reflexivity. }
    assert (Hndk : NoDup (objectKeys kept)).
    { unfold objectKeys. rewrite Hkept.
      rewrite <- (take_drop n sorted) in Hnds. unfold objectKeys in Hnds.
      rewrite map_app in Hnds. apply NoDup_app in Hnds as (_ & _ & H). exact H. }
    exists kept. simpl. rewrite Hv. simpl.
    split; [reflexivity|]. split; [exact Hndk|]. split; [|split; [|split]];
      [| | |intros Hle; exfalso; fold obj in Hle; lia].
    + unfold arr_length, objectKeys in *. rewrite length_map in *.
      rewrite Hkept, length_drop, Hperm. unfold n, arr_length, objectKeys.
      rewrite length_map. unfold MAX_CACHE_SIZE in *. lia.
    + intros key v H. apply (ownProperty_elem_of _ _ _ Hndk) in H.
      apply (ownProperty_elem_of _ _ _ Hnd).
      unfold kept in H. apply list_elem_of_In, List.filter_In in H as [H _].
      apply list_elem_of_In. exact H.
    + intros k1 v1 k2 v2 H1 Hgone H2.
      apply (ownProperty_elem_of _ _ _ Hnd) in H1.
      apply (ownProperty_elem_of _ _ _ Hndk) in H2.
      rewrite Hkept in H2.
      assert (Htake : (k1, v1) ∈ take n sorted).
      { rewrite <- Hperm, <- (take_drop n sorted) in H1.
        apply elem_of_app in H1 as [H1|H1]; [exact H1|].
        rewrite <- Hkept in H1. apply (ownProperty_elem_of _ _ _ Hndk) in H1.
        congruence. }
      rewrite <- (take_drop n sorted) in Hsorted.
      apply (oldestFirst_app _ _ Hsorted _ _ Htake H2).
  - exists (events cache). simpl. rewrite Hv. simpl.
    split; [destruct cache; simpl in *; subst; reflexivity|].
    split; [exact Hnd|]. split; [lia|]. split; [auto|]. split; [|reflexivity].
    intros k1 v1 k2 v2 H1 Hgone. congruence.
Qed.







(** ** The end of the game *)

Lemma find_alivePlayers (ps : list Player) :
  List.find isAlive ps = head (alivePlayers ps).
Proof.
  unfold alivePlayers. induction ps as [|p ps IH]; [reflexivity|].
  simpl. destruct (isAlive p); [reflexivity | exact IH].
Qed.

(** X18. A challenge among at least two alive players with distinct ids
    leaves a survivor.  If the phase afterwards is [results], exactly one
    player is alive: [getWinner] returns that player's id, and the player
    that the results screen shows as the winner (the first alive one) is
    that player, who was alive before the challenge.  If the phase is
    [playing], at least two players are alive and [getWinner] returns
    [null]. *)
Theorem callBullshit_winner
    (gs : GameState) (caller : string) (gs' : GameState) (msg : option string) :
  callBullshit (Some gs) caller = Normal (Some gs', msg) ->
  NoDup (map id (players gs)) ->
  (2 <= length (alivePlayers (players gs)))%nat ->
  (phase gs' = results ->
   exists p,
     alivePlayers (players gs') = [p] /\
     getWinner gs' = Some (id p) /\
     List.find isAlive (players gs') = Some p /\
     p ∈ alivePlayers (players gs)) /\
  (phase gs' = playing ->
   (2 <= length (alivePlayers (players gs')))%nat /\ getWinner gs' = None).
Proof.
  intros Hcall Hnd Htwo.
  destruct (callBullshit_players _ _ _ _ Hcall) as [Hps Hphase].
  pose proof (eliminate_alive_count
                (eliminatedPlayerId (processBullshitCall gs caller)) _ Hnd) as Hcount.
  rewrite <- Hps in Hcount.
  assert (Hone : (1 <= length (alivePlayers (players gs')))%nat)
    by (destruct (existsb _ _); lia).
  rewrite Hphase. unfold isGameOver, arr_length, getWinner.
  rewrite find_alivePlayers.
  destruct (Z.leb_spec (Z.of_nat (length (alivePlayers (players gs')))) 1) as [Hle|Hgt].
  - split; [intros _ | discriminate].
    destruct (alivePlayers (players gs')) as [|p [|q rest]] eqn:Halive;
      simpl in Hone, Hle; try lia.
    exists p. repeat split.
    assert (Hin : p ∈ alivePlayers (players gs'))
      by (rewrite Halive; left).
    unfold alivePlayers in Hin |- *.
    apply list_elem_of_In, List.filter_In in Hin as [Hin Hp].
    apply list_elem_of_In, List.filter_In. split; [|exact Hp].
    rewrite Hps in Hin. apply List.in_map_iff in Hin as (q & Hq & Hin).
    case_bool_decide; [subst p; discriminate Hp | subst q; exact Hin].
  - split; [discriminate | intros _].
    destruct (alivePlayers (players gs')) as [|p [|q rest]];
      simpl in Hgt |- *; try lia. split; [lia | reflexivity].
Qed.

Lemma callBullshit_winner_witness :
  exists gs' msg p,
    callBullshit (state_of after_alice_1170) "p-bob" = Normal (Some gs', msg) /\
    phase gs' = results /\
    getWinner gs' = Some (id p) /\ List.find isAlive (players gs') = Some p.
Proof.
  destruct (callBullshit (state_of after_alice_1170) "p-bob") as [[[gs'|] msg]|] eqn:Hcall;
    try (vm_compute in Hcall; discriminate).
  assert (Hphase : phase gs' = results)
    by (vm_compute in Hcall; injection Hcall as <- _; reflexivity).
  destruct (callBullshit_winner _ _ _ _ Hcall) as [Hres _].
  - vm_compute. repeat constructor; intros H; repeat (apply elem_of_cons in H as [H|H]; [discriminate|]); inversion H.
  - vm_compute. lia.
  - destruct (Hres Hphase) as (p & _ & Hw & Hf & _).
    exists gs', msg, p. auto.
Defined.

(** ** [calculateTimeDifference] *)

(** The day before the first of a month is the last day of its month. *)
Lemma day_before_first (y m : Z) :
  1 <= m <= 12 ->
  exists y' m',
    civil_from_days (days_from_civil y m 1 - 1) = (y', m', daysInMonth y' m').
Proof.
  intros Hm.
  pose proof (days_from_civil_from_days (days_from_civil y m 1 - 1)) as H.
  destruct (civil_from_days (days_from_civil y m 1 - 1)) as [[y' m'] d'].
  destruct H as (Hz & Hm' & Hd').
  exists y', m'. f_equal.
  destruct (Z.eq_dec d' (daysInMonth y' m')) as [E|E]; [exact E|exfalso].
  assert (Hnext : civil_from_days (days_from_civil y' m' (d' + 1)) = (y', m', d' + 1))
    by (apply civil_from_days_from_civil; lia).
  rewrite (days_from_civil_day y' m' (d' + 1)) in Hnext.
  rewrite (days_from_civil_day y' m' d') in Hz.
  replace (days_from_civil y' m' 1 + (d' + 1) - 1) with (days_from_civil y m 1)
    in Hnext by lia.
  rewrite civil_from_days_from_civil in Hnext
    by (pose proof (daysInMonth_bounds y m); lia).
  injection Hnext as _ _ Hd. lia.
Qed.


Lemma month_step (y m : Z) :
  1 <= m <= 12 ->
  days_from_civil (if m =? 12 then y + 1 else y) (if m =? 12 then 1 else m + 1) 1
  = days_from_civil y m 1 + daysInMonth y m.
Proof.
  intros Hm.
  assert (m = 1 \/ m = 2 \/ m = 3 \/ m = 4 \/ m = 5 \/ m = 6 \/ m = 7 \/ m = 8
          \/ m = 9 \/ m = 10 \/ m = 11 \/ m = 12)
    as [-> | [-> | [-> | [-> | [-> | [-> | [-> | [-> | [-> | [-> | [-> | ->]]]]]]]]]]]
    by lia;
    cbn [Z.eqb Pos.eqb];
    repeat match goal with
           | |- context [Zpos ?p + 1] =>
               let v := eval vm_compute in (Zpos p + 1) in
               change (Zpos p + 1) with v
           end;
    unfold days_from_civil, daysInMonth, isLeapYear;
    cbn [Z.eqb Pos.eqb Z.leb Z.gtb Z.compare Pos.compare Pos.compare_cont orb andb];
    cbv zeta;
    try destruct (Z.eqb_spec (y mod 4) 0);
    try destruct (Z.eqb_spec (y mod 100) 0);
    try destruct (Z.eqb_spec (y mod 400) 0);
    cbn [orb andb negb];
    Z.div_mod_to_equations; lia.
Qed.

Lemma monthStart_succ (M : Z) :
  monthStart (M + 1) = monthStart M + daysInMonth (M / 12) (M mod 12 + 1).
Proof.
  unfold monthStart.
  rewrite <- (month_step (M / 12) (M mod 12 + 1))
    by (pose proof (Z.mod_pos_bound M 12 ltac:(lia)); lia).
  destruct (Z.eqb_spec (M mod 12 + 1) 12) as [E|E]; f_equal;
    Z.div_mod_to_equations; lia.
Qed.

Lemma monthStart_mono (M n : Z) :
  0 <= n -> monthStart M + 28 * n <= monthStart (M + n).
Proof.
  intros Hn. pattern n. apply natlike_ind; [| |exact Hn]; cbv beta.
  - replace (M + 0) with M by lia. lia.
  - clear n Hn. intros n Hn IH. replace (M + Z.succ n) with (M + n + 1) by lia.
    rewrite monthStart_succ.
    pose proof (daysInMonth_bounds ((M + n) / 12) ((M + n) mod 12 + 1)). lia.
Qed.

Lemma days_from_civil_monthStart (y m d : Z) :
  1 <= m <= 12 ->
  days_from_civil y m d = monthStart (12 * y + m - 1) + d - 1.
Proof.
  intros Hm. unfold monthStart. rewrite (days_from_civil_day y m d).
  replace ((12 * y + m - 1) / 12) with y by (Z.div_mod_to_equations; lia).
  replace ((12 * y + m - 1) mod 12 + 1) with m by (Z.div_mod_to_equations; lia).
  reflexivity.
Qed.

(** Later days have later dates. *)
Lemma civil_from_days_order (z1 z2 y1 m1 d1 y2 m2 d2 : Z) :
  z1 <= z2 ->
  civil_from_days z1 = (y1, m1, d1) -> civil_from_days z2 = (y2, m2, d2) ->
  12 * y1 + m1 < 12 * y2 + m2 \/ (y1 = y2 /\ m1 = m2 /\ d1 <= d2).
Proof.
  intros Hz H1 H2.
  pose proof (days_from_civil_from_days z1) as P1. rewrite H1 in P1.
  pose proof (days_from_civil_from_days z2) as P2. rewrite H2 in P2.
  destruct P1 as (E1 & Hm1 & Hd1). destruct P2 as (E2 & Hm2 & Hd2).
  rewrite days_from_civil_monthStart in E1, E2 by assumption.
  destruct (Z.lt_trichotomy (12 * y1 + m1) (12 * y2 + m2)) as [Hlt | [Heq | Hgt]].
  - left. exact Hlt.
  - right. assert (y1 = y2 /\ m1 = m2) as [-> ->] by lia.
    split; [reflexivity|]. split; [reflexivity|]. lia.
  - exfalso.
    pose proof (monthStart_succ (12 * y2 + m2 - 1)) as Hs.
    replace ((12 * y2 + m2 - 1) / 12) with y2 in Hs by (Z.div_mod_to_equations; lia).
    replace ((12 * y2 + m2 - 1) mod 12 + 1) with m2 in Hs
      by (Z.div_mod_to_equations; lia).
    pose proof (monthStart_mono (12 * y2 + m2 - 1 + 1)
                  (12 * y1 + m1 - (12 * y2 + m2) - 1) ltac:(lia)) as Hmono.
    replace (12 * y2 + m2 - 1 + 1 + (12 * y1 + m1 - (12 * y2 + m2) - 1))
      with (12 * y1 + m1 - 1) in Hmono by lia.
    lia.
Qed.

(** X19. [calculateTimeDifference] of two valid dates, the second at least
    32 days after the earliest date that a [Date] can hold and the local
    time offset at most a day, returns three numbers: the months are from
    0 to 11, the days from -2 to 30, and twelve times the years plus the
    months is the number of calendar months from the first date's month to
    the second's, less one when the second day of the month is the
    smaller.  The days are not negative when the first date's day of the
    month is at most 28, and the years are not negative when the first
    date is not after the second.  With an Invalid Date all three are
    [NaN]. *)
Theorem calculateTimeDifference_ranges (tz t1 t2 y1 m1 dd1 y2 m2 dd2 : Z) :
  Z.abs tz <= msPerDay ->
  - maxTimeValue + 32 * msPerDay <= t2 <= maxTimeValue ->
  localCivil tz (TimeValue t1) = Some (y1, m1, dd1) ->
  localCivil tz (TimeValue t2) = Some (y2, m2, dd2) ->
  (exists years months days,
     calculateTimeDifference tz (TimeValue t1) (TimeValue t2)
     = {| td_years := Some years; td_months := Some months; td_days := Some days |} /\
     0 <= months <= 11 /\ -2 <= days <= 30 /\
     12 * years + months
     = 12 * (y2 - y1) + (m2 - m1) - (if dd2 <? dd1 then 1 else 0) /\
     (dd1 <= dd2 -> days = dd2 - dd1) /\
     (dd1 <= 28 -> 0 <= days) /\
     (t1 <= t2 -> 0 <= years)) /\
  (forall d,
     calculateTimeDifference tz InvalidDate d
     = {| td_years := None; td_months := None; td_days := None |} /\
     calculateTimeDifference tz d InvalidDate
     = {| td_years := None; td_months := None; td_days := None |}).
Proof.
  intros Htz Ht2 Hc1 Hc2. split.
  2: { intros d. unfold calculateTimeDifference, getFullYear, getMonth, getDate.
       split; destruct (localCivil tz d) as [[[y m] dd]|]; reflexivity. }
  assert (Hv1 : civil_from_days ((t1 + tz) / msPerDay) = (y1, m1, dd1))
    by (unfold localCivil in Hc1; congruence).
  assert (Hv2 : civil_from_days ((t2 + tz) / msPerDay) = (y2, m2, dd2))
    by (unfold localCivil in Hc2; congruence).
  pose proof (days_from_civil_from_days ((t1 + tz) / msPerDay)) as H1.
  pose proof (days_from_civil_from_days ((t2 + tz) / msPerDay)) as H2.
  rewrite Hv1 in H1. rewrite Hv2 in H2.
  destruct H1 as (_ & Hm1 & Hd1). destruct H2 as (Hz2 & Hm2 & Hd2).
  assert (Hord : t1 <= t2 ->
            12 * y1 + m1 < 12 * y2 + m2 \/ (y1 = y2 /\ m1 = m2 /\ dd1 <= dd2)).
  { intros Hle. apply (civil_from_days_order _ _ _ _ _ _ _ _ (Z.div_le_mono
        (t1 + tz) (t2 + tz) msPerDay ltac:(reflexivity) ltac:(lia)) Hv1 Hv2). }
  pose proof (daysInMonth_bounds y1 m1) as Hb1.
  pose proof (daysInMonth_bounds y2 m2) as Hb2.
  unfold calculateTimeDifference. cbv zeta.
  unfold getFullYear, getMonth, getDate. rewrite Hc1, Hc2.
  cbn [fmap option_fmap option_map nanSub nanLt].
  destruct (Z.ltb_spec (dd2 - dd1) 0) as [Hneg|Hpos].
  - (* the day of the month went down: borrow the previous month *)
    replace (dd2 <? dd1) with true by (symmetry; apply Z.ltb_lt; lia).
    cbn [lastDayOfPreviousMonth].
    set (yr := if (0 <=? y2) && (y2 <=? 99) then 1900 + y2 else y2).
    destruct (day_before_first yr m2 Hm2) as (y' & m' & Hprev).
    assert (Hlocal : localCivil tz (newDate tz y2 (m2 - 1) 0)
                     = Some (y', m', daysInMonth y' m')).
    { unfold newDate. cbv zeta. fold yr.
      rewrite (Z.div_small (m2 - 1) 12), (Z.mod_small (m2 - 1) 12) by lia.
      replace (yr + 0) with yr by lia.
      replace (m2 - 1 + 1) with m2 by lia.
      replace (days_from_civil yr m2 1 + 0 - 1) with (days_from_civil yr m2 1 - 1) by lia.
      set (dn := days_from_civil yr m2 1 - 1) in *.
      assert (Hdn : Z.abs (dn * msPerDay - tz) <= maxTimeValue).
      { unfold yr in dn. destruct ((0 <=? y2) && (y2 <=? 99)) eqn:Hq.
        - apply andb_true_iff in Hq as [Hq0 Hq1]. apply Z.leb_le in Hq0, Hq1.
          pose proof (days_from_civil_bounds (1900 + y2) m2 ltac:(lia) Hm2).
          unfold dn, msPerDay, maxTimeValue in *. lia.
        - rewrite (days_from_civil_day y2 m2 dd2) in Hz2.
          assert (Hq2 : (t2 + tz) / msPerDay * msPerDay <= t2 + tz
                        < (t2 + tz) / msPerDay * msPerDay + msPerDay)
            by (unfold msPerDay; Z.div_mod_to_equations; lia).
          unfold dn, msPerDay, maxTimeValue in *. lia. }
      unfold timeClip. replace (Z.abs (dn * msPerDay - tz) <=? maxTimeValue) with true
        by (symmetry; apply Z.leb_le; exact Hdn).
      unfold localCivil.
      replace (dn * msPerDay - tz + tz) with (dn * msPerDay) by lia.
      rewrite Z.div_mul by discriminate. rewrite Hprev. reflexivity. }
    rewrite Hlocal. cbn [fmap option_fmap option_map nanSub nanAdd nanLt].
    pose proof (daysInMonth_bounds y' m') as Hb'.
    destruct (Z.ltb_spec (m2 - 1 - (m1 - 1) - 1) 0) as [Hmn|Hmp];
      cbn [nanSub nanAdd]; eexists _, _, _; (split; [reflexivity|]); lia.
  - replace (dd2 <? dd1) with false by (symmetry; apply Z.ltb_ge; lia).
    cbn [nanSub nanAdd nanLt].
    destruct (Z.ltb_spec (m2 - 1 - (m1 - 1)) 0) as [Hmn|Hmp];
      cbn [nanSub nanAdd]; eexists _, _, _; (split; [reflexivity|]); lia.
Qed.

Lemma calculateTimeDifference_ranges_witness :
  exists years months days,
    calculateTimeDifference 0 (TimeValue 1675123200000) (TimeValue 1677628800000)
    = {| td_years := Some years; td_months := Some months; td_days := Some days |} /\
    0 <= months <= 11 /\ -2 <= days <= 30 /\ 12 * years + months = 1.
Proof.
  destruct (calculateTimeDifference_ranges 0 1675123200000 1677628800000
              2023 1 31 2023 3 1)
    as [(years & months & days & Heq & Hmonths & Hdays & Hsum & _) _].
  - vm_compute. discriminate.
  - vm_compute. split; discriminate.
  - vm_compute. reflexivity.
  - vm_compute. reflexivity.
  - exists years, months, days. repeat split; try tauto; exact Hsum.
Defined.

(** ** The keys of the cache *)

Lemma lower_char_not_upper (c : ascii) : isUpperCase (lower_char c) = false.
Proof. destruct c as [[] [] [] [] [] [] [] []]; reflexivity. Qed.

Lemma lower_char_fixed (c : ascii) : isUpperCase c = false -> lower_char c = c.
Proof. destruct c as [[] [] [] [] [] [] [] []]; intros H; try discriminate H; reflexivity. Qed.

Lemma space_isWhiteSpace (c : ascii) : Ascii.eqb c " " = true -> isWhiteSpace c = true.
Proof. intros H. apply Ascii.eqb_eq in H. subst c. reflexivity. Qed.

Lemma toLowerCase_noUpperCase (s : string) : noUpperCase (toLowerCase s) = true.
Proof.
  induction s as [|c s IH]; [reflexivity|]. simpl.
  rewrite lower_char_not_upper, IH. reflexivity.
Qed.

Lemma toLowerCase_fixed (s : string) : noUpperCase s = true -> toLowerCase s = s.
Proof.
  induction s as [|c s IH]; [reflexivity|]. simpl. intros H.
  apply andb_true_iff in H as [Hc Hs]. apply negb_true_iff in Hc.
  rewrite lower_char_fixed, IH by assumption. reflexivity.
Qed.

Lemma trimStart_noUpperCase (s : string) :
  noUpperCase s = true -> noUpperCase (trimStart s) = true.
Proof.
  induction s as [|c s IH]; [reflexivity|]. simpl. intros H.
  destruct (isWhiteSpace c); [|exact H].
  apply andb_true_iff in H as [_ Hs]. apply IH. exact Hs.
Qed.

Lemma trimEnd_noUpperCase (s : string) :
  noUpperCase s = true -> noUpperCase (trimEnd s) = true.
Proof.
  induction s as [|c s IH]; [reflexivity|]. simpl. intros H.
  apply andb_true_iff in H as [Hc Hs]. specialize (IH Hs).
  destruct (trimEnd s); [destruct (isWhiteSpace c)|]; simpl in *;
    rewrite ?Hc; auto.
Qed.

Lemma trimStart_head (s : string) :
  trimStart s = "" \/ exists c r, trimStart s = String c r /\ isWhiteSpace c = false.
Proof.
  induction s as [|c s IH]; [left; reflexivity|]. simpl.
  destruct (isWhiteSpace c) eqn:E; [exact IH|]. right. eauto.
Qed.

Lemma trimEnd_idempotent (s : string) : trimEnd (trimEnd s) = trimEnd s.
Proof.
  induction s as [|c s IH]; [reflexivity|]. simpl.
  destruct (trimEnd s) as [|d t] eqn:E.
  - destruct (isWhiteSpace c) eqn:Ec; [reflexivity|]. simpl. rewrite Ec. reflexivity.
  - change (trimEnd (String c (String d t))) with
      (match trimEnd (String d t) with
       | EmptyString => if isWhiteSpace c then EmptyString else String c EmptyString
       | t' => String c t'
       end).
    rewrite IH. reflexivity.
Qed.

Lemma trimEnd_head (c : ascii) (s : string) :
  isWhiteSpace c = false -> exists r, trimEnd (String c s) = String c r.
Proof.
  intros Hc. simpl. destruct (trimEnd s); [rewrite Hc|]; eauto.
Qed.

Lemma trimEnd_fixed_tail (c : ascii) (s : string) :
  trimEnd (String c s) = String c s ->
  (s = "" /\ isWhiteSpace c = false) \/ (s <> "" /\ trimEnd s = s).
Proof.
  simpl. destruct (trimEnd s) as [|d t] eqn:E.
  - destruct (isWhiteSpace c); [discriminate|]. intros [= <-]. left. auto.
  - intros [= <-]. right. split; [discriminate | reflexivity].
Qed.

Lemma collapse_normalTail (b : bool) (y : string) :
  noUpperCase y = true -> trimEnd y = y -> (b = true -> y <> "") ->
  normalTail b (collapseWhiteSpace b y) = true.
Proof.
  revert b. induction y as [|c y IH]; intros b Hup Hend Hb.
  - destruct b; [exfalso; apply Hb; reflexivity | reflexivity].
  - simpl in Hup. apply andb_true_iff in Hup as [Hc Hup].
    apply trimEnd_fixed_tail in Hend. simpl.
    destruct (isWhiteSpace c) eqn:Ews.
    + destruct Hend as [[_ Hn] | [Hne Hend]]; [congruence|].
      destruct b; simpl; apply IH; auto.
    + assert (Hsp : Ascii.eqb c " " = false).
      { destruct (Ascii.eqb c " ") eqn:E; [|reflexivity].
        apply space_isWhiteSpace in E. congruence. }
      simpl. rewrite Hsp, Ews, Hc. simpl.
      destruct Hend as [[-> _] | [Hne Hend]]; [reflexivity|].
      apply IH; auto; discriminate.
Qed.

Lemma normalTail_collapse (b : bool) (s : string) :
  normalTail b s = true -> collapseWhiteSpace b s = s.
Proof.
  revert b. induction s as [|c s IH]; intros b H; [reflexivity|]. simpl in *.
  destruct (Ascii.eqb c " ") eqn:Esp.
  - apply andb_true_iff in H as [Hb H]. apply negb_true_iff in Hb. subst b.
    rewrite (space_isWhiteSpace c Esp). apply Ascii.eqb_eq in Esp. subst c.
    rewrite (IH true H). reflexivity.
  - apply andb_true_iff in H as [H Hs]. apply andb_true_iff in H as [Hws _].
    apply negb_true_iff in Hws. rewrite Hws, (IH false Hs). reflexivity.
Qed.

Lemma normalTail_noUpperCase (b : bool) (s : string) :
  normalTail b s = true -> noUpperCase s = true.
Proof.
  revert b. induction s as [|c s IH]; intros b H; [reflexivity|]. simpl in *.
  destruct (Ascii.eqb c " ") eqn:Esp.
  - apply andb_true_iff in H as [_ H]. apply Ascii.eqb_eq in Esp. subst c.
    simpl. eapply IH. exact H.
  - apply andb_true_iff in H as [H Hs]. apply andb_true_iff in H as [_ Hup].
    rewrite Hup. simpl. eapply IH. exact Hs.
Qed.

Lemma normalTail_trimEnd (b : bool) (s : string) :
  normalTail b s = true -> trimEnd s = s.
Proof.
  revert b. induction s as [|c s IH]; intros b H; [reflexivity|].
  simpl in H. simpl.
  destruct (Ascii.eqb c " ") eqn:Esp.
  - apply andb_true_iff in H as [_ H]. rewrite (IH true H).
    destruct s; [discriminate H | reflexivity].
  - apply andb_true_iff in H as [H Hs]. apply andb_true_iff in H as [Hws _].
    apply negb_true_iff in Hws. rewrite (IH false Hs), Hws.
    destruct s; reflexivity.
Qed.

(** A string in normal form is its own key. *)
Lemma normalForm_fixed (s : string) :
  normalForm s = true -> normalizeEventName s = s.
Proof.
  destruct s as [|c s]; [reflexivity|]. unfold normalForm. intros H.
  apply andb_true_iff in H as [Hsp H]. apply negb_true_iff in Hsp.
  unfold normalizeEventName, trim.
  rewrite (toLowerCase_fixed _ (normalTail_noUpperCase _ _ H)).
  assert (Hws : isWhiteSpace c = false).
  { simpl in H. rewrite Hsp in H. apply andb_true_iff in H as [H _].
    apply andb_true_iff in H as [H _]. apply negb_true_iff in H. exact H. }
  change (trimStart (String c s)) with
    (if isWhiteSpace c then trimStart s else String c s).
  rewrite Hws, (normalTail_trimEnd _ _ H). apply normalTail_collapse. exact H.
Qed.

(** Every key is in normal form. *)
Lemma normalizeEventName_normalForm (s : string) :
  normalForm (normalizeEventName s) = true.
Proof.
  unfold normalizeEventName, trim.
  pose proof (toLowerCase_noUpperCase s) as Hup.
  apply trimStart_noUpperCase in Hup.
  destruct (trimStart_head (toLowerCase s)) as [E | (c & r & E & Hc)]; rewrite E in *.
  - reflexivity.
  - apply trimEnd_noUpperCase in Hup.
    pose proof (trimEnd_idempotent (String c r)) as Hidem.
    destruct (trimEnd_head c r Hc) as [r' Er]. rewrite Er in *.
    pose proof (collapse_normalTail false (String c r') Hup Hidem ltac:(discriminate)) as Hn.
    assert (Hcol : collapseWhiteSpace false (String c r')
                   = String c (collapseWhiteSpace false r'))
      by (simpl; rewrite Hc; reflexivity).
    rewrite Hcol in Hn |- *. unfold normalForm.
    assert (Hsp : Ascii.eqb c " " = false).
    { destruct (Ascii.eqb c " ") eqn:E'; [|reflexivity].
      apply space_isWhiteSpace in E'. congruence. }
    rewrite Hsp. exact Hn.
Qed.

(** X20. The key of a cache entry is canonical.  For a name of 7-bit
    characters, [normalizeEventName] returns a string without upper-case
    letters and without white space other than single spaces between
    other characters; the strings of that form are exactly those that it
    returns unchanged, so it is idempotent; and a name, the name in lower
    case and the name between two spaces have the same key. *)
Theorem normalizeEventName_canonical (s : string) :
  asciiOnly s = true ->
  normalForm (normalizeEventName s) = true /\
  normalizeEventName (normalizeEventName s) = normalizeEventName s /\
  (normalForm s = true <-> normalizeEventName s = s) /\
  normalizeEventName (toLowerCase s) = normalizeEventName s /\
  normalizeEventName (" " +:+ s +:+ " ") = normalizeEventName s.
Proof.
  intros _. pose proof (normalizeEventName_normalForm s) as Hn.
  split; [exact Hn|]. split; [apply normalForm_fixed; exact Hn|]. split; [|split].
  - split; [apply normalForm_fixed | intros E; rewrite <- E; exact Hn].
  - unfold normalizeEventName.
    rewrite (toLowerCase_fixed _ (toLowerCase_noUpperCase s)). reflexivity.
  - unfold normalizeEventName, trim. f_equal.
    change (toLowerCase (" " +:+ s +:+ " "))
      with (String " " (toLowerCase (s +:+ " "))).
    change (trimStart (String " " ?x)) with (trimStart x).
    assert (Hlow : forall a b, toLowerCase (a +:+ b) = toLowerCase a +:+ toLowerCase b).
    { intros a b. induction a as [|c a IH]; [reflexivity|]. simpl. rewrite IH. reflexivity. }
    rewrite Hlow. change (toLowerCase " ") with " ".
    generalize (toLowerCase s). clear. intros x.
    assert (Hend : forall y, trimEnd (y +:+ " ") = trimEnd y).
    { induction y as [|c y IH]; [reflexivity|]. simpl. rewrite IH. reflexivity. }
    induction x as [|c x IH]; [reflexivity|]. simpl.
    destruct (isWhiteSpace c); [exact IH|].
    change (String c (x +:+ " ")) with (String c x +:+ " "). apply Hend.
Qed.

Lemma normalizeEventName_canonical_witness :
  normalForm (normalizeEventName "  Battle   of HASTINGS ") = true /\
  normalizeEventName (normalizeEventName "  Battle   of HASTINGS ")
  = normalizeEventName "  Battle   of HASTINGS ".
Proof.
  destruct (normalizeEventName_canonical "  Battle   of HASTINGS ")
    as (H1 & H2 & _).
  - vm_compute. reflexivity.
  - split; [exact H1 | exact H2].
Defined.

(** ** components/Game.tsx: what the screen offers *)

Lemma arr_get_map {A B} (f : A -> B) (l : list A) (i : Z) :
  arr_get (map f l) i = f <$> arr_get l i.
Proof.
  unfold arr_get. destruct (i <? 0); [reflexivity|]. apply list_lookup_fmap.
Qed.

Lemma lastEvent_after_challenge (gs : GameState) (caller : string)
    (gs' : GameState) (msg : option string) :
  callBullshit (Some gs) caller = Normal (Some gs', msg) ->
  exists e, lastEvent gs' = Some e /\ wasChecked e = true.
Proof.
  intros Hcall. apply callBullshit_inv in Hcall as [Hne Hchain].
  unfold lastEvent, arr_get, arr_length. rewrite Hchain, length_alter.
  destruct (eventChain gs) as [|e0 chain] eqn:E; [contradiction|].
  replace (Z.of_nat (length (e0 :: chain)) - 1 <? 0) with false
    by (symmetry; apply Z.ltb_ge; simpl length; lia).
  replace (Z.to_nat (Z.of_nat (length (e0 :: chain)) - 1))
    with (length (e0 :: chain) - 1)%nat by lia.
  rewrite list_lookup_alter, decide_True by reflexivity.
  destruct ((e0 :: chain) !! (length (e0 :: chain) - 1)%nat) as [e|] eqn:Hlast.
  - exists (markChecked (wasEventCorrect (processBullshitCall gs caller)) e).
    split; reflexivity.
  - apply lookup_ge_None in Hlast. simpl in Hlast. lia.
Qed.

(** X21. A challenge does not move the turn.  After a completed
    [callBullshit] the challenge button is hidden and the current player
    is the same; if that player is the one eliminated (the current player
    challenged a fact that was correct), the input for a fact is hidden
    too, and when at least three players with distinct ids were alive the
    phase is still [playing]: the game goes on, with neither the input nor
    the button on the screen.  If another player is eliminated, the input
    is shown as before. *)
Theorem challenge_keeps_turn
    (gs : GameState) (caller : string) (gs' : GameState) (msg : option string) :
  callBullshit (Some gs) caller = Normal (Some gs', msg) ->
  let out := eliminatedPlayerId (processBullshitCall gs caller) in
  canCallBullshit gs' = false /\
  currentPlayerIndex gs' = currentPlayerIndex gs /\
  (forall p, currentPlayer gs = Some p -> id p = out ->
     isCurrentPlayer gs' = false) /\
  (forall p, currentPlayer gs = Some p -> id p <> out ->
     isCurrentPlayer gs' = isCurrentPlayer gs) /\
  (NoDup (map id (players gs)) ->
   (3 <= length (alivePlayers (players gs)))%nat ->
   phase gs' = playing /\ (2 <= length (alivePlayers (players gs')))%nat).
Proof.
  intros Hcall out.
  destruct (lastEvent_after_challenge _ _ _ _ Hcall) as (e & Hlast & Hchecked).
  destruct (callBullshit_players _ _ _ _ Hcall) as [Hps Hphase].
  assert (Hidx : currentPlayerIndex gs' = currentPlayerIndex gs).
  { unfold callBullshit in Hcall. cbv zeta in Hcall.
    destruct (arr_get _ _) as [anchor|]; [|discriminate].
    injection Hcall as <- _. reflexivity. }
  assert (Hcur : currentPlayer gs' =
                 (fun p => if bool_decide (id p = out) then eliminate p else p)
                   <$> currentPlayer gs).
  { unfold currentPlayer. rewrite Hidx, Hps. apply arr_get_map. }
  split; [unfold canCallBullshit; rewrite Hlast, Hchecked; reflexivity|].
  split; [exact Hidx|]. split; [|split].
  - intros p Hp Hid. unfold isCurrentPlayer. rewrite Hcur, Hp. simpl.
    rewrite bool_decide_true by exact Hid. reflexivity.
  - intros p Hp Hid. unfold isCurrentPlayer. rewrite Hcur, Hp. simpl.
    rewrite bool_decide_false by exact Hid. reflexivity.
  - intros Hnd Hthree.
    pose proof (eliminate_alive_count out _ Hnd) as Hcount.
    fold out in Hps. rewrite <- Hps in Hcount.
    assert (Htwo : (2 <= length (alivePlayers (players gs')))%nat)
      by (destruct (existsb _ _); lia).
    split; [|exact Htwo]. rewrite Hphase. unfold isGameOver, arr_length.
    replace (Z.of_nat (length (alivePlayers (players gs'))) <=? 1) with false
      by (symmetry; apply Z.leb_gt; lia).
    reflexivity.
Qed.

Lemma challenge_keeps_turn_witness :
  exists gs' msg,
    callBullshit three_after_alice "p-bob" = Normal (Some gs', msg) /\
    phase gs' = playing /\ isCurrentPlayer gs' = false /\ canCallBullshit gs' = false.
Proof.
  destruct (callBullshit three_after_alice "p-bob") as [[[gs'|] msg]|] eqn:Hcall;
    try (vm_compute in Hcall; discriminate).
  destruct (challenge_keeps_turn _ _ _ _ Hcall) as (Hcan & _ & Hout & _ & Hplaying).
  exists gs', msg. split; [reflexivity|]. split; [|split; [|exact Hcan]].
  - apply Hplaying.
    + vm_compute. repeat constructor; intros H;
        repeat (apply elem_of_cons in H as [H|H]; [discriminate|]); inversion H.
    + vm_compute. lia.
  - apply (Hout bob); vm_compute; reflexivity.
Defined.

(** ** components/Lobby.tsx *)

Lemma append_assoc_string (a b c : string) : (a +:+ b) +:+ c = a +:+ (b +:+ c).
Proof.
  induction a as [|x a IH]; [reflexivity|].
  change (String x ((a +:+ b) +:+ c) = String x (a +:+ (b +:+ c))). f_equal. exact IH.
Qed.

Lemma afterLastDash_noDash (cur d : string) :
  noDash d = true -> afterLastDash cur d = cur +:+ d.
Proof.
  revert cur. induction d as [|c d IH]; intros cur H; simpl.
  - clear. induction cur as [|x cur IH]; [reflexivity|].
    change (String x cur = String x (cur +:+ "")). f_equal. exact IH.
  - simpl in H. apply andb_true_iff in H as [Hc Hd]. apply negb_true_iff in Hc.
    rewrite Hc, (IH _ Hd), append_assoc_string. reflexivity.
Qed.

Lemma afterLastDash_field (cur a d : string) :
  noDash d = true -> afterLastDash cur (a +:+ "-" +:+ d) = d.
Proof.
  intros Hd. revert cur. induction a as [|c a IH]; intros cur; simpl.
  - apply afterLastDash_noDash. exact Hd.
  - destruct (Ascii.eqb c "-"); apply IH.
Qed.

Lemma noDash_pretty_N_go (x : N) (s : string) :
  noDash s = true -> noDash (pretty_N_go x s) = true.
Proof.
  revert s. induction (N.lt_wf_0 x) as [x _ IH]. intros s Hs.
  destruct (N.eq_dec x 0%N) as [->|Hne]; [rewrite pretty_N_go_0; exact Hs|].
  rewrite pretty_N_go_step by lia. apply IH; [apply N.div_lt; lia|].
  simpl. rewrite Hs, andb_true_r. apply negb_true_iff.
  destruct (pretty_N_char_digit (x mod 10)) as [Hdigit _];
    [apply N.mod_lt; discriminate|].
  destruct (Ascii.eqb_spec (pretty_N_char (x mod 10)) "-") as [E|E]; [|reflexivity].
  rewrite E in Hdigit. discriminate Hdigit.
Qed.

Lemma noDash_pretty_index (index : nat) : noDash (pretty (Z.of_nat index)) = true.
Proof.
  destruct (Z.of_nat index) as [|p|p] eqn:E; [reflexivity| |lia].
  change (pretty (Z.pos p)) with (pretty (N.pos p)).
  unfold pretty, pretty_N. rewrite decide_False by discriminate.
  apply noDash_pretty_N_go. reflexivity.
Qed.

Lemma lobbyFields_length (playerFields : list string) :
  lobbyFields playerFields -> (2 <= length playerFields <= 8)%nat.
Proof.
  induction 1 as [|fs index value _ IH Hindex _]; [simpl; lia|].
  unfold handlePlayerFieldChange, arr_length. cbv zeta.
  destruct (_ && _ && (_ <? 8)) eqn:E.
  - apply andb_true_iff in E as [_ E]. apply Z.ltb_lt in E.
    rewrite length_app, length_insert. simpl. lia.
  - rewrite length_insert. exact IH.
Qed.

Lemma lobbyPlayers_inv (playerFields : list string) (clock : nat -> Z)
    (ps : list Player) :
  lobbyPlayers playerFields clock = Some ps ->
  (2 <= length (List.filter nonBlank playerFields))%nat /\
  ps = imap (lobbyPlayer clock) (List.filter nonBlank playerFields).
Proof.
  unfold lobbyPlayers, arr_length. cbv zeta.
  destruct (Z.ltb_spec (Z.of_nat (length (List.filter nonBlank playerFields))) 2);
    [discriminate|].
  intros [= <-]. split; [lia | reflexivity].
Qed.

(** The ids end in the index, so they are pairwise distinct whatever the
    clock returns. *)
Lemma lobbyPlayer_ids_NoDup (clock : nat -> Z) (filled : list string) :
  NoDup (map id (imap (lobbyPlayer clock) filled)).
Proof.
  apply (NoDup_fmap_1 (afterLastDash "")).
  assert (Hkeys : afterLastDash "" <$> map id (imap (lobbyPlayer clock) filled)
                  = (fun index => pretty (Z.of_nat index))
                      <$> List.seq 0 (length filled)).
  { apply list_eq. intros i.
    rewrite !list_lookup_fmap, list_lookup_imap.
    destruct (filled !! i) as [x|] eqn:Hx.
    - rewrite lookup_seq_lt by (eapply lookup_lt_Some; exact Hx).
      cbn [fmap option_fmap option_map]. f_equal.
      change (afterLastDash "" ("player-" +:+ pretty (clock i) +:+ "-"
                                  +:+ pretty (Z.of_nat i))
              = pretty (Z.of_nat i)).
      rewrite <- (append_assoc_string "player-" (pretty (clock i))).
      apply afterLastDash_field, noDash_pretty_index.
    - rewrite lookup_seq_ge by (apply lookup_ge_None; exact Hx). reflexivity. }
  rewrite Hkeys. apply NoDup_fmap_2; [|apply NoDup_seq].
  intros i j Hij. apply (inj pretty) in Hij. lia.
Qed.

Lemma lobbyPlayer_Forall (clock : nat -> Z) (playerFields : list string) :
  Forall (fun p => isAlive p = true /\ id p <> "" /\ id p <> "system"
                   /\ name p <> "")
         (imap (lobbyPlayer clock) (List.filter nonBlank playerFields)).
Proof.
  apply Forall_forall. intros p Hp.
  apply elem_of_lookup_imap_1 in Hp as (i & x & -> & Hx).
  split; [reflexivity|]. split; [discriminate|]. split; [discriminate|].
  assert (Hin : In x (List.filter nonBlank playerFields))
    by (apply list_elem_of_In; eapply list_elem_of_lookup_2; exact Hx).
  apply List.filter_In in Hin as [_ Hnb]. unfold nonBlank in Hnb.
  apply negb_true_iff in Hnb. simpl. intros E. rewrite E in Hnb. discriminate Hnb.
Qed.

Lemma startGame_with_players (gs : GameState) (ps : list Player)
    (seed : HistoricalEvent) (now : Z) :
  (2 <= length ps)%nat ->
  exists gs',
    startGame (Some gs) (Some ps) (Some seed) now = Some gs' /\
    players gs' = ps /\ phase gs' = playing /\
    currentPlayerIndex gs' = currentPlayerIndex gs /\
    eventChain gs' =
      [ {| playerId := "system"; playerName := "Game"; event := seed;
           wasChecked := true; wasCorrect := Some true; timestamp := now |} ].
Proof.
  intros Hlen. unfold startGame. simpl default. unfold arr_length.
  replace (Z.of_nat (length ps) <? 2) with false by (symmetry; apply Z.ltb_ge; lia).
  eexists. split; [reflexivity|]. repeat split; reflexivity.
Qed.

(** X22. The players of a game started from the lobby.  Whatever 7-bit
    text is typed into the fields that the lobby shows, [handleStartGame]
    passes to [startGame] between two and eight players, one for each
    field that is not blank and in the order of the fields: all alive, with
    pairwise distinct ids that are neither empty nor "system", with the
    trimmed, non-empty text of the field as name, and with the first as
    host; it alerts and starts nothing exactly when fewer than two fields
    are filled.  With a seed event, [startGame] puts exactly these players
    into the game, in phase [playing]. *)
Theorem lobby_players (playerFields : list string) (clock : nat -> Z) :
  lobbyFields playerFields ->
  (lobbyPlayers playerFields clock = None <->
   (length (List.filter nonBlank playerFields) < 2)%nat) /\
  forall ps, lobbyPlayers playerFields clock = Some ps ->
    (2 <= length ps <= 8)%nat /\
    map name ps = map trim (List.filter nonBlank playerFields) /\
    NoDup (map id ps) /\
    Forall (fun p => isAlive p = true /\ id p <> "" /\ id p <> "system"
                     /\ name p <> "") ps /\
    (forall i p, ps !! i = Some p -> isHost p = Some (i =? 0)%nat) /\
    (forall gs seed now,
       exists gs', startGame (Some gs) (Some ps) (Some seed) now = Some gs' /\
                   players gs' = ps /\ phase gs' = playing).
Proof.
  intros Hfields. apply lobbyFields_length in Hfields.
  pose proof (List.filter_length_le nonBlank playerFields) as Hle.
  split.
  - unfold lobbyPlayers, arr_length. cbv zeta.
    destruct (Z.ltb_spec (Z.of_nat (length (List.filter nonBlank playerFields))) 2);
      split; intros H'; try reflexivity; try discriminate; lia.
  - intros ps Hps. apply lobbyPlayers_inv in Hps as [Htwo ->].
    rewrite length_imap. split; [lia|]. split; [|split; [|split; [|split]]].
    + apply list_eq. intros i.
      rewrite !list_lookup_fmap, list_lookup_imap.
      destruct (_ !! i); reflexivity.
    + apply lobbyPlayer_ids_NoDup.
    + apply lobbyPlayer_Forall.
    + intros i p Hp. apply list_lookup_imap_Some in Hp as (x & _ & ->). reflexivity.
    + intros gs seed now.
      destruct (startGame_with_players gs (imap (lobbyPlayer clock)
                  (List.filter nonBlank playerFields)) seed now)
        as (gs' & Hstart & Hplayers & Hphase & _).
      { rewrite length_imap. exact Htwo. }
      exists gs'. auto.
Qed.

Lemma lobby_players_witness :
  exists ps,
    lobbyPlayers
      (handlePlayerFieldChange (handlePlayerFieldChange [""; ""] 0 "Ann") 1 " Ben ")
      (fun _ => 1700000000000) = Some ps /\
    map name ps = ["Ann"; "Ben"] /\ NoDup (map id ps).
Proof.
  destruct (lobby_players
              (handlePlayerFieldChange (handlePlayerFieldChange [""; ""] 0 "Ann") 1 " Ben ")
              (fun _ => 1700000000000)) as [_ H].
  - apply fields_change; [apply fields_change; [apply fields_initial| |]| |];
      vm_compute; first [lia | reflexivity].
  - eexists. split; [vm_compute; reflexivity|].
    destruct (H _ eq_refl) as (_ & Hnames & Hnd & _).
    split; [exact Hnames | exact Hnd].
Defined.

(** ** A game played through the screens *)

Lemma alivePlayers_all (ps : list Player) :
  Forall (fun p => isAlive p = true) ps -> alivePlayers ps = ps.
Proof.
  intros H. unfold alivePlayers. apply filter_all.
  intros p Hp. rewrite Forall_forall in H. apply H. exact Hp.
Qed.

Lemma checkedCount_app (chain : list GameEvent) (e : GameEvent) :
  checkedCount (chain ++ [e])
  = (checkedCount chain + (if wasChecked e then 1 else 0))%nat.
Proof.
  unfold checkedCount. rewrite List.filter_app, length_app. simpl.
  destruct (wasChecked e); reflexivity.
Qed.

Lemma checkedCount_markChecked (chain : list GameEvent) (b : bool) (e : GameEvent) :
  last chain = Some e -> wasChecked e = false ->
  checkedCount (alter (markChecked b) (length chain - 1)%nat chain)
  = S (checkedCount chain).
Proof.
  intros Hlast Hun.
  destruct (last_Some chain e) as [Hsnoc _]. destruct (Hsnoc Hlast) as [l' ->].
  rewrite length_app. simpl.
  replace (length l' + 1 - 1)%nat with (length l' + 0)%nat by lia.
  rewrite alter_app_r. simpl. rewrite !checkedCount_app. simpl. rewrite Hun. lia.
Qed.

Lemma lastEvent_app (gs : GameState) (chain : list GameEvent) (e : GameEvent) :
  eventChain gs = chain ++ [e] -> lastEvent gs = Some e.
Proof. intros H. unfold lastEvent. rewrite H. apply arr_get_last. Qed.

Lemma processBullshitCall_out (gs : GameState) (caller : string)
    (e : GameEvent) :
  lastEvent gs = Some e ->
  eliminatedPlayerId (processBullshitCall gs caller) = caller \/
  eliminatedPlayerId (processBullshitCall gs caller) = playerId e.
Proof.
  unfold lastEvent, processBullshitCall. intros ->.
  destruct (getAnchorEvent gs); [|left; reflexivity].
  cbv zeta. destruct (isValid _); [left | right]; reflexivity.
Qed.

Lemma eligible_inv (gs : GameState) (caller : Player) :
  caller ∈ eligibleBullshitCallers gs ->
  exists e, lastEvent gs = Some e /\
            caller ∈ players gs /\ isAlive caller = true /\ id caller <> playerId e.
Proof.
  unfold eligibleBullshitCallers. destruct (lastEvent gs) as [e|]; [|intros H; inversion H].
  intros H. apply list_elem_of_In, List.filter_In in H as [Hin Hc].
  apply andb_true_iff in Hc as [Halive Hne]. apply negb_true_iff in Hne.
  apply bool_decide_eq_false in Hne.
  exists e. split; [reflexivity|]. split; [apply list_elem_of_In; exact Hin|]. auto.
Qed.

Lemma uiReachable_invariant (gs : GameState) : uiReachable gs -> uiInvariant gs.
Proof.
  induction 1 as [gs0 fs clock ps seed now gs Hgs0 Hlobby Hfs Hps Hstart
                 | gs fact now r gs' _ IH Hplaying Hcur Hsubmit
                 | gs caller gs' msg _ IH Hplaying Hcan Hcaller Hcall].
  - (* the lobby starts the game *)
    pose proof (lobbyFields_length _ Hfs) as Hlen.
    pose proof (List.filter_length_le nonBlank fs) as Hle.
    apply lobbyPlayers_inv in Hps as [Htwo ->].
    set (ps := imap (lobbyPlayer clock) (List.filter nonBlank fs)) in *.
    assert (Hlenps : length ps = length (List.filter nonBlank fs))
      by apply length_imap.
    destruct (startGame_with_players gs0 ps seed now ltac:(lia))
      as (gs1 & Hstart1 & Hplayers & Hphase & _ & Hchain).
    assert (gs1 = gs) by congruence. subst gs1.
    assert (Halive : alivePlayers ps = ps).
    { apply alivePlayers_all. eapply Forall_impl; [apply lobbyPlayer_Forall|].
      simpl. tauto. }
    split; [eapply er_start; eassumption|].
    rewrite Hplayers, Hchain, Halive.
    split; [apply lobbyPlayer_ids_NoDup|]. split; [lia|].
    split; [unfold checkedCount; simpl; lia|]. split; [left; split; [exact Hphase | lia]|].
    intros e He Hun. unfold lastEvent in He. rewrite Hchain in He.
    vm_compute in He. injection He as <-. discriminate Hun.
  - (* a fact is submitted *)
    destruct IH as (Hreach & Hnd & Hlen & Hcount & Hphase & Hlast).
    assert (Hreach' : engineReachable gs') by (eapply er_submit; eassumption).
    destruct (submitEvent_inv _ _ _ _ _ Hsubmit)
      as [(_ & _ & Hsame) | (_ & Hok & _)].
    + injection Hsame as <-.
      exact (conj Hreach (conj Hnd (conj Hlen (conj Hcount (conj Hphase Hlast))))).
    + destruct (submitEvent_success_inv _ _ _ _ _ Hsubmit Hok)
        as (cur & _ & Hget & _ & Hchain & Hplayers & _ & Hph & _).
      split; [exact Hreach'|]. rewrite Hplayers, Hph, Hchain, checkedCount_app.
      simpl. rewrite Nat.add_0_r.
      split; [exact Hnd|]. split; [exact Hlen|]. split; [exact Hcount|].
      split; [exact Hphase|].
      intros e He _. rewrite (lastEvent_app gs' _ _ Hchain) in He.
      injection He as <-. simpl.
      unfold isCurrentPlayer, currentPlayer in Hcur. rewrite Hget in Hcur.
      exists cur. split; [|split; [exact Hcur | reflexivity]].
      apply arr_get_Some in Hget as [_ Hget]. rewrite <- Hplayers.
      rewrite Hplayers. eapply list_elem_of_lookup_2. exact Hget.
  - (* a challenge is made *)
    destruct IH as (Hreach & Hnd & Hlen & Hcount & Hphase & Hlast).
    assert (Hreach' : engineReachable gs') by (eapply er_challenge; eassumption).
    destruct Hphase as [[_ Htwo] | [Hres _]]; [|congruence].
    destruct (eligible_inv _ _ Hcaller) as (e & He & Hin & Halive & Hne).
    assert (Hun : wasChecked e = false).
    { unfold canCallBullshit in Hcan. rewrite He in Hcan.
      apply andb_true_iff in Hcan as [Hcan _]. apply negb_true_iff in Hcan. exact Hcan. }
    destruct (Hlast e He Hun) as (submitter & Hsin & Hsalive & Hsid).
    destruct (callBullshit_players _ _ _ _ Hcall) as [Hps Hph].
    destruct (callBullshit_inv _ _ _ _ Hcall) as [_ Hchain].
    set (out := eliminatedPlayerId (processBullshitCall gs (id caller))) in *.
    assert (Hhit : existsb (fun p => bool_decide (id p = out) && isAlive p) (players gs)
                   = true).
    { apply existsb_exists.
      destruct (processBullshitCall_out gs (id caller) e He) as [Hout | Hout];
        fold out in Hout.
      - exists caller. split; [apply list_elem_of_In; exact Hin|].
        rewrite bool_decide_true by (symmetry; exact Hout). exact Halive.
      - exists submitter. split; [apply list_elem_of_In; exact Hsin|].
        rewrite bool_decide_true by congruence. exact Hsalive. }
    pose proof (eliminate_alive_count out _ Hnd) as Hdrop.
    rewrite <- Hps, Hhit in Hdrop.
    assert (Hids : map id (players gs') = map id (players gs)).
    { rewrite Hps, map_map. apply map_ext. intros p. case_bool_decide; reflexivity. }
    assert (Hlenps : length (players gs') = length (players gs))
      by (rewrite Hps; apply length_map).
    assert (Hchecked : checkedCount (eventChain gs') = S (checkedCount (eventChain gs))).
    { rewrite Hchain. apply (checkedCount_markChecked _ _ e); [|exact Hun].
      rewrite <- arr_get_last_eq. exact He. }
    split; [exact Hreach'|]. rewrite Hids, Hlenps, Hchecked.
    split; [exact Hnd|]. split; [exact Hlen|]. split; [lia|]. split.
    + rewrite Hph. unfold isGameOver, arr_length.
      destruct (Z.leb_spec (Z.of_nat (length (alivePlayers (players gs')))) 1);
        [right | left]; split; try reflexivity; lia.
    + intros e' He' Hun'.
      destruct (lastEvent_after_challenge _ _ _ _ Hcall) as (e'' & He'' & Hchk).
      congruence.
Qed.

(** X23. A game played through the screens.  In every state reached from
    a game that the lobby started from two to eight player fields of 7-bit
    text, by facts submitted while the input is shown and challenges made
    with the button shown by a player offered, the two to eight players
    have pairwise distinct ids, and every
    challenge has eliminated exactly one player: the number of alive
    players plus the number of checked chain entries (the seed and the
    challenged facts) is the number of players plus one.  The phase is
    [playing] with at least two players alive, or [results] with exactly
    one, whose id [getWinner] returns; an unchecked last fact belongs to a
    player who is alive, and the player offered as a challenger is another
    alive player. *)
Theorem ui_play_invariants (gs : GameState) :
  uiReachable gs ->
  NoDup (map id (players gs)) /\
  (2 <= length (players gs) <= 8)%nat /\
  (length (alivePlayers (players gs)) + checkedCount (eventChain gs)
   = length (players gs) + 1)%nat /\
  ((phase gs = playing /\ (2 <= length (alivePlayers (players gs)))%nat /\
    getWinner gs = None) \/
   (phase gs = results /\
    exists w, alivePlayers (players gs) = [w] /\ getWinner gs = Some (id w))) /\
  (forall e, lastEvent gs = Some e -> wasChecked e = false ->
     (exists p, p ∈ players gs /\ isAlive p = true /\ id p = playerId e) /\
     forall caller, caller ∈ eligibleBullshitCallers gs ->
       caller ∈ players gs /\ isAlive caller = true /\ id caller <> playerId e).
Proof.
  intros Hui. destruct (uiReachable_invariant gs Hui)
    as (_ & Hnd & Hlen & Hcount & Hphase & Hlast).
  split; [exact Hnd|]. split; [exact Hlen|]. split; [exact Hcount|]. split.
  - unfold getWinner.
    destruct Hphase as [[Hph Htwo] | [Hph Hone]]; [left | right];
      (split; [exact Hph|]).
    + split; [exact Htwo|].
      destruct (alivePlayers (players gs)) as [|p [|q rest]];
        simpl in Htwo; try lia. reflexivity.
    + destruct (alivePlayers (players gs)) as [|p [|q rest]];
        simpl in Hone; try lia. exists p. split; reflexivity.
  - intros e He Hun. split; [apply Hlast; assumption|].
    intros caller Hcaller.
    destruct (eligible_inv _ _ Hcaller) as (e' & He' & Hin & Halive & Hne).
    assert (e' = e) by congruence. subst e'. auto.
Qed.

Lemma ui_play_invariants_witness :
  exists gs,
    lobby_after_ann = Some gs /\
    NoDup (map id (players gs)) /\
    (length (alivePlayers (players gs)) + checkedCount (eventChain gs)
     = length (players gs) + 1)%nat.
Proof.
  destruct lobby_created as [gs0|] eqn:Hcreated; [|discriminate Hcreated].
  destruct (lobbyPlayers lobby_fields (fun _ => 1700000000000)) as [ps|] eqn:Hps;
    [|vm_compute in Hps; discriminate Hps].
  destruct (startGame (Some gs0) (Some ps)
              (Some (named_event "Siege of Lisbon" 1150)) 1000) as [gs1|] eqn:Hstart;
    [|vm_compute in Hcreated; injection Hcreated as <-;
      vm_compute in Hps; injection Hps as <-; vm_compute in Hstart; discriminate Hstart].
  destruct (submitEvent (Some gs1) (named_event "Founding of Leipzig" 1170) 2000)
    as [[r [gs2|]]|] eqn:Hsubmit;
    try (vm_compute in Hcreated; injection Hcreated as <-;
         vm_compute in Hps; injection Hps as <-;
         vm_compute in Hstart; injection Hstart as <-;
         vm_compute in Hsubmit; discriminate Hsubmit).
  assert (Hui1 : uiReachable gs1).
  { eapply (ui_start gs0 lobby_fields); [| | |exact Hps|exact Hstart].
    - apply (er_create "temp-host" None "ABC123" "host-1"). exact Hcreated.
    - vm_compute in Hcreated. injection Hcreated as <-. reflexivity.
    - apply fields_change; [apply fields_change; [apply fields_initial| |]| |];
        vm_compute; first [lia | reflexivity]. }
  assert (Hui2 : uiReachable gs2).
  { eapply ui_submit; [exact Hui1| | |exact Hsubmit];
      vm_compute in Hcreated; injection Hcreated as <-;
      vm_compute in Hps; injection Hps as <-;
      vm_compute in Hstart; injection Hstart as <-; reflexivity. }
  destruct (ui_play_invariants gs2 Hui2) as (Hnd & _ & Hcount & _).
  exists gs2. split; [|split; [exact Hnd | exact Hcount]].
  unfold lobby_after_ann, lobby_started. rewrite Hcreated, Hps, Hstart, Hsubmit.
  reflexivity.
Defined.

(** ** components/Game.tsx: the input of a fact *)

(** A greedy [\d*] before a continuation that succeeds at the end of the
    text succeeds on a text of digits. *)
Lemma star_digits (k : mstate -> option (list (nat * string))) (s : mstate) :
  allDigits (rest s) = true ->
  (forall s', rest s' = "" -> is_Some (k s')) ->
  is_Some (rmatch (Star true D) k s).
Proof.
  intros Hdigits Hk. simpl rmatch.
  match goal with |- is_Some (?f _ s) => set (iterate := f) end.
  assert (H : forall fuel s0, allDigits (rest s0) = true ->
                (String.length (rest s0) <= fuel)%nat -> is_Some (iterate fuel s0)).
  { clear s Hdigits. induction fuel as [|fuel IH]; intros s Hdigits Hlen.
    - simpl. apply Hk. destruct (rest s); [reflexivity | simpl in Hlen; lia].
    - unfold iterate. simpl. fold iterate. unfold step.
      destruct (rest s) as [|c t] eqn:Hrest.
      + simpl. apply Hk. exact Hrest.
      + simpl in Hdigits. apply andb_true_iff in Hdigits as [Hc Ht].
        rewrite Hc. cbn [rest].
        replace (String.length t <? String.length (String c t))%nat with true
          by (symmetry; apply Nat.ltb_lt; simpl; lia).
        destruct (IH {| before := Some c; rest := t; captures := captures s |} Ht)
          as [m Hm]; [simpl in *; lia|].
        rewrite Hm. simpl. eauto. }
  apply H; [exact Hdigits | lia].
Qed.

Lemma yearOnlyPattern_digits (text : string) :
  text <> "" -> allDigits text = true -> regexTest yearOnlyPattern text = true.
Proof.
  intros Hne Hdigits. destruct text as [|c t]; [contradiction|].
  simpl in Hdigits. apply andb_true_iff in Hdigits as [Hc Ht].
  unfold regexTest, regexMatch. apply bool_decide_eq_true.
  unfold searchFrom.
  assert (Hm : is_Some (rmatch yearOnlyPattern (fun s => Some (captures s))
                          {| before := None; rest := String c t; captures := [] |})).
  { change (is_Some
              (if isDigit c
               then rmatch (Star true D)
                      (rmatch (seq [Many WS;
                                    Opt (Group 1 (words ["BC"; "AD"; "BCE"; "CE"]));
                                    Eol])
                              (fun s => Some (captures s)))
                      {| before := Some c; rest := t; captures := [] |}
               else None)).
    rewrite Hc. apply star_digits; [exact Ht|].
    intros [b r caps] Hr. simpl in Hr. subst r. vm_compute. eauto. }
  destruct Hm as [m Hm]. unfold orElse. rewrite Hm. eauto.
Qed.

Lemma anchored_later (r : regex) (prev : ascii) (text : string) :
  searchFrom (Seq Bol r) (Some prev) text = None.
Proof.
  revert prev. induction text as [|c t IH]; intros prev; simpl; [reflexivity|].
  apply IH.
Qed.

Lemma yearOnlyPattern_no_digit (c : ascii) (t : string) :
  isDigit c = false -> regexTest yearOnlyPattern (String c t) = false.
Proof.
  intros Hc. unfold regexTest, regexMatch. apply bool_decide_eq_false.
  intros [m Hm]. unfold searchFrom in Hm. fold searchFrom in Hm.
  change yearOnlyPattern
    with (Seq Bol (seq [Plus D; Many WS;
                        Opt (Group 1 (words ["BC"; "AD"; "BCE"; "CE"])); Eol]))
    in Hm.
  rewrite anchored_later in Hm.
  change (rmatch (Seq Bol ?r) ?k {| before := None; rest := String c t; captures := [] |})
    with (if isDigit c
          then rmatch (Star true D)
                 (rmatch (seq [Many WS;
                               Opt (Group 1 (words ["BC"; "AD"; "BCE"; "CE"]));
                               Eol])
                         (fun s => Some (captures s)))
                 {| before := Some c; rest := t; captures := [] |}
          else None) in Hm.
  rewrite Hc in Hm. discriminate Hm.
Qed.

(** X24. A bare year is never searched.  With no search under way,
    [handleSubmitEvent] does nothing for a blank input; it answers an input
    of 7-bit characters that consists of digits, with white space around
    them or not, with the alert that asks for an event instead of a year;
    and it passes an input that begins, after the white space, with a
    character that is not a digit to the search, trimmed.  While a search
    is under way it does nothing, and it never searches for the empty
    text. *)
Theorem handleSubmitEvent_years (eventInput : string) :
  asciiOnly eventInput = true ->
  (trim eventInput = "" -> handleSubmitEvent eventInput false = NoAction) /\
  (trim eventInput <> "" -> allDigits (trim eventInput) = true ->
   handleSubmitEvent eventInput false = YearAlert) /\
  (forall c t, trim eventInput = String c t -> isDigit c = false ->
     handleSubmitEvent eventInput false = Search (trim eventInput)) /\
  (forall busy, handleSubmitEvent eventInput true = NoAction /\
                handleSubmitEvent eventInput busy <> Search "").
Proof.
  intros _. unfold handleSubmitEvent, nonBlank. cbv zeta.
  split; [|split; [|split]].
  - intros ->. reflexivity.
  - intros Hne Hdigits.
    destruct (trim eventInput) as [|c t] eqn:E; [contradiction|].
    simpl. rewrite yearOnlyPattern_digits by (discriminate || exact Hdigits).
    reflexivity.
  - intros c t -> Hc. simpl. rewrite yearOnlyPattern_no_digit by exact Hc.
    reflexivity.
  - intros busy. split; [rewrite orb_true_r; reflexivity|].
    destruct (trim eventInput) as [|c t] eqn:E; simpl.
    + discriminate.
    + destruct busy; simpl; [discriminate|].
      destruct (regexTest yearOnlyPattern (String c t)); discriminate.
Qed.

Lemma handleSubmitEvent_years_witness :
  handleSubmitEvent " 1066 " false = YearAlert /\
  handleSubmitEvent " Battle of Hastings " false = Search "Battle of Hastings".
Proof.
  split.
  - destruct (handleSubmitEvent_years " 1066 ") as (_ & H & _).
    + vm_compute. reflexivity.
    + apply H; vm_compute; [discriminate | reflexivity].
  - destruct (handleSubmitEvent_years " Battle of Hastings ") as (_ & _ & H & _).
    + vm_compute. reflexivity.
    + apply (H "B"%char "attle of Hastings"); vm_compute; reflexivity.
Defined.

(** ** services/eventCache.ts: [cacheEvents] *)

Lemma cacheEventsFrom_throws (index : nat) (entries : list (string * HistoricalEvent))
    (clock : nat -> Z) (obj : JSObject CachedEvent) :
  Exists (fun ne => date (snd ne) = InvalidDate) entries ->
  cacheEventsFrom index entries clock obj = Throw.
Proof.
  intros Hex. revert index obj.
  induction Hex as [[name event] rest Hinv | [name event] rest _ IH];
    intros index obj; simpl in *.
  - rewrite Hinv. reflexivity.
  - destruct (toISOString (date event)); simpl; [apply IH | reflexivity].
Qed.

Lemma cacheEventsFrom_inv (index : nat) (entries : list (string * HistoricalEvent))
    (clock : nat -> Z) (obj obj' : JSObject CachedEvent) :
  cacheEventsFrom index entries clock obj = Normal obj' ->
  (NoDup (objectKeys obj) -> NoDup (objectKeys obj')) /\
  (length obj' <= length obj + length entries)%nat /\
  (forall key, key ∉ map (fun ne => normalizeEventName (fst ne)) entries ->
     ownProperty obj' key = ownProperty obj key) /\
  (NoDup (map (fun ne => normalizeEventName (fst ne)) entries) ->
   forall j name event,
     entries !! j = Some (name, event) ->
     normalizeEventName name <> "__proto__" ->
     exists iso,
       toISOString (date event) = Normal iso /\
       ownProperty obj' (normalizeEventName name)
       = Some (entryOf event iso (clock (index + j)%nat))).
Proof.
  revert index obj. induction entries as [|[name event] rest IH];
    intros index obj H; simpl in H.
  - injection H as <-. split; [auto|]. split; [simpl; lia|]. split; [auto|].
    intros _ j n e Hj. rewrite lookup_nil in Hj. discriminate.
  - destruct (toISOString (date event)) as [iso|] eqn:Hiso; [|discriminate].
    simpl in H. apply IH in H as (Hnd & Hlen & Hframe & Hbatch).
    split; [|split; [|split]].
    + intros Hobj. apply Hnd. apply setProp_NoDup. exact Hobj.
    + pose proof (setProp_length (normalizeEventName name)
                    (entryOf event iso (clock index)) obj). simpl. lia.
    + intros key Hkey. simpl in Hkey. apply not_elem_of_cons in Hkey as [Hne Hkey].
      rewrite (Hframe key Hkey). apply ownProperty_setProp_ne. exact Hne.
    + intros Hdistinct j n e Hj Hproto. simpl in Hdistinct.
      apply NoDup_cons in Hdistinct as [Hfirst Hdistinct].
      destruct j as [|j]; simpl in Hj.
      * injection Hj as <- <-. exists iso. split; [exact Hiso|].
        rewrite (Hframe _ Hfirst), Nat.add_0_r.
        apply ownProperty_setProp. exact Hproto.
      * destruct (Hbatch Hdistinct j n e Hj Hproto) as (iso' & Hiso' & Hown).
        exists iso'. split; [exact Hiso'|].
        replace (index + S j)%nat with (S index + j)%nat by lia. exact Hown.
Qed.

Lemma cacheEventsFrom_total (index : nat) (entries : list (string * HistoricalEvent))
    (clock : nat -> Z) (obj : JSObject CachedEvent) :
  Forall (fun ne => date (snd ne) <> InvalidDate) entries ->
  exists obj', cacheEventsFrom index entries clock obj = Normal obj'.
Proof.
  intros Hall. revert index obj.
  induction Hall as [|[name event] rest Hvalid _ IH]; intros index obj; simpl.
  - eauto.
  - simpl in Hvalid. destruct (date event) as [|t] eqn:Hd; [contradiction|].
    unfold toISOString. destruct (civil_from_days (t / msPerDay)) as [[y m] d].
    simpl. apply IH.
Qed.

(** X25. [cacheEvents] writes all or nothing.  If one of the events has an
    invalid date, it throws and nothing is stored.  Otherwise it completes,
    and when the stored object had distinct keys the object stored
    afterwards has distinct keys and at most [MAX_CACHE_SIZE] entries.
    When the names of the batch are of 7-bit characters, every entry under
    a key that is not of the batch is unchanged or gone; and when moreover
    the names of the batch have distinct keys, none of them [__proto__],
    the dates are within the range of a [Date] and the cache holds no more
    than [MAX_CACHE_SIZE] entries with the batch, every event of the batch
    is read back by [getCachedEvent] under its name exactly as it was
    stored.  A batch of one is [cacheEvent]. *)
Theorem cacheEvents_all_or_nothing (item : StoredItem)
    (entries : list (string * HistoricalEvent)) (clock : nat -> Z) :
  NoDup (objectKeys (events (getCache item))) ->
  (Exists (fun ne => date (snd ne) = InvalidDate) entries ->
   cacheEvents item entries clock = Throw) /\
  (Forall (fun ne => date (snd ne) <> InvalidDate) entries ->
   exists item',
     cacheEvents item entries clock = Normal item' /\
     NoDup (objectKeys (events (getCache item'))) /\
     fst (getCacheStats item') <= MAX_CACHE_SIZE /\
     (Forall (fun ne => asciiOnly (fst ne) = true) entries ->
      (forall key v,
         key ∉ map (fun ne => normalizeEventName (fst ne)) entries ->
         ownProperty (events (getCache item')) key = Some v ->
         ownProperty (events (getCache item)) key = Some v) /\
      (NoDup (map (fun ne => normalizeEventName (fst ne)) entries) ->
       fst (getCacheStats item) + arr_length entries <= MAX_CACHE_SIZE ->
       forall name event t,
         (name, event) ∈ entries ->
         normalizeEventName name <> "__proto__" ->
         date event = TimeValue t -> Z.abs t <= maxTimeValue ->
         getCachedEvent item' name = Cached event))) /\
  (forall name event,
     cacheEvents item [(name, event)] clock = cacheEvent item name event (clock 0%nat)).
Proof.
  intros Hnd. split; [|split].
  - intros Hex. unfold cacheEvents. cbv zeta.
    rewrite cacheEventsFrom_throws by exact Hex. reflexivity.
  - intros Hall.
    destruct (cacheEventsFrom_total 0 entries clock (events (getCache item)) Hall)
      as [obj Hobj].
    destruct (cacheEventsFrom_inv _ _ _ _ _ Hobj) as (Hnd' & Hlen & Hframe & Hbatch).
    unfold cacheEvents. cbv zeta. rewrite Hobj. simpl.
    eexists. split; [reflexivity|].
    destruct (saveCache_spec {| version := version (getCache item); events := obj |})
      as (kept & Hget & Hndk & Hsize & Hsub & _ & Hsmall).
    { apply getCache_version. }
    { apply Hnd'. exact Hnd. }
    simpl in Hsize, Hsub, Hsmall.
    unfold getCacheStats. rewrite Hget. simpl.
    split; [exact Hndk|]. split; [lia|]. intros _. split.
    + intros key v Hkey Hown. apply Hsub in Hown.
      rewrite (Hframe key Hkey) in Hown. exact Hown.
    + intros Hdistinct Hroom name event t Hin Hproto Hdate Ht.
      apply list_elem_of_lookup_1 in Hin as [j Hj].
      destruct (Hbatch Hdistinct j name event Hj Hproto) as (iso & Hiso & Hown).
      destruct (dateOfString_toISOString t Ht) as (iso' & Hiso' & Hback).
      rewrite Hdate in Hiso. assert (iso' = iso) by congruence. subst iso'.
      unfold getCachedEvent, getProp. cbv zeta. rewrite Hget. simpl.
      rewrite Hsmall.
      * rewrite Hown. simpl. f_equal. rewrite Hback, <- Hdate.
        destruct event; reflexivity.
      * change (arr_length (objectKeys (events (getCache item))) + arr_length entries
                <= MAX_CACHE_SIZE) in Hroom.
        unfold arr_length, objectKeys in *. rewrite length_map in *. lia.
  - intros name event. unfold cacheEvents, cacheEvent. cbv zeta. simpl.
    destruct (toISOString (date event)); reflexivity.
Qed.

Lemma cacheEvents_all_or_nothing_witness :
  cacheEvents ItemAbsent [("Hastings", hastings); ("Lisbon", named_event "Siege of Lisbon" 1150)]
              (fun _ => 5000) = Throw /\
  exists item',
    cacheEvents ItemAbsent [("Battle of Hastings", hastings)] (fun _ => 5000)
    = Normal item' /\
    getCachedEvent item' "battle of hastings" = Cached hastings.
Proof.
  destruct (cacheEvents_all_or_nothing ItemAbsent
              [("Hastings", hastings); ("Lisbon", named_event "Siege of Lisbon" 1150)]
              (fun _ => 5000)) as (Hthrow & _); [apply NoDup_nil_2|].
  split; [apply Hthrow; right; left; reflexivity|].
  destruct (cacheEvents_all_or_nothing ItemAbsent [("Battle of Hastings", hastings)]
              (fun _ => 5000)) as (_ & Hall & _); [apply NoDup_nil_2|].
  destruct Hall as (item' & Hstored & _ & _ & Hplain).
  - repeat constructor. vm_compute. discriminate.
  - destruct (Hplain ltac:(repeat constructor)) as [_ Hread].
    exists item'. split; [exact Hstored|].
    change (getCachedEvent item' "battle of hastings")
      with (getCachedEvent item' "Battle of Hastings").
    apply (Hread ltac:(repeat constructor; apply not_elem_of_nil)
                 ltac:(vm_compute; discriminate)
                 "Battle of Hastings" hastings (-28502755200000)).
    + left.
    + vm_compute. discriminate.
    + vm_compute. reflexivity.
    + vm_compute. discriminate.
Defined.
